(** * EXO interpreter: a shallow embedding of [main.py]

    The interpreter of the EXO language is a line-oriented evaluator
    written in Python.  It keeps its whole state in module-level
    globals ([current_scope], [functions], [modules], [web_routes],
    [call_stack], [output]) and re-scans source text on every
    evaluation.  This development models

    - Python text as lists of code points, with the handful of [str]
      methods the interpreter relies on;
    - the interpreter globals as one explicit [state] record that is
      threaded through every function, together with an object store
      for [Scope] instances and for lists and dicts (both are aliased
      by reference in Python);
    - Python exceptions as outcomes of a small error monad: the
      interpreter's own [ExoError] is kept apart from host
      exceptions, because [evaluate] and [run] treat them
      differently;
    - unbounded recursion ([while] loops, user procedures) by fuel.

    Host behaviour that is outside the model (rendering of floats,
    the less common built-ins, non-Arabic non-ASCII identifiers) is
    reported by the dedicated outcome [Unmodelled]; no theorem below
    concludes anything from it. *)

From Stdlib Require Import ZArith NArith List String Ascii Bool Lia PeanoNat.
Import ListNotations.

Set Implicit Arguments.

(* ================================================================== *)
(** * Python text *)
(* ================================================================== *)

Module PyStr.

(** A Python [str] is a sequence of code points. *)
Definition pystr := list N.

Fixpoint bytes_of (s : string) : list N :=
  match s with
  | EmptyString => []
  | String c r => N_of_ascii c :: bytes_of r
  end.

(** Literals in this file are written as UTF-8 text; [U] decodes them
    to code points, so that slicing counts characters as Python does. *)
Fixpoint utf8_decode (bs : list N) : pystr :=
  match bs with
  | [] => []
  | b0 :: r0 =>
    if (b0 <? 128)%N then b0 :: utf8_decode r0
    else match r0 with
    | [] => [b0]
    | b1 :: r1 =>
      if (b0 <? 224)%N then ((b0 - 192) * 64 + (b1 - 128))%N :: utf8_decode r1
      else match r1 with
      | [] => [b0]
      | b2 :: r2 =>
        if (b0 <? 240)%N
        then ((b0 - 224) * 4096 + (b1 - 128) * 64 + (b2 - 128))%N :: utf8_decode r2
        else match r2 with
        | [] => [b0]
        | b3 :: r3 =>
          ((b0 - 240) * 262144 + (b1 - 128) * 4096 + (b2 - 128) * 64 + (b3 - 128))%N
            :: utf8_decode r3
        end
      end
    end
  end.

Definition U (s : string) : pystr := utf8_decode (bytes_of s).

Fixpoint str_eqb (a b : pystr) : bool :=
  match a, b with
  | [], [] => true
  | x :: a', y :: b' => (x =? y)%N && str_eqb a' b'
  | _, _ => false
  end.

(** [s in (a, b, ...)] on strings. *)
Definition str_in (s : pystr) (l : list pystr) : bool := existsb (str_eqb s) l.

(** [str.isspace] for one character: the code points [str.strip]
    removes. *)
Definition is_space (c : N) : bool :=
  ((9 <=? c) && (c <=? 13) || (28 <=? c) && (c <=? 32) || (c =? 133) || (c =? 160)
   || (c =? 5760) || (8192 <=? c) && (c <=? 8202) || (c =? 8232) || (c =? 8233)
   || (c =? 8239) || (c =? 8287) || (c =? 12288))%N.

Fixpoint lstrip (s : pystr) : pystr :=
  match s with
  | [] => []
  | c :: r => if is_space c then lstrip r else s
  end.

Definition rstrip (s : pystr) : pystr := rev (lstrip (rev s)).
Definition strip (s : pystr) : pystr := rstrip (lstrip s).

Fixpoint startswith (s p : pystr) : bool :=
  match p with
  | [] => true
  | c :: p' =>
    match s with
    | [] => false
    | d :: s' => (c =? d)%N && startswith s' p'
    end
  end.

Definition endswith (s p : pystr) : bool := startswith (rev s) (rev p).

(** [s.startswith((p1, p2, ...))]. *)
Definition startswith_any (s : pystr) (ps : list pystr) : bool :=
  existsb (startswith s) ps.

Fixpoint find_aux (p s : pystr) (i : nat) : option nat :=
  if startswith s p then Some i
  else match s with
       | [] => None
       | _ :: r => find_aux p r (S i)
       end.

(** [s.find(p)]: the first index, or [-1]. *)
Definition find (s p : pystr) : Z :=
  match find_aux p s 0 with
  | Some i => Z.of_nat i
  | None => (-1)%Z
  end.

(** [p in s]. *)
Definition contains (p s : pystr) : bool :=
  match find_aux p s 0 with
  | Some _ => true
  | None => false
  end.

Fixpoint rfind_aux (c : N) (s : pystr) (i : nat) (best : Z) : Z :=
  match s with
  | [] => best
  | d :: r => rfind_aux c r (S i) (if (c =? d)%N then Z.of_nat i else best)
  end.

(** [s.rfind(c)] for a one-character [c]. *)
Definition rfind (s : pystr) (c : N) : Z := rfind_aux c s 0 (-1)%Z.

(** Bounds of a slice, as Python clamps them. *)
Definition norm_index (len i : Z) : Z :=
  if (i <? 0)%Z then Z.max 0 (i + len) else Z.min i len.

(** [s[lo:hi]]. *)
Definition slice (A : Type) (s : list A) (lo hi : Z) : list A :=
  let n := Z.of_nat (List.length s) in
  let l := norm_index n lo in
  let h := norm_index n hi in
  firstn (Z.to_nat (h - l)) (skipn (Z.to_nat l) s).

(** [s[lo:]]. *)
Definition slice_from (A : Type) (s : list A) (lo : Z) : list A :=
  slice s lo (Z.of_nat (List.length s)).

(** [s.split(sep)] for a non-empty separator. *)
Fixpoint split_aux (sep s : pystr) (skip : nat) (cur : pystr) : list pystr :=
  match s with
  | [] => [rev cur]
  | c :: r =>
    match skip with
    | S k => split_aux sep r k cur
    | O =>
      if startswith s sep
      then rev cur :: split_aux sep r (List.length sep - 1) []
      else split_aux sep r 0 (c :: cur)
    end
  end.

Definition split (s sep : pystr) : list pystr := split_aux sep s 0 [].

(** [s.split(sep, 1)]. *)
Definition split1 (s sep : pystr) : list pystr :=
  match find_aux sep s 0 with
  | Some i => [firstn i s; skipn (i + List.length sep) s]
  | None => [s]
  end.

(** [s.split()[0]] of a line that has already been stripped and is
    not empty: its first blank-delimited word. *)
Fixpoint first_word (s : pystr) : pystr :=
  match s with
  | [] => []
  | c :: r => if is_space c then [] else c :: first_word r
  end.

Fixpoint join (sep : pystr) (l : list pystr) : pystr :=
  match l with
  | [] => []
  | [x] => x
  | x :: r => x ++ sep ++ join sep r
  end.

(** [s.replace(old, new)]. *)
Definition replace (s old new : pystr) : pystr := join new (split s old).

Definition is_ascii_alpha (c : N) : bool :=
  ((65 <=? c) && (c <=? 90) || (97 <=? c) && (c <=? 122) || (c =? 95))%N.
Definition is_ascii_digit (c : N) : bool := ((48 <=? c) && (c <=? 57))%N.
(** Arabic letters U+0620..U+064A, all of them identifier starts. *)
Definition is_arabic_letter (c : N) : bool := ((1568 <=? c) && (c <=? 1610))%N.

(** [s.isidentifier()].  [None] when [s] holds a non-ASCII character
    outside the Arabic letter block, whose Unicode class is not
    tabulated here. *)
Definition isidentifier (s : pystr) : option bool :=
  if existsb (fun c => (128 <=? c)%N && negb (is_arabic_letter c)) s then None
  else match s with
       | [] => Some false
       | c :: r =>
         Some ((is_ascii_alpha c || is_arabic_letter c)
               && forallb (fun d => is_ascii_alpha d || is_ascii_digit d
                                    || is_arabic_letter d) r)
       end.

Fixpoint digits_rev (fuel : nat) (n : Z) : pystr :=
  match fuel with
  | O => []
  | S f =>
    if (n <? 10)%Z then [Z.to_N (48 + n)]
    else Z.to_N (48 + n mod 10) :: digits_rev f (n / 10)
  end.

(** [str(n)] for an int. *)
Definition of_Z (n : Z) : pystr :=
  let a := Z.abs n in
  let ds := rev (digits_rev (S (Z.to_nat (Z.log2 a))) a) in
  if (n <? 0)%Z then 45%N :: ds else ds.

Definition of_nat (n : nat) : pystr := of_Z (Z.of_nat n).

End PyStr.
Import PyStr.

(* ================================================================== *)
(** * Python floats *)
(* ================================================================== *)

Module PyFloat.
Local Open Scope Z_scope.

(** A finite binary64 value, [fm * 2 ^ fe], kept canonical ([fm] odd,
    or both fields zero).  The sign of zero, infinities and NaN are
    not represented: an operation that would produce one of the
    latter is reported as not modelled by its caller. *)
Record float : Type := mkfloat { fm : Z; fe : Z }.

Definition fzero : float := mkfloat 0 0.

Definition float_eqb (x y : float) : bool := (fm x =? fm y) && (fe x =? fe y).

Definition trailing_zeros (m : Z) : Z := Z.log2 (Z.land m (- m)).

Definition normalize (m q : Z) : float :=
  if m =? 0 then fzero
  else let t := trailing_zeros (Z.abs m) in mkfloat (Z.shiftr m t) (q + t).

(** [floor (log2 (a / d))] for positive [a] and [d]. *)
Definition floor_log2_ratio (a d : Z) : Z :=
  let g := Z.log2 a - Z.log2 d in
  if (if 0 <=? g then d * 2 ^ g <=? a else d <=? a * 2 ^ (- g)) then g else g - 1.

(** Round the rational [n / d] ([0 < d]) to the nearest binary64,
    ties to even.  [None] when the result is too large for a finite
    double. *)
Definition round64 (n d : Z) : option float :=
  if n =? 0 then Some fzero
  else
    let a := Z.abs n in
    let e := floor_log2_ratio a d in
    let q := Z.max (e - 52) (-1074) in
    let num := if 0 <=? q then a else a * 2 ^ (- q) in
    let den := if 0 <=? q then d * 2 ^ q else d in
    let m0 := num / den in
    let r := num mod den in
    let m := if 2 * r <? den then m0
             else if den <? 2 * r then m0 + 1
             else if Z.even m0 then m0 else m0 + 1 in
    if (971 <=? q) && (2 ^ (1024 - q) <=? m) then None
    else Some (normalize (Z.sgn n * m) q).

(** The exact value of a float as a fraction. *)
Definition num_of (x : float) : Z := if 0 <=? fe x then fm x * 2 ^ fe x else fm x.
Definition den_of (x : float) : Z := if 0 <=? fe x then 1 else 2 ^ (- fe x).

Definition of_int (n : Z) : option float := round64 n 1.
Definition is_zero (x : float) : bool := fm x =? 0.

Definition add (x y : float) : option float :=
  round64 (num_of x * den_of y + num_of y * den_of x) (den_of x * den_of y).
Definition sub (x y : float) : option float :=
  round64 (num_of x * den_of y - num_of y * den_of x) (den_of x * den_of y).
Definition mul (x y : float) : option float :=
  round64 (num_of x * num_of y) (den_of x * den_of y).
(** [x / y] for [y] not zero. *)
Definition div (x y : float) : option float :=
  let n := num_of x * den_of y in
  let d := den_of x * num_of y in
  round64 (Z.sgn d * n) (Z.abs d).

(** Exact comparison of two floats, and of a float with an int. *)
Definition compare (x y : float) : comparison :=
  (num_of x * den_of y ?= num_of y * den_of x).

(** [int(x)]: truncation towards zero. *)
Definition trunc (x : float) : Z := Z.quot (num_of x) (den_of x).

End PyFloat.

(* ================================================================== *)
(** * Values, objects and the interpreter state *)
(* ================================================================== *)

(** Lists, dicts and [Scope] instances are Python objects: a value
    holds a reference into a store, so that two bindings of one list
    see each other's updates. *)
Definition loc := nat.

Inductive value : Type :=
| VNone
| VBool (b : bool)
| VInt (z : Z)
| VFloat (f : PyFloat.float)
| VStr (s : pystr)
| VList (l : loc)
| VDict (l : loc).

Inductive obj : Type :=
| OList (items : list value)
| ODict (items : list (value * value)).

(** class [Scope]. *)
Record scope : Type := mkscope {
  sc_parent : option loc;
  sc_name : pystr;
  sc_vars : list (pystr * value)
}.

(** An entry of [functions]: [(body, args_names, def_scope)]. *)
Record func : Type := mkfunc {
  fn_body : list pystr;
  fn_args : list pystr;
  fn_scope : loc
}.

(** The module-level globals of [main.py] and the two object stores. *)
Record state : Type := mkstate {
  scopes : list scope;
  heap : list obj;
  current_scope : loc;
  functions : list (pystr * func);
  modules : list (pystr * loc);
  output : list pystr;
  web_routes : list (pystr * list pystr);
  call_stack : list pystr;
  stdout : list pystr
}.

(** The part of the host that [import] reads: the text of each file,
    by absolute normalised path, and the working directory.  The
    modelled part of the interpreter never changes either. *)
Record host_env : Type := mkhost {
  files : list (pystr * pystr);
  cwd : pystr
}.

(** [global_scope] is the first [Scope] ever created. *)
Definition global_scope : loc := 0%nat.
Definition MAX_RECURSION_DEPTH : nat := 1000.

Definition initial_state : state :=
  {| scopes := [mkscope None (U "global") []];
     heap := [];
     current_scope := global_scope;
     functions := [];
     modules := [];
     output := [];
     web_routes := [];
     call_stack := [];
     stdout := [] |}.

Definition set_scopes (x : list scope) (st : state) : state :=
  mkstate x (heap st) (current_scope st) (functions st) (modules st) (output st)
          (web_routes st) (call_stack st) (stdout st).
Definition set_heap (x : list obj) (st : state) : state :=
  mkstate (scopes st) x (current_scope st) (functions st) (modules st) (output st)
          (web_routes st) (call_stack st) (stdout st).
Definition set_current_scope (x : loc) (st : state) : state :=
  mkstate (scopes st) (heap st) x (functions st) (modules st) (output st)
          (web_routes st) (call_stack st) (stdout st).
Definition set_functions (x : list (pystr * func)) (st : state) : state :=
  mkstate (scopes st) (heap st) (current_scope st) x (modules st) (output st)
          (web_routes st) (call_stack st) (stdout st).
Definition set_modules (x : list (pystr * loc)) (st : state) : state :=
  mkstate (scopes st) (heap st) (current_scope st) (functions st) x (output st)
          (web_routes st) (call_stack st) (stdout st).
Definition set_output (x : list pystr) (st : state) : state :=
  mkstate (scopes st) (heap st) (current_scope st) (functions st) (modules st) x
          (web_routes st) (call_stack st) (stdout st).
Definition set_web_routes (x : list (pystr * list pystr)) (st : state) : state :=
  mkstate (scopes st) (heap st) (current_scope st) (functions st) (modules st)
          (output st) x (call_stack st) (stdout st).
Definition set_call_stack (x : list pystr) (st : state) : state :=
  mkstate (scopes st) (heap st) (current_scope st) (functions st) (modules st)
          (output st) (web_routes st) x (stdout st).
Definition set_stdout (x : list pystr) (st : state) : state :=
  mkstate (scopes st) (heap st) (current_scope st) (functions st) (modules st)
          (output st) (web_routes st) (call_stack st) x.

(** ** Dicts keyed by text

    A Python dict keeps insertion order; assigning to a key that is
    present keeps its position. *)
Section StrDict.
Variable A : Type.

Fixpoint sd_get (k : pystr) (d : list (pystr * A)) : option A :=
  match d with
  | [] => None
  | (k', v) :: r => if str_eqb k k' then Some v else sd_get k r
  end.

Definition sd_mem (k : pystr) (d : list (pystr * A)) : bool :=
  match sd_get k d with Some _ => true | None => false end.

Fixpoint sd_set (k : pystr) (v : A) (d : list (pystr * A)) : list (pystr * A) :=
  match d with
  | [] => [(k, v)]
  | (k', v') :: r => if str_eqb k k' then (k', v) :: r else (k', v') :: sd_set k v r
  end.
End StrDict.

(** Replace the element at an index that exists. *)
Fixpoint list_set (A : Type) (l : list A) (i : nat) (x : A) : list A :=
  match l, i with
  | [], _ => []
  | _ :: r, O => x :: r
  | y :: r, S j => y :: list_set r j x
  end.

(* ================================================================== *)
(** * Outcomes *)
(* ================================================================== *)

(** [ExoError]: the fields of the exception, and the text that
    [format_error] built when it was raised. *)
Record exo_error : Type := mkerr {
  err_msg : pystr;
  err_line : option nat;
  err_file : option pystr;
  err_context : option pystr;
  err_text : pystr
}.

(** The host exceptions that the modelled operations raise. *)
Inductive exc_kind : Type :=
| KeyError | IndexError | TypeError | ValueError
| ZeroDivisionError | OverflowError | RuntimeError.

(** How a call ends.  [Host k m] is a Python exception other than
    [ExoError], with [str(e)] when that text is modelled. *)
Inductive outcome (A : Type) : Type :=
| Ok (a : A)
| Exo (e : exo_error)
| Host (k : exc_kind) (m : option pystr)
| Unmodelled
| OutOfFuel.
Arguments Exo {A} e.
Arguments Host {A} k m.
Arguments Unmodelled {A}.
Arguments OutOfFuel {A}.

(** A computation reads and updates the globals; an exception keeps
    the updates made before it was raised. *)
Definition M (A : Type) : Type := state -> outcome A * state.

Definition ret (A : Type) (a : A) : M A := fun st => (Ok a, st).

Definition bind (A B : Type) (m : M A) (k : A -> M B) : M B :=
  fun st =>
    match m st with
    | (Ok a, st') => k a st'
    | (Exo e, st') => (Exo e, st')
    | (Host h t, st') => (Host h t, st')
    | (Unmodelled, st') => (Unmodelled, st')
    | (OutOfFuel, st') => (OutOfFuel, st')
    end.

Declare Scope exo_scope.
Delimit Scope exo_scope with exo.
Notation "x <- m ;; k" := (bind m (fun x => k))
  (at level 61, m at next level, right associativity) : exo_scope.
Notation "m ;;; k" := (bind m (fun _ => k))
  (at level 61, right associativity) : exo_scope.
Local Open Scope exo_scope.

Definition get_state : M state := fun st => (Ok st, st).
Definition modify (f : state -> state) : M unit := fun st => (Ok tt, f st).
Definition raise_host (A : Type) (k : exc_kind) (m : option pystr) : M A :=
  fun st => (Host k m, st).
Definition unmodelled (A : Type) : M A := fun st => (Unmodelled, st).
Definition out_of_fuel (A : Type) : M A := fun st => (OutOfFuel, st).

(** [try: m finally: f]. *)
Definition finally (A : Type) (m : M A) (f : state -> state) : M A :=
  fun st => let (r, st') := m st in (r, f st').

(** [list(reversed(call_stack[-5:]))]. *)
Definition last_frames (cs : list pystr) : list pystr :=
  rev (skipn (List.length cs - 5) cs).

Fixpoint number_frames (i : nat) (l : list pystr) : pystr :=
  match l with
  | [] => []
  | f :: r => U "   " ++ of_nat i ++ U ". " ++ f ++ number_frames (S i) r
  end.

(** [ExoError.format_error]. *)
Definition format_error (msg : pystr) (line : option nat) (file context : option pystr)
    (cs : list pystr) : pystr :=
  U "❌ EXO Error"
  ++ match file with
     | Some f => match f with [] => [] | _ => U "
📁 File: " ++ f end
     | None => []
     end
  ++ match line with
     | Some (S n) => U "
📍 Line: " ++ of_nat (S n)
     | _ => []
     end
  ++ U "
💬 " ++ msg
  ++ match context with
     | Some c => match c with
                 | [] => []
                 | _ => U "

📝 Context:" ++ U "   " ++ c
                 end
     | None => []
     end
  ++ match cs with
     | [] => []
     | _ => U "

📚 Call Stack:" ++ number_frames 1 (last_frames cs)
     end.

(** [error(msg, line, file, context)]. *)
Definition error (A : Type) (msg : pystr) (line : option nat) (file context : option pystr)
    : M A :=
  fun st =>
    (Exo (mkerr msg line file context (format_error msg line file context (call_stack st))),
     st).

(* ================================================================== *)
(** * Python operations on values *)
(* ================================================================== *)

Module Py.
Local Open Scope Z_scope.

(** [type(v).__name__]. *)
Definition type_name (v : value) : pystr :=
  match v with
  | VNone => U "NoneType"
  | VBool _ => U "bool"
  | VInt _ => U "int"
  | VFloat _ => U "float"
  | VStr _ => U "str"
  | VList _ => U "list"
  | VDict _ => U "dict"
  end.

(** The host converts between ints and decimal text only up to
    4300 digits ([sys.int_info.default_max_str_digits]; [main.py]
    never changes the limit): [str] of a longer int and [int] of a
    longer text raise [ValueError]. *)
Definition max_str_digits : nat := 4300.

(** An int of more than 4300 digits: one that is at least
    [10 ^ 4300] in absolute value.  As [2 ^ 14284 < 10 ^ 4300], an
    int of fewer than 14285 binary digits is below; the first test
    spares the power for those. *)
Definition int_too_long (z : Z) : bool :=
  if 14284 <=? Z.log2 (Z.abs z) then 10 ^ 4300 <=? Z.abs z else false.

(** [str(v)], when it gives a text that is modelled: the text of
    floats, lists and dicts is not, and an int beyond the limit has
    none. *)
Definition str (v : value) : option pystr :=
  match v with
  | VNone => Some (U "None")
  | VBool true => Some (U "True")
  | VBool false => Some (U "False")
  | VInt z => if int_too_long z then None else Some (of_Z z)
  | VStr s => Some s
  | _ => None
  end.

(** Whether [str(v)] raises [ValueError]. *)
Definition str_raises (v : value) : bool :=
  match v with
  | VInt z => int_too_long z
  | _ => false
  end.

(** [str(v)] as a step of a computation; the text of the
    [ValueError] is not modelled. *)
Definition str_m (v : value) : M pystr :=
  match str v with
  | Some t => ret t
  | None => if str_raises v then raise_host pystr ValueError None else unmodelled pystr
  end.

(** [bool(v)]. *)
Definition truthy (h : list obj) (v : value) : bool :=
  match v with
  | VNone => false
  | VBool b => b
  | VInt z => negb (z =? 0)
  | VFloat f => negb (PyFloat.is_zero f)
  | VStr s => match s with [] => false | _ => true end
  | VList l => match nth_error h l with Some (OList []) => false | _ => true end
  | VDict l => match nth_error h l with Some (ODict []) => false | _ => true end
  end.

(** The numeric tower: [bool] is a subclass of [int]. *)
Inductive num : Type :=
| NInt (z : Z)
| NFloat (f : PyFloat.float).

Definition as_num (v : value) : option num :=
  match v with
  | VBool b => Some (NInt (if b then 1 else 0))
  | VInt z => Some (NInt z)
  | VFloat f => Some (NFloat f)
  | _ => None
  end.

Definition num_compare (a b : num) : comparison :=
  match a, b with
  | NInt x, NInt y => x ?= y
  | NInt x, NFloat g => (x * PyFloat.den_of g ?= PyFloat.num_of g)
  | NFloat f, NInt y => (PyFloat.num_of f ?= y * PyFloat.den_of f)
  | NFloat f, NFloat g => PyFloat.compare f g
  end.

Fixpoint str_compare (a b : pystr) : comparison :=
  match a, b with
  | [], [] => Eq
  | [], _ :: _ => Lt
  | _ :: _, [] => Gt
  | x :: a', y :: b' =>
    match (x ?= y)%N with
    | Eq => str_compare a' b'
    | c => c
    end
  end.

(** [a == b].  [None] for two lists or two dicts, whose element-wise
    comparison is not modelled. *)
Definition eq (a b : value) : option bool :=
  match as_num a, as_num b with
  | Some x, Some y => Some (match num_compare x y with Eq => true | _ => false end)
  | _, _ =>
    match a, b with
    | VNone, VNone => Some true
    | VStr s, VStr t => Some (str_eqb s t)
    | VList _, VList _ => None
    | VDict _, VDict _ => None
    | _, _ => Some false
    end
  end.

(** The order of two values, for [<], [<=], [>], [>=]; [None] where
    Python raises [TypeError] or compares containers. *)
Definition order (a b : value) : option comparison :=
  match as_num a, as_num b with
  | Some x, Some y => Some (num_compare x y)
  | _, _ =>
    match a, b with
    | VStr s, VStr t => Some (str_compare s t)
    | _, _ => None
    end
  end.

Definition alloc (o : obj) : M loc :=
  fun st => (Ok (List.length (heap st)), set_heap (heap st ++ [o]) st).

Definition ret_float (r : option PyFloat.float) : M value :=
  match r with
  | Some f => ret (VFloat f)
  | None => unmodelled value
  end.

(** [float(n)] inside mixed arithmetic. *)
Definition to_float (x : num) : M PyFloat.float :=
  match x with
  | NFloat f => ret f
  | NInt z =>
    match PyFloat.of_int z with
    | Some f => ret f
    | None => raise_host PyFloat.float OverflowError
                         (Some (U "int too large to convert to float"))
    end
  end.

Definition arith (iop : Z -> Z -> Z)
    (fop : PyFloat.float -> PyFloat.float -> option PyFloat.float) (x y : num) : M value :=
  match x, y with
  | NInt a, NInt b => ret (VInt (iop a b))
  | _, _ => (f <- to_float x ;; g <- to_float y ;; ret_float (fop f g))%exo
  end.

(** [a + b]. *)
Definition add (a b : value) : M value :=
  match as_num a, as_num b with
  | Some x, Some y => arith Z.add PyFloat.add x y
  | _, _ =>
    match a, b with
    | VStr s, VStr t => ret (VStr (s ++ t))
    | VList l, VList k =>
      (fun st =>
         match nth_error (heap st) l, nth_error (heap st) k with
         | Some (OList xs), Some (OList ys) =>
           (l' <- alloc (OList (xs ++ ys)) ;; ret (VList l'))%exo st
         | _, _ => (Unmodelled, st)
         end)
    | _, _ => unmodelled value
    end
  end.

(** [a - b]. *)
Definition sub (a b : value) : M value :=
  match as_num a, as_num b with
  | Some x, Some y => arith Z.sub PyFloat.sub x y
  | _, _ => unmodelled value
  end.

(** [a * b]. *)
Definition mul (a b : value) : M value :=
  match as_num a, as_num b with
  | Some x, Some y => arith Z.mul PyFloat.mul x y
  | _, _ => unmodelled value
  end.

(** [a / b]: true division, a float even for two ints. *)
Definition truediv (a b : value) : M value :=
  match as_num a, as_num b with
  | Some (NInt x), Some (NInt y) =>
    if y =? 0 then raise_host value ZeroDivisionError (Some (U "division by zero"))
    else match PyFloat.round64 (Z.sgn y * x) (Z.abs y) with
         | Some f => ret (VFloat f)
         | None => raise_host value OverflowError
                              (Some (U "integer division result too large for a float"))
         end
  | Some x, Some y =>
    (f <- to_float x ;; g <- to_float y ;;
     if PyFloat.is_zero g
     then raise_host value ZeroDivisionError (Some (U "float division by zero"))
     else ret_float (PyFloat.div f g))%exo
  | _, _ => unmodelled value
  end.

(** [s % v] on text is printf-style formatting.  Modelled: a format
    without any [%], and the formats ["%d"] and ["%s"], applied to
    None, a bool, an int or a string. *)
Definition format (s : pystr) (v : value) : M value :=
  match v with
  | VFloat _ | VList _ | VDict _ => unmodelled value
  | _ =>
    if negb (contains (U "%") s)
    then raise_host value TypeError
                    (Some (U "not all arguments converted during string formatting"))
    else if str_eqb s (U "%s")
    then (t <- str_m v ;; ret (VStr t))%exo
    else if str_eqb s (U "%d")
    then match v with
         | VInt z => (t <- str_m v ;; ret (VStr t))%exo
         | VBool b => ret (VStr (of_Z (if b then 1 else 0)))
         | _ => unmodelled value
         end
    else unmodelled value
  end.

(** [a % b]. *)
Definition mod_ (a b : value) : M value :=
  match as_num a, as_num b with
  | Some (NInt x), Some (NInt y) =>
    if y =? 0 then raise_host value ZeroDivisionError (Some (U "integer modulo by zero"))
    else ret (VInt (x mod y))
  | Some x, Some y =>
    (f <- to_float x ;; g <- to_float y ;;
     if PyFloat.is_zero g
     then raise_host value ZeroDivisionError (Some (U "float modulo"))
     else unmodelled value)%exo
  | _, _ =>
    match a with
    | VStr s => format s b
    | _ => unmodelled value
    end
  end.

(** [a ** b], for an int raised to a non-negative int. *)
Definition pow (a b : value) : M value :=
  match as_num a, as_num b with
  | Some (NInt x), Some (NInt y) =>
    if 0 <=? y then ret (VInt (x ^ y)) else unmodelled value
  | _, _ => unmodelled value
  end.

(** ** Number literals *)

Inductive parsed (A : Type) : Type :=
| PVal (a : A)
| PInvalid
| PUnknown.
Arguments PInvalid {A}.
Arguments PUnknown {A}.

Fixpoint span_digits (s : pystr) : pystr * pystr :=
  match s with
  | [] => ([], [])
  | c :: r =>
    if is_ascii_digit c || (c =? 95)%N
    then let (d, t) := span_digits r in (c :: d, t)
    else ([], s)
  end.

(** A digit part: digits, with single underscores between digits. *)
Fixpoint digitpart_ok (d : pystr) (after_digit : bool) : bool :=
  match d with
  | [] => after_digit
  | c :: r =>
    if (c =? 95)%N then after_digit && digitpart_ok r false
    else digitpart_ok r true
  end.

Definition digits_value (d : pystr) : Z :=
  fold_left (fun acc c => if (c =? 95)%N then acc else acc * 10 + (Z.of_N c - 48)) d 0.

Definition count_digits (d : pystr) : Z :=
  Z.of_nat (List.length (filter is_ascii_digit d)).

Definition strip_sign (s : pystr) : Z * pystr :=
  match s with
  | 43%N :: r => (1, r)
  | 45%N :: r => (-1, r)
  | _ => (1, s)
  end.

(** Beyond ASCII only the Arabic letters are classified; other code
    points may be digits of another script. *)
Definition unknown_script (s : pystr) : bool :=
  existsb (fun c => (128 <=? c)%N && negb (is_arabic_letter c)) s.

(** [int(s)] for text without surrounding blanks; [PInvalid] is its
    [ValueError], raised for text that is no int literal and for one
    of more than 4300 digits. *)
Definition parse_int (s : pystr) : parsed Z :=
  if unknown_script s then PUnknown
  else
    let (sg, r) := strip_sign s in
    let (d, t) := span_digits r in
    match t with
    | [] =>
      if digitpart_ok d false && (List.length (filter is_ascii_digit d) <=? max_str_digits)%nat
      then PVal (sg * digits_value d)
      else PInvalid
    | _ => PInvalid
    end.

Definition parse_exponent (t : pystr) : option Z :=
  match t with
  | [] => Some 0
  | c :: r =>
    if (c =? 101)%N || (c =? 69)%N
    then let (sg, r') := strip_sign r in
         let (d, t') := span_digits r' in
         match t' with
         | [] => if digitpart_ok d false then Some (sg * digits_value d) else None
         | _ => None
         end
    else None
  end.

(** [float(s)] for text without surrounding blanks: decimal notation
    with an optional exponent.  The spellings of infinity and NaN
    hold no ["."] and never reach the interpreter's [float] calls. *)
Definition parse_float (s : pystr) : parsed PyFloat.float :=
  if unknown_script s then PUnknown
  else
    let (sg, r) := strip_sign s in
    let (ip, t) := span_digits r in
    let '(fp, t') := match t with
                     | 46%N :: u => span_digits u
                     | _ => ([], t)
                     end in
    let int_ok := match ip with [] => true | _ => digitpart_ok ip false end in
    let frac_ok := match fp with [] => true | _ => digitpart_ok fp false end in
    let some := match ip, fp with [], [] => false | _, _ => true end in
    if int_ok && frac_ok && some
    then match parse_exponent t' with
         | Some ex =>
           let mant := digits_value (ip ++ fp) in
           let sh := ex - count_digits fp in
           match PyFloat.round64 (sg * mant * 10 ^ Z.max 0 sh) (10 ^ Z.max 0 (- sh)) with
           | Some f => PVal f
           | None => PUnknown
           end
         | None => PInvalid
         end
    else PInvalid.

End Py.

(* ================================================================== *)
(** * class Scope *)
(* ================================================================== *)

Module Scope.

(** A [Scope] is created after its parent, so the parent's index in
    the store is the smaller one.  The walks below follow only such
    links; [S s] steps are then enough from scope [s]. *)
Definition parent_of (ss : list scope) (s : loc) : option loc :=
  match nth_error ss s with
  | Some sc =>
    match sc_parent sc with
    | Some p => if p <? s then Some p else None
    | None => None
    end
  | None => None
  end.

Definition vars_of (ss : list scope) (s : loc) : list (pystr * value) :=
  match nth_error ss s with
  | Some sc => sc_vars sc
  | None => []
  end.

Fixpoint get_from (fuel : nat) (ss : list scope) (s : loc) (name : pystr) : option value :=
  match fuel with
  | O => None
  | S f =>
    match sd_get name (vars_of ss s) with
    | Some v => Some v
    | None =>
      match parent_of ss s with
      | Some p => get_from f ss p name
      | None => None
      end
    end
  end.

Fixpoint exists_from (fuel : nat) (ss : list scope) (s : loc) (name : pystr) : bool :=
  match fuel with
  | O => false
  | S f =>
    if sd_mem name (vars_of ss s) then true
    else match parent_of ss s with
         | Some p => exists_from f ss p name
         | None => false
         end
  end.

Fixpoint all_names_from (fuel : nat) (ss : list scope) (s : loc) : list pystr :=
  match fuel with
  | O => []
  | S f =>
    map fst (vars_of ss s)
    ++ match parent_of ss s with
       | Some p => all_names_from f ss p
       | None => []
       end
  end.

(** The loop of [Scope.set]: the nearest scope of the chain whose own
    [vars] holds [name]. *)
Fixpoint owner_from (fuel : nat) (ss : list scope) (s : loc) (name : pystr) : option loc :=
  match fuel with
  | O => None
  | S f =>
    if sd_mem name (vars_of ss s) then Some s
    else match parent_of ss s with
         | Some p => owner_from f ss p name
         | None => None
         end
  end.

(** [scope.vars[name] = value]. *)
Definition write (ss : list scope) (s : loc) (name : pystr) (v : value) : list scope :=
  match nth_error ss s with
  | Some sc => list_set ss s (mkscope (sc_parent sc) (sc_name sc) (sd_set name v (sc_vars sc)))
  | None => ss
  end.

(** [Scope.get_all_names]. *)
Definition get_all_names (ss : list scope) (s : loc) : list pystr :=
  all_names_from (S s) ss s.

(** [Scope.exists]. *)
Definition exists_ (ss : list scope) (s : loc) (name : pystr) : bool :=
  exists_from (S s) ss s name.

(** [Scope.set(name, value, local)]. *)
Definition set (ss : list scope) (s : loc) (name : pystr) (v : value) (local : bool)
    : list scope :=
  if local || negb (str_in name (get_all_names ss s))
  then write ss s name v
  else match owner_from (S s) ss s name with
       | Some o => write ss o name v
       | None => write ss s name v
       end.

(** The text [repr(s)] of a string that holds an apostrophe, when it
    needs no escapes. *)
Definition repr_with_apostrophe (s : pystr) : option pystr :=
  if forallb (fun c => ((32 <=? c) && (c <=? 126) && negb (c =? 92) && negb (c =? 34))%N
                       || is_arabic_letter c) s
  then Some (34%N :: s ++ [34%N])
  else None.

(** [Scope.get]: raises [KeyError]. *)
Definition get (s : loc) (name : pystr) : M value :=
  fun st =>
    match get_from (S s) (scopes st) s name with
    | Some v => (Ok v, st)
    | None =>
      (Host KeyError
            (repr_with_apostrophe (U "Variable '" ++ name ++ U "' not defined")), st)
    end.

(** [Scope(parent=p, name=n)]. *)
Definition new (p : option loc) (n : pystr) : M loc :=
  fun st =>
    (Ok (List.length (scopes st)), set_scopes (scopes st ++ [mkscope p n []]) st).

End Scope.

(* ================================================================== *)
(** * Lists and dicts *)
(* ================================================================== *)

Module Obj.
Local Open Scope Z_scope.

Definition hashable (v : value) : bool :=
  match v with
  | VList _ | VDict _ => false
  | _ => true
  end.

Definition key_eqb (a b : value) : bool :=
  match Py.eq a b with
  | Some true => true
  | _ => false
  end.

Fixpoint dict_get (k : value) (d : list (value * value)) : option value :=
  match d with
  | [] => None
  | (k', v) :: r => if key_eqb k k' then Some v else dict_get k r
  end.

Fixpoint dict_set (k v : value) (d : list (value * value)) : list (value * value) :=
  match d with
  | [] => [(k, v)]
  | (k', v') :: r => if key_eqb k k' then (k', v) :: r else (k', v') :: dict_set k v r
  end.

Definition unhashable (A : Type) (k : value) : M A :=
  raise_host A TypeError (Some (U "unhashable type: '" ++ Py.type_name k ++ U "'")).

(** An int used as an index: a bool counts as an int. *)
Definition as_index (v : value) : option Z :=
  match v with
  | VInt z => Some z
  | VBool b => Some (if b then 1 else 0)
  | _ => None
  end.

(** The position an index denotes in a sequence of [n] items. *)
Definition position (n : nat) (z : Z) : option nat :=
  let z' := if z <? 0 then z + Z.of_nat n else z in
  if (0 <=? z') && (z' <? Z.of_nat n) then Some (Z.to_nat z') else None.

(** [var[idx]]. *)
Definition getitem (var idx : value) : M value :=
  fun st =>
    match var with
    | VList l =>
      match nth_error (heap st) l, as_index idx with
      | Some (OList xs), Some z =>
        match position (List.length xs) z with
        | Some i => match nth_error xs i with
                    | Some v => (Ok v, st)
                    | None => (Unmodelled, st)
                    end
        | None => (Host IndexError (Some (U "list index out of range")), st)
        end
      | Some (OList _), None =>
        (Host TypeError (Some (U "list indices must be integers or slices, not "
                               ++ Py.type_name idx)), st)
      | _, _ => (Unmodelled, st)
      end
    | VDict l =>
      match nth_error (heap st) l with
      | Some (ODict d) =>
        if hashable idx
        then match dict_get idx d with
             | Some v => (Ok v, st)
             | None => (Host KeyError None, st)
             end
        else unhashable value idx st
      | _ => (Unmodelled, st)
      end
    | VStr s =>
      match as_index idx with
      | Some z =>
        match position (List.length s) z with
        | Some i => match nth_error s i with
                    | Some c => (Ok (VStr [c]), st)
                    | None => (Unmodelled, st)
                    end
        | None => (Host IndexError (Some (U "string index out of range")), st)
        end
      | None => (Host TypeError None, st)
      end
    | _ =>
      (Host TypeError (Some (U "'" ++ Py.type_name var ++ U "' object is not subscriptable")),
       st)
    end.

(** [var[idx] = v]. *)
Definition setitem (var idx v : value) : M unit :=
  fun st =>
    match var with
    | VList l =>
      match nth_error (heap st) l, as_index idx with
      | Some (OList xs), Some z =>
        match position (List.length xs) z with
        | Some i => (Ok tt, set_heap (list_set (heap st) l (OList (list_set xs i v))) st)
        | None => (Host IndexError (Some (U "list assignment index out of range")), st)
        end
      | Some (OList _), None =>
        (Host TypeError (Some (U "list indices must be integers or slices, not "
                               ++ Py.type_name idx)), st)
      | _, _ => (Unmodelled, st)
      end
    | VDict l =>
      match nth_error (heap st) l with
      | Some (ODict d) =>
        if hashable idx
        then (Ok tt, set_heap (list_set (heap st) l (ODict (dict_set idx v d))) st)
        else unhashable unit idx st
      | _ => (Unmodelled, st)
      end
    | _ =>
      (Host TypeError (Some (U "'" ++ Py.type_name var
                             ++ U "' object does not support item assignment")), st)
    end.

(** [int(v)]. *)
Definition to_int (v : value) : M Z :=
  match v with
  | VInt z => ret z
  | VBool b => ret (if b then 1 else 0)
  | VFloat f => ret (PyFloat.trunc f)
  | VStr s =>
    match Py.parse_int (strip s) with
    | Py.PVal z => ret z
    | Py.PInvalid => raise_host Z ValueError None
    | Py.PUnknown => unmodelled Z
    end
  | _ => raise_host Z TypeError None
  end.

Fixpoint count_up (n : nat) (a step : Z) : list value :=
  match n with
  | O => []
  | S k => VInt a :: count_up k (a + step) step
  end.

(** [list(range(a, b, step))] for a step that is not zero. *)
Definition range_items (a b step : Z) : list value :=
  let n := if 0 <? step then (b - a + step - 1) / step
           else (a - b - step - 1) / (- step) in
  count_up (Z.to_nat n) a step.

End Obj.

(* ================================================================== *)
(** * os.path on a POSIX host *)
(* ================================================================== *)

Module OsPath.

Definition slash : pystr := [47%N].

Definition isabs (p : pystr) : bool := startswith p slash.

Definition join (a b : pystr) : pystr :=
  if startswith b slash then b
  else match a with
       | [] => b
       | _ => if endswith a slash then a ++ b else a ++ slash ++ b
       end.

Fixpoint norm_comps (comps : list pystr) (rooted : bool) (acc : list pystr) : list pystr :=
  match comps with
  | [] => rev acc
  | c :: r =>
    if str_eqb c [] || str_eqb c (U ".") then norm_comps r rooted acc
    else if negb (str_eqb c (U ".."))
            || (negb rooted && match acc with [] => true | _ => false end)
            || match acc with a :: _ => str_eqb a (U "..") | [] => false end
    then norm_comps r rooted (c :: acc)
    else match acc with
         | _ :: acc' => norm_comps r rooted acc'
         | [] => norm_comps r rooted acc
         end
  end.

Definition normpath (path : pystr) : pystr :=
  match path with
  | [] => U "."
  | _ =>
    let initial := if startswith path slash
                   then if startswith path (U "//") && negb (startswith path (U "///"))
                        then U "//" else slash
                   else [] in
    let rooted := match initial with [] => false | _ => true end in
    let p := initial ++ PyStr.join slash (norm_comps (split path slash) rooted []) in
    match p with [] => U "." | _ => p end
  end.

Definition abspath (dir path : pystr) : pystr :=
  normpath (if isabs path then path else join dir path).

Fixpoint rstrip_slash (r : pystr) : pystr :=
  match r with
  | 47%N :: t => rstrip_slash t
  | _ => r
  end.

Definition dirname (p : pystr) : pystr :=
  let head := slice p 0 (rfind p 47%N + 1) in
  if forallb (fun c => (c =? 47)%N) head then head
  else rev (rstrip_slash (rev head)).

(** [open(path).read()], when the file exists. *)
Definition read (h : host_env) (path : pystr) : option pystr :=
  sd_get (abspath (cwd h) path) (files h).

(** [os.path.exists(path)]. *)
Definition exists_ (h : host_env) (path : pystr) : bool :=
  match read h path with Some _ => true | None => false end.

End OsPath.

(* ================================================================== *)
(** * Expression parsing *)
(* ================================================================== *)

Definition quote2 : N := 34%N.
Definition quote1 : N := 39%N.
Definition backslash : N := 92%N.
Definition is_quote (c : N) : bool := (c =? quote2)%N || (c =? quote1)%N.
Definition is_open (c : N) : bool := (c =? 40)%N || (c =? 91)%N || (c =? 123)%N.
Definition is_close (c : N) : bool := (c =? 41)%N || (c =? 93)%N || (c =? 125)%N.

Definition opt_eqb (a : option N) (c : N) : bool :=
  match a with
  | Some x => (x =? c)%N
  | None => false
  end.

Definition bump (depth : Z) (c : N) : Z :=
  if is_open c then (depth + 1)%Z
  else if is_close c then (depth - 1)%Z
  else depth.

(** [if current.strip(): parts.append(current.strip())]; both lists
    are kept in reverse. *)
Definition push_part (cur : pystr) (parts : list pystr) : list pystr :=
  match strip (rev cur) with
  | [] => parts
  | t => t :: parts
  end.

(** The scanning loop of [split_by_op].  [skip] counts the characters
    of a matched operator that [i += len(op)] jumps over; [prev] is
    [expr[i-1]]. *)
Fixpoint split_scan (op s : pystr) (skip : nat) (prev : option N) (depth : Z)
    (in_string : bool) (string_char : option N) (cur : pystr) (parts : list pystr)
    : list pystr :=
  match s with
  | [] => rev (push_part cur parts)
  | c :: r =>
    match skip with
    | S k => split_scan op r k (Some c) depth in_string string_char cur parts
    | O =>
      if is_quote c && negb (opt_eqb prev backslash)
      then
        if negb in_string
        then split_scan op r 0 (Some c) depth true (Some c) (c :: cur) parts
        else if opt_eqb string_char c
        then split_scan op r 0 (Some c) depth false string_char (c :: cur) parts
        else split_scan op r 0 (Some c) depth in_string string_char (c :: cur) parts
      else if in_string
      then split_scan op r 0 (Some c) depth in_string string_char (c :: cur) parts
      else
        let depth' := bump depth c in
        if (depth' =? 0)%Z && startswith s op
        then split_scan op r (List.length op - 1) (Some c) depth' in_string string_char
                        [] (push_part cur parts)
        else split_scan op r 0 (Some c) depth' in_string string_char (c :: cur) parts
    end
  end.

(** [split_by_op(expr, op)]. *)
Definition split_by_op (expr op : pystr) : list pystr :=
  let parts := split_scan op expr 0 None 0%Z false None [] [] in
  if 1 <? List.length parts then parts else [expr].

(** The comma-splitting loop shared by list literals, map literals and
    [parse_args]: it walks [inner + ','] and cuts at commas outside
    strings and brackets.  The source evaluates each piece as soon as
    it is cut; cutting is independent of evaluation, so the pieces are
    returned here and evaluated in the same order by the caller. *)
Fixpoint comma_scan (s : pystr) (depth : Z) (in_string : bool) (string_char : option N)
    (cur : pystr) (items : list pystr) : list pystr :=
  match s with
  | [] => rev items
  | c :: r =>
    let toggles := is_quote c
                   && match cur with [] => true | l :: _ => negb (l =? backslash)%N end in
    let in_string' :=
      if toggles
      then if negb in_string then true
           else if opt_eqb string_char c then false else in_string
      else in_string in
    let string_char' :=
      if toggles && negb in_string then Some c else string_char in
    if in_string'
    then comma_scan r depth in_string' string_char' (c :: cur) items
    else
      let depth' := bump depth c in
      if (c =? 44)%N && (depth' =? 0)%Z
      then comma_scan r depth' in_string' string_char' [] (push_part cur items)
      else comma_scan r depth' in_string' string_char' (c :: cur) items
  end.

Definition split_commas (inner : pystr) : list pystr :=
  comma_scan (inner ++ [44%N]) 0%Z false None [] [].

(** [parse_string]. *)
Definition parse_string (s : pystr) : pystr :=
  let s1 := replace s [backslash; 110%N] [10%N] in
  let s2 := replace s1 [backslash; 116%N] [9%N] in
  let s3 := replace s2 [backslash; 114%N] [13%N] in
  let s4 := replace s3 [backslash; quote2] [quote2] in
  let s5 := replace s4 [backslash; quote1] [quote1] in
  replace s5 [backslash; backslash] [backslash].

(** [is_number]: does [float(s)] succeed?  [float] strips blanks
    itself. *)
Definition is_number (s : pystr) : option bool :=
  match Py.parse_float (strip s) with
  | Py.PVal _ => Some true
  | Py.PInvalid => Some false
  | Py.PUnknown => None
  end.

(** The loop that removes parentheses wrapping the whole expression. *)
Fixpoint paren_valid (s : pystr) (depth : Z) : bool :=
  match s with
  | [] => true
  | c :: r =>
    let d := if (c =? 40)%N then (depth + 1)%Z
             else if (c =? 41)%N then (depth - 1)%Z else depth in
    if (d =? 0)%Z && match r with [] => false | _ => true end
    then false
    else paren_valid r d
  end.

Fixpoint strip_parens (fuel : nat) (expr : pystr) : pystr :=
  match fuel with
  | O => expr
  | S f =>
    if startswith expr [40%N] && endswith expr [41%N] && paren_valid expr 0%Z
    then strip_parens f (strip (slice expr 1 (-1)))
    else expr
  end.

(** What [eval_arith] does to its argument before looking for
    operators: blanks and wrapping parentheses go. *)
Definition unwrap (expr : pystr) : pystr :=
  strip_parens (S (List.length (strip expr))) (strip expr).

(** The first separator of a level that splits the expression. *)
Fixpoint first_split (expr : pystr) (seps : list pystr) : option (list pystr) :=
  match seps with
  | [] => None
  | sep :: r =>
    let parts := split_by_op expr sep in
    if 1 <? List.length parts then Some parts else first_split expr r
  end.

(** As [first_split], also telling which operator matched. *)
Fixpoint first_split_op (expr : pystr) (ops : list pystr) : option (pystr * list pystr) :=
  match ops with
  | [] => None
  | op :: r =>
    let parts := split_by_op expr op in
    if 1 <? List.length parts then Some (op, parts) else first_split_op expr r
  end.

(** The comparison level wants exactly two operands. *)
Fixpoint first_compare (expr : pystr) (ops : list pystr) : option (pystr * pystr * pystr) :=
  match ops with
  | [] => None
  | op :: r =>
    match split_by_op expr op with
    | [a; b] => Some (op, a, b)
    | _ => first_compare expr r
    end
  end.

Definition or_seps : list pystr := [U " or "; U " او "; U " || "].
Definition and_seps : list pystr := [U " and "; U " و "; U " && "].
Definition compare_ops : list pystr := [U "=="; U "!="; U ">="; U "<="; U ">"; U "<"].
Definition additive_ops : list pystr := [U "+"; U "-"].
Definition multiplicative_ops : list pystr := [U "*"; U "/"; U "%"].

(** [get_builtin_functions]. *)
Definition get_builtin_functions : list pystr :=
  [U "print"; U "اطبع"; U "input"; U "ادخال"; U "len"; U "طول"; U "type"; U "نوع";
   U "str"; U "نص"; U "int"; U "صحيح"; U "float"; U "عشري"; U "sqrt"; U "جذر";
   U "pow"; U "أس"; U "random"; U "عشوائي"; U "range"; U "نطاق"; U "push"; U "اضف";
   U "pop"; U "احذف"; U "readFile"; U "اقرأملف"; U "writeFile"; U "اكتبملف";
   U "fileExists"; U "ملفموجود"; U "deleteFile"; U "احذفملف"; U "sleep"; U "انتظر";
   U "json"; U "جيسون"; U "parseJson"; U "حللجيسون"; U "html"; U "import"; U "استورد";
   U "export"; U "صدر"; U "keys"; U "مفاتيح"; U "values"; U "قيم"; U "abs"; U "مطلق";
   U "round"; U "تقريب"; U "floor"; U "أرضية"; U "ceil"; U "سقف"; U "max"; U "أكبر";
   U "min"; U "أصغر"; U "sum"; U "مجموع"; U "join"; U "ضم"; U "split"; U "تقسيم"].

(* ================================================================== *)
(** * The evaluator *)
(* ================================================================== *)

(** What a [for] loop walks over. *)
Inductive iterator : Type :=
| IterList (l : loc) (pos : nat)
| IterStr (rest : pystr)
| IterDict (l : loc) (size : nat) (pos : nat).

(** The functions of [main.py] call one another recursively.  Each is
    written against a record of the recursive entry points; [knot]
    below closes the recursion with fuel. *)
Record callbacks : Type := mkcallbacks {
  r_eval_arith : pystr -> option nat -> option pystr -> M value;
  r_evaluate : pystr -> option nat -> option pystr -> M value;
  r_run : list pystr -> option pystr -> M value;
  r_while : pystr -> list pystr -> nat -> pystr -> option pystr -> M (option value);
  r_for : iterator -> pystr -> list pystr -> nat -> pystr -> option pystr
          -> M (option value)
}.

(** [if file:] *)
Definition file_given (file : option pystr) : bool :=
  match file with
  | Some (_ :: _) => true
  | _ => false
  end.

Definition truthy_m (v : value) : M bool :=
  fun st => (Ok (Py.truthy (heap st) v), st).

(** [try: m except <kind>: h]. *)
Definition catch (A : Type) (kind : exc_kind -> bool) (m : M A) (h : M A) : M A :=
  fun st =>
    match m st with
    | (Host k t, st') => if kind k then h st' else (Host k t, st')
    | r => r
    end.

Definition is_KeyError (k : exc_kind) : bool :=
  match k with KeyError => true | _ => false end.
Definition is_IndexError (k : exc_kind) : bool :=
  match k with IndexError => true | _ => false end.

(** The text of an expression as [evaluate] hands it to [eval_arith]:
    cut at the first ["#"], then stripped. *)
Definition uncomment (expr : pystr) : pystr := strip (hd [] (split expr (U "#"))).

(** The handler [except Exception as e: error(f"Evaluation error:
    {e}", ln, file, expr)] of [evaluate]. *)
Definition evaluation_error (ln : option nat) (file : option pystr) (expr : pystr)
    (r : outcome value * state) : outcome value * state :=
  match r with
  | (Host k (Some t), st') =>
    error value (U "Evaluation error: " ++ t) ln file (Some expr) st'
  | (Host k None, st') => (Unmodelled, st')
  | _ => r
  end.

Section Evaluator.
Variable host : host_env.
Variable rec : callbacks.

(** [any(eval_arith(p) for p in parts)]: the generator is consumed
    only as far as the first true value. *)
Fixpoint py_any (ev : pystr -> M value) (parts : list pystr) : M value :=
  match parts with
  | [] => ret (VBool false)
  | p :: r =>
    v <- ev p ;;
    b <- truthy_m v ;;
    if b then ret (VBool true) else py_any ev r
  end.

(** [all(eval_arith(p) for p in parts)]. *)
Fixpoint py_all (ev : pystr -> M value) (parts : list pystr) : M value :=
  match parts with
  | [] => ret (VBool true)
  | p :: r =>
    v <- ev p ;;
    b <- truthy_m v ;;
    if b then py_all ev r else ret (VBool false)
  end.

Definition compare_values (op : pystr) (l r : value) : M value :=
  if str_eqb op (U "==")
  then match Py.eq l r with Some b => ret (VBool b) | None => unmodelled value end
  else if str_eqb op (U "!=")
  then match Py.eq l r with Some b => ret (VBool (negb b)) | None => unmodelled value end
  else match Py.order l r with
       | None => unmodelled value
       | Some c =>
         ret (VBool (if str_eqb op (U ">=") then match c with Lt => false | _ => true end
                     else if str_eqb op (U "<=") then match c with Gt => false | _ => true end
                     else if str_eqb op (U ">") then match c with Gt => true | _ => false end
                     else match c with Lt => true | _ => false end))
       end.

Fixpoint additive_loop (ev : pystr -> M value) (op : pystr) (result : value)
    (parts : list pystr) : M value :=
  match parts with
  | [] => ret result
  | p :: r =>
    val <- ev p ;;
    res <- (if str_eqb op (U "+") then Py.add result val else Py.sub result val) ;;
    additive_loop ev op res r
  end.

Fixpoint multiplicative_loop (ev : pystr -> M value) (op : pystr)
    (ln : option nat) (file : option pystr) (expr : pystr) (result : value)
    (parts : list pystr) : M value :=
  match parts with
  | [] => ret result
  | p :: r =>
    val <- ev p ;;
    res <- (if str_eqb op (U "*") then Py.mul result val
            else if str_eqb op (U "/")
            then match Py.eq val (VInt 0) with
                 | Some true => error value (U "Division by zero") ln file (Some expr)
                 | _ => Py.truediv result val
                 end
            else Py.mod_ result val) ;;
    multiplicative_loop ev op ln file expr res r
  end.

(** The exponent loop walks the operands from the right. *)
Fixpoint power_loop (ev : pystr -> M value) (result : value) (parts : list pystr)
    : M value :=
  match parts with
  | [] => ret result
  | p :: r =>
    b <- ev p ;;
    res <- Py.pow b result ;;
    power_loop ev res r
  end.

Fixpoint eval_each (ev : pystr -> M value) (items : list pystr) : M (list value) :=
  match items with
  | [] => ret []
  | p :: r =>
    v <- ev p ;;
    vs <- eval_each ev r ;;
    ret (v :: vs)
  end.

(** The pairs of a map literal; a pair without [":"] is skipped. *)
Fixpoint eval_pairs (ev : pystr -> M value) (pairs : list pystr)
    (acc : list (value * value)) : M (list (value * value)) :=
  match pairs with
  | [] => ret acc
  | item :: r =>
    if negb (contains (U ":") item) then eval_pairs ev r acc
    else
      match split1 item (U ":") with
      | [kp; vp] =>
        key <- ev (strip kp) ;;
        val <- ev (strip vp) ;;
        if Obj.hashable key then eval_pairs ev r (Obj.dict_set key val acc)
        else Obj.unhashable _ key
      | _ => eval_pairs ev r acc
      end
  end.

(** [parse_args]. *)
Definition parse_args (args_str : pystr) (ln : option nat) (file : option pystr)
    : M (list value) :=
  match args_str with
  | [] => ret []
  | _ => eval_each (fun p => r_evaluate rec p ln file) (split_commas args_str)
  end.

(** The name under which [import_module] looks a module up: the
    path with its [.exo] suffix, and the key of [modules]. *)
Definition module_file (module_path : pystr) : pystr :=
  if endswith module_path (U ".exo") then module_path else module_path ++ U ".exo".

Definition module_key (module_path : pystr) (file : option pystr) : pystr :=
  match file with
  | Some f =>
    if file_given file
    then OsPath.join (OsPath.dirname (OsPath.abspath (cwd host) f))
                     (module_file module_path)
    else module_file module_path
  | None => module_file module_path
  end.

(** [import_module]. *)
Definition import_module (module_path : pystr) (ln : option nat) (file : option pystr)
    : M value :=
  let full_path := module_key module_path file in
  let module_path := module_file module_path in
  st0 <- get_state ;;
  match sd_get full_path (modules st0) with
  | Some exports => ret (VDict exports)
  | None =>
    match OsPath.read host full_path with
    | None => error value (U "File '" ++ module_path ++ U "' not found") ln file None
    | Some code =>
      fun st =>
        match (exports <- Py.alloc (ODict []) ;;
               modify (fun st' =>
                         set_modules (sd_set full_path exports (modules st')) st') ;;;
               module_scope <- Scope.new (Some global_scope)
                                         (U "module:" ++ module_path) ;;
               finally (modify (set_current_scope module_scope) ;;;
                        r_run rec (split code [10%N]) (Some full_path))
                       (set_current_scope (current_scope st0)) ;;;
               st1 <- get_state ;;
               match sd_get full_path (modules st1) with
               | Some e => ret (VDict e)
               | None => raise_host value KeyError None
               end) st with
        | (Host k (Some t), st') =>
          error value (U "Failed to load module: " ++ t) ln file None st'
        | (Host k None, st') => (Unmodelled, st')
        | r => r
        end
    end
  end.

Fixpoint frame_args (args : list value) : option (list pystr) :=
  match args with
  | [] => Some []
  | a :: r =>
    match Py.str a, frame_args r with
    | Some t, Some ts => Some (slice t 0 20 :: ts)
    | _, _ => None
    end
  end.

(** The loop that binds parameters: missing arguments are None. *)
Fixpoint bind_params (ss : list scope) (fs : loc) (names : list pystr)
    (args : list value) : list scope :=
  match names with
  | [] => ss
  | n :: r =>
    match args with
    | a :: args' => bind_params (Scope.set ss fs n a true) fs r args'
    | [] => bind_params (Scope.set ss fs n VNone true) fs r []
    end
  end.

(** The branch of [call_function] for user-defined procedures.  The
    text of the frame is made first, and [str] of an argument may
    raise there.  The host's own limit on nested calls is not
    modelled: what is stated about [call_user] is about calls for
    which the host's stack suffices. *)
Definition call_user (name : pystr) (f : func) (args : list value)
    (ln : option nat) (file : option pystr) : M value :=
  match frame_args args with
  | None =>
    if existsb Py.str_raises args then raise_host value ValueError None
    else unmodelled value
  | Some texts =>
    modify (fun st =>
              set_call_stack
                (call_stack st ++ [name ++ U "(" ++ PyStr.join (U ", ") texts ++ U ")"])
                st) ;;;
    st <- get_state ;;
    if MAX_RECURSION_DEPTH <? List.length (call_stack st)
    then error value (U "Recursion depth exceeded (" ++ of_nat MAX_RECURSION_DEPTH ++ U ")")
               ln file None
    else
      finally
        (func_scope <- Scope.new (Some (fn_scope f)) (U "func:" ++ name) ;;
         modify (fun st' =>
                   set_scopes (bind_params (scopes st') func_scope (fn_args f) args) st') ;;;
         old <- get_state ;;
         finally (modify (set_current_scope func_scope) ;;;
                  r_run rec (fn_body f) file)
                 (set_current_scope (current_scope old)))
        (fun st' => set_call_stack (removelast (call_stack st')) st')
  end.

Fixpoint str_each (args : list value) : option (list pystr) :=
  match args with
  | [] => Some []
  | a :: r =>
    match Py.str a, str_each r with
    | Some t, Some ts => Some (t :: ts)
    | _, _ => None
    end
  end.

Definition alloc_list (xs : list value) : M value :=
  l <- Py.alloc (OList xs) ;; ret (VList l).

(** Built-ins that reach into the host beyond this model, or whose
    result is a float. *)
Definition host_builtins : list pystr :=
  [U "input"; U "ادخال"; U "int"; U "صحيح"; U "float"; U "عشري"; U "sqrt"; U "جذر";
   U "pow"; U "أس"; U "abs"; U "مطلق"; U "round"; U "تقريب"; U "floor"; U "أرضية";
   U "ceil"; U "سقف"; U "max"; U "أكبر"; U "min"; U "أصغر"; U "sum"; U "مجموع";
   U "random"; U "عشوائي"; U "join"; U "ضم"; U "split"; U "تقسيم";
   U "readFile"; U "اقرأملف"; U "writeFile"; U "اكتبملف"; U "fileExists"; U "ملفموجود";
   U "deleteFile"; U "احذفملف"; U "sleep"; U "انتظر"; U "json"; U "جيسون";
   U "parseJson"; U "حللجيسون"].

(** [call_function]: the built-ins come first, then the table of
    user procedures. *)
Definition call_function (name args_str : pystr) (ln : option nat) (file : option pystr)
    : M value :=
  args <- parse_args args_str ln file ;;
  if str_in name [U "print"; U "اطبع"] then
    match str_each args with
    | None =>
      if existsb Py.str_raises args then raise_host value ValueError None
      else unmodelled value
    | Some ts =>
      let v := PyStr.join (U " ") ts in
      modify (fun st => set_output (output st ++ [v]) (set_stdout (stdout st ++ [v]) st)) ;;;
      ret VNone
    end
  else if str_in name [U "len"; U "طول"] then
    match args with
    | [] => error value (U "len requires one argument") ln file None
    | a :: _ =>
      fun st =>
        match a with
        | VStr t => (Ok (VInt (Z.of_nat (List.length t))), st)
        | VList l =>
          match nth_error (heap st) l with
          | Some (OList xs) => (Ok (VInt (Z.of_nat (List.length xs))), st)
          | _ => (Unmodelled, st)
          end
        | VDict l =>
          match nth_error (heap st) l with
          | Some (ODict d) => (Ok (VInt (Z.of_nat (List.length d))), st)
          | _ => (Unmodelled, st)
          end
        | _ => error value (U "Value has no length") ln file None st
        end
    end
  else if str_in name [U "type"; U "نوع"] then
    match args with
    | [] => error value (U "type requires one argument") ln file None
    | a :: _ => ret (VStr (Py.type_name a))
    end
  else if str_in name [U "str"; U "نص"] then
    match args with
    | [] => error value (U "str requires one argument") ln file None
    | a :: _ => t <- Py.str_m a ;; ret (VStr t)
    end
  else if str_in name [U "range"; U "نطاق"] then
    match args with
    | [a] => n <- Obj.to_int a ;; alloc_list (Obj.range_items 0 n 1)
    | [a; b] => x <- Obj.to_int a ;; y <- Obj.to_int b ;; alloc_list (Obj.range_items x y 1)
    | [a; b; c] =>
      x <- Obj.to_int a ;; y <- Obj.to_int b ;; z <- Obj.to_int c ;;
      if (z =? 0)%Z
      then raise_host value ValueError (Some (U "range() arg 3 must not be zero"))
      else alloc_list (Obj.range_items x y z)
    | _ => error value (U "range requires 1-3 arguments") ln file None
    end
  else if str_in name [U "push"; U "اضف"] then
    match args with
    | [a; b] =>
      match a with
      | VList l =>
        fun st =>
          match nth_error (heap st) l with
          | Some (OList xs) =>
            (Ok VNone, set_heap (list_set (heap st) l (OList (xs ++ [b]))) st)
          | _ => (Unmodelled, st)
          end
      | _ => error value (U "First argument must be an array") ln file None
      end
    | _ => error value (U "push requires (array, value)") ln file None
    end
  else if str_in name [U "pop"; U "احذف"] then
    match args with
    | VList l :: _ =>
      fun st =>
        match nth_error (heap st) l with
        | Some (OList xs) =>
          match rev xs with
          | [] => error value (U "Array is empty") ln file None st
          | x :: _ => (Ok x, set_heap (list_set (heap st) l (OList (removelast xs))) st)
          end
        | _ => (Unmodelled, st)
        end
    | _ => error value (U "pop requires an array") ln file None
    end
  else if str_in name [U "keys"; U "مفاتيح"] then
    match args with
    | [] => error value (U "keys requires one argument") ln file None
    | VDict l :: _ =>
      fun st =>
        match nth_error (heap st) l with
        | Some (ODict d) => alloc_list (map fst d) st
        | _ => (Unmodelled, st)
        end
    | _ => error value (U "keys requires an object") ln file None
    end
  else if str_in name [U "values"; U "قيم"] then
    match args with
    | [] => error value (U "values requires one argument") ln file None
    | VDict l :: _ =>
      fun st =>
        match nth_error (heap st) l with
        | Some (ODict d) => alloc_list (map snd d) st
        | _ => (Unmodelled, st)
        end
    | _ => error value (U "values requires an object") ln file None
    end
  else if str_eqb name (U "html") then
    match args with
    | [] => error value (U "html requires content") ln file None
    | a :: _ => ret a
    end
  else if str_in name [U "import"; U "استورد"] then
    match args with
    | [] => error value (U "import requires a filename") ln file None
    | VStr path :: _ => import_module path ln file
    | _ => unmodelled value
    end
  else if str_in name [U "export"; U "صدر"] then
    match args with
    | k :: v :: _ =>
      fun st =>
        match file with
        | Some f =>
          if file_given file
          then match sd_get f (modules st) with
               | Some exports => (Obj.setitem (VDict exports) k v ;;; ret VNone) st
               | None => (Ok VNone, st)
               end
          else (Ok VNone, st)
        | None => (Ok VNone, st)
        end
    | _ => error value (U "export requires (name, value)") ln file None
    end
  else if str_in name host_builtins then unmodelled value
  else
    fun st =>
      match sd_get name (functions st) with
      | Some f => call_user name f args ln file st
      | None => error value (U "Function '" ++ name ++ U "' not defined") ln file None st
      end.

(** [eval_base]. *)
Definition eval_base (expr : pystr) (ln : option nat) (file : option pystr) : M value :=
  let expr := strip expr in
  let ev := fun p => r_evaluate rec p ln file in
  let number : M value :=
    match (if contains (U ".") expr
           then match Py.parse_float expr with
                | Py.PVal f => Py.PVal (VFloat f)
                | Py.PInvalid => Py.PInvalid
                | Py.PUnknown => Py.PUnknown
                end
           else match Py.parse_int expr with
                | Py.PVal z => Py.PVal (VInt z)
                | Py.PInvalid => Py.PInvalid
                | Py.PUnknown => Py.PUnknown
                end) with
    | Py.PVal v => ret v
    | Py.PUnknown => unmodelled value
    | Py.PInvalid => error value (U "Invalid expression: " ++ expr) ln file (Some expr)
    end in
  let lookup : M value :=
    fun st =>
      if Scope.exists_ (scopes st) (current_scope st) expr
      then Scope.get (current_scope st) expr st
      else number st in
  let property : M value :=
    match (if contains (U ".") expr
           then match is_number expr with
                | Some b => Some (negb b)
                | None => None
                end
           else Some false) with
    | None => unmodelled value
    | Some false => lookup
    | Some true =>
      match split expr (U ".") with
      | [] => lookup
      | first :: rest =>
        let not_defined :=
          error value (U "Variable '" ++ first ++ U "' not defined") ln file (Some expr) in
        catch is_KeyError
          (fun st =>
             (obj <- Scope.get (current_scope st) first ;;
              (fix walk (obj : value) (parts : list pystr) : M value :=
                 match parts with
                 | [] => ret obj
                 | part :: r =>
                   match obj with
                   | VDict l =>
                     fun st' =>
                       match nth_error (heap st') l with
                       | Some (ODict d) =>
                         match Obj.dict_get (VStr part) d with
                         | Some v => walk v r st'
                         | None =>
                           error value (U "Key '" ++ part ++ U "' not found")
                                 ln file (Some expr) st'
                         end
                       | _ => (Unmodelled, st')
                       end
                   | _ =>
                     error value (U "Cannot access '" ++ part ++ U "' in "
                                  ++ Py.type_name obj) ln file (Some expr)
                   end
                 end) obj rest) st)
          not_defined
      end
    end in
  let indexing : M value :=
    if contains (U "[") expr && contains (U "]") expr
    then
      let bp := find expr (U "[") in
      let vn := strip (slice expr 0 bp) in
      let idx_expr := slice expr (bp + 1) (rfind expr 93%N) in
      catch is_KeyError
        (fun st =>
           (var <- Scope.get (current_scope st) vn ;;
            idx <- ev idx_expr ;;
            catch is_IndexError (Obj.getitem var idx)
                  (t <- Py.str_m idx ;;
                   error value (U "Invalid index: " ++ t) ln file (Some expr))) st)
        (error value (U "Variable '" ++ vn ++ U "' not defined") ln file (Some expr))
    else property in
  let call : M value :=
    if contains (U "(") expr && endswith expr (U ")")
    then
      let pp := find expr (U "(") in
      let fn := strip (slice expr 0 pp) in
      let args_str := strip (slice expr (pp + 1) (-1)) in
      match fn with
      | [] => indexing
      | _ =>
        fun st =>
          if str_in fn get_builtin_functions || sd_mem fn (functions st)
          then call_function fn args_str ln file st
          else match isidentifier fn with
               | Some true => call_function fn args_str ln file st
               | Some false => indexing st
               | None => (Unmodelled, st)
               end
      end
    else indexing in
  match expr with
  | [] => ret VNone
  | _ =>
    if str_in expr [U "True"; U "صح"; U "true"] then ret (VBool true)
    else if str_in expr [U "False"; U "خطأ"; U "false"] then ret (VBool false)
    else if str_in expr [U "null"; U "فارغ"; U "None"] then ret VNone
    else if startswith expr [quote2] && endswith expr [quote2]
            || startswith expr [quote1] && endswith expr [quote1]
    then ret (VStr (parse_string (slice expr 1 (-1))))
    else if startswith expr (U "[") && endswith expr (U "]")
    then match strip (slice expr 1 (-1)) with
         | [] => alloc_list []
         | inner => items <- eval_each ev (split_commas inner) ;; alloc_list items
         end
    else if startswith expr (U "{") && endswith expr (U "}")
    then match strip (slice expr 1 (-1)) with
         | [] => l <- Py.alloc (ODict []) ;; ret (VDict l)
         | inner =>
           d <- eval_pairs ev (split_commas inner) [] ;;
           l <- Py.alloc (ODict d) ;; ret (VDict l)
         end
    else call
  end.

(** [eval_arith]. *)
Definition eval_arith (expr : pystr) (ln : option nat) (file : option pystr) : M value :=
  let expr := unwrap expr in
  let ev := fun p => r_eval_arith rec p ln file in
  match first_split expr or_seps with
  | Some parts => py_any ev parts
  | None =>
  match first_split expr and_seps with
  | Some parts => py_all ev parts
  | None =>
  if startswith_any expr [U "not "; U "ليس "; U "!"]
  then
    let rest := if startswith expr (U "not ") then slice_from expr 4
                else if startswith expr (U "ليس ") then slice_from expr 5
                else slice_from expr 1 in
    v <- ev (strip rest) ;;
    b <- truthy_m v ;;
    ret (VBool (negb b))
  else
  match first_compare expr compare_ops with
  | Some (op, a, b) =>
    lhs <- ev a ;;
    rhs <- ev b ;;
    compare_values op lhs rhs
  | None =>
  match first_split_op expr additive_ops with
  | Some (op, p0 :: rest) =>
    result <- ev p0 ;;
    additive_loop ev op result rest
  | _ =>
  match first_split_op expr multiplicative_ops with
  | Some (op, p0 :: rest) =>
    result <- ev p0 ;;
    multiplicative_loop ev op ln file expr result rest
  | _ =>
  match (if contains (U "^") expr
         then let parts := split_by_op expr (U "^") in
              if 1 <? List.length parts then rev parts else []
         else []) with
  | last :: before =>
    result <- ev last ;;
    power_loop ev result before
  | [] => eval_base expr ln file
  end end end end end end.

(** [evaluate]: whatever host exception [eval_arith] lets through
    is turned into an [ExoError]. *)
Definition evaluate (expr : pystr) (ln : option nat) (file : option pystr) : M value :=
  if match expr with [] => true | _ => false end || startswith (strip expr) (U "#")
  then ret VNone
  else
    let expr := uncomment expr in
    match expr with
    | [] => ret VNone
    | _ => fun st => evaluation_error ln file expr (eval_arith expr ln file st)
    end.

End Evaluator.

(* ================================================================== *)
(** * The statement runner *)
(* ================================================================== *)

(** How one statement of [run] ends: [return v], or fall through to
    the [i += 1] at the bottom of the loop with the given [i]. *)
Inductive flow : Type :=
| Return (v : value)
| Next (i : nat).

(** The branch of the [if]/[elif] chain of [run] that a line takes. *)
Inductive stmt_kind : Type :=
| SDecl | SReturn | SBreak | SContinue | SRoute | SFunc | SIf | SWhile | SFor
| SCall | SAssign | SExpr.

Definition decl_words : list pystr := [U "let "; U "متغير "; U "var "; U "const "].
Definition block_openers : list pystr :=
  [U "route "; U "مسار "; U "func "; U "دالة "; U "function "; U "if "; U "اذا ";
   U "while "; U "بينما "; U "for "; U "لكل "].
Definition end_words : list pystr := [U "end"; U "نهاية"].
Definition else_words : list pystr := [U "else"; U "والا"].
Definition elif_words : list pystr := [U "else if "; U "والا اذا "].

Definition classify (line : pystr) : stmt_kind :=
  if startswith_any line decl_words then SDecl
  else if startswith_any line [U "return "; U "ارجع "] then SReturn
  else if str_in line [U "break"; U "اكسر"] then SBreak
  else if str_in line [U "continue"; U "استمر"] then SContinue
  else if startswith_any line [U "route "; U "مسار "] then SRoute
  else if startswith_any line [U "func "; U "دالة "; U "function "] then SFunc
  else if startswith_any line [U "if "; U "اذا "] then SIf
  else if startswith_any line [U "while "; U "بينما "] then SWhile
  else if startswith_any line [U "for "; U "لكل "] then SFor
  else if contains (U "(") line && contains (U ")") line then SCall
  else if contains (U "=") line then SAssign
  else SExpr.

(** The loop that collects the lines of a block up to its [end]:
    called with the index after the opener, it returns the body and
    the index of the closing line (or the number of lines when the
    block is never closed). *)
Fixpoint collect (rest : list pystr) (i : nat) (depth : nat) (body : list pystr)
    : list pystr * nat :=
  match rest with
  | [] => (rev body, i)
  | raw :: r =>
    let curr := strip raw in
    if startswith_any curr block_openers
    then collect r (S i) (S depth) (raw :: body)
    else if str_in curr end_words
    then match depth with
         | S (S d) => collect r (S i) (S d) (raw :: body)
         | _ => (rev body, i)
         end
    else collect r (S i) depth (raw :: body)
  end.

Definition collect_block (lines : list pystr) (i : nat) : list pystr * nat :=
  collect (skipn i lines) i 1 [].

(** The same loop inside an [if]: at depth 1 it also stops at [else]
    and [else if]. *)
Fixpoint collect_branch (rest : list pystr) (i : nat) (depth : nat) (body : list pystr)
    : list pystr * nat :=
  match rest with
  | [] => (rev body, i)
  | raw :: r =>
    let curr := strip raw in
    if startswith_any curr block_openers
    then collect_branch r (S i) (S depth) (raw :: body)
    else if str_in curr end_words || str_in curr else_words || startswith_any curr elif_words
    then if (depth =? 1)%nat then (rev body, i)
         else collect_branch r (S i)
                             (if str_in curr end_words then Nat.pred depth else depth)
                             (raw :: body)
    else collect_branch r (S i) depth (raw :: body)
  end.

Definition collect_if (lines : list pystr) (i : nat) : list pystr * nat :=
  collect_branch (skipn i lines) i 1 [].

(** [if not line or line.startswith('#')]: blank lines and comments. *)
Definition skip_line (line : pystr) : bool :=
  match line with [] => true | _ => false end || startswith line (U "#").

Definition is_break (v : value) : bool :=
  match v with VStr t => str_eqb t (U "break") | _ => false end.
Definition is_continue (v : value) : bool :=
  match v with VStr t => str_eqb t (U "continue") | _ => false end.
Definition is_None (v : value) : bool :=
  match v with VNone => true | _ => false end.

(** [result in ('break', 'continue') or result is not None]. *)
Definition propagates (v : value) : bool :=
  is_break v || is_continue v || negb (is_None v).

(** [iter(v)], for the values with an [__iter__]. *)
Definition make_iterator (h : list obj) (v : value) : option iterator :=
  match v with
  | VList l => Some (IterList l 0)
  | VStr t => Some (IterStr t)
  | VDict l =>
    match nth_error h l with
    | Some (ODict d) => Some (IterDict l (List.length d) 0)
    | _ => Some (IterDict l 0 0)
    end
  | _ => None
  end.

(** [next(it)]: a list is read through its position at each step, so
    items pushed by the body are visited too. *)
Definition next_item (it : iterator) : M (option (value * iterator)) :=
  fun st =>
    match it with
    | IterList l pos =>
      match nth_error (heap st) l with
      | Some (OList xs) =>
        match nth_error xs pos with
        | Some v => (Ok (Some (v, IterList l (S pos))), st)
        | None => (Ok None, st)
        end
      | _ => (Unmodelled, st)
      end
    | IterStr [] => (Ok None, st)
    | IterStr (c :: r) => (Ok (Some (VStr [c], IterStr r)), st)
    | IterDict l size pos =>
      match nth_error (heap st) l with
      | Some (ODict d) =>
        if negb (List.length d =? size)%nat
        then (Host RuntimeError (Some (U "dictionary changed size during iteration")), st)
        else match nth_error d pos with
             | Some (k, _) => (Ok (Some (k, IterDict l size (S pos))), st)
             | None => (Ok None, st)
             end
      | _ => (Unmodelled, st)
      end
    end.

Section Runner.
Variable rec : callbacks.

(** The handler [except Exception as e: error(f"Unexpected error:
    {e}", i+1, file, line)] that encloses every statement, with the
    values [i] and [line] have when the exception is raised. *)
Definition unexpected (A : Type) (i : nat) (file : option pystr) (line : pystr)
    (m : M A) : M A :=
  fun st =>
    match m st with
    | (Host k (Some t), st') =>
      error A (U "Unexpected error: " ++ t) (Some (S i)) file (Some line) st'
    | (Host k None, st') => (Unmodelled, st')
    | r => r
    end.

Definition scope_set (name : pystr) (v : value) (local : bool) : M unit :=
  modify (fun st => set_scopes (Scope.set (scopes st) (current_scope st) name v local) st).

Definition scope_get (name : pystr) : M value :=
  fun st => Scope.get (current_scope st) name st.

(** [name[idx] = expr], in a declaration or an assignment. *)
Definition assign_item (vn idx_expr val_expr : pystr) (i : nat) (file : option pystr)
    (line : pystr) : M flow :=
  unexpected i file line
    (catch is_KeyError
       (var <- scope_get vn ;;
        idx <- r_evaluate rec idx_expr (Some (S i)) file ;;
        v <- r_evaluate rec val_expr (Some (S i)) file ;;
        Obj.setitem var idx v ;;;
        ret (Next i))
       (error flow (U "Variable '" ++ vn ++ U "' not defined") (Some (S i)) file
              (Some line))).

(** What follows the keyword of a declaration, and the two sides of
    its first ["="]. *)
Definition decl_rest (line : pystr) : pystr :=
  strip (slice_from line (Z.of_nat (List.length (first_word line) + 1))).
Definition decl_name (line : pystr) : pystr :=
  strip (nth 0 (split1 (decl_rest line) (U "=")) []).
Definition decl_value (line : pystr) : pystr :=
  nth 1 (split1 (decl_rest line) (U "=")) [].

(** The special form [name[idx] = expr] of a declaration. *)
Definition item_form (rest : pystr) : bool :=
  contains (U "[") rest && contains (U "=") rest
  && (find rest (U "[") <? find rest (U "="))%Z.

Definition exec_decl (line : pystr) (i : nat) (file : option pystr) : M flow :=
  let rest := decl_rest line in
  if item_form rest
  then
    assign_item (strip (slice rest 0 (find rest (U "["))))
                (slice rest (find rest (U "[") + 1) (find rest (U "]")))
                (strip (decl_value line))
                i file line
  else if negb (contains (U "=") rest)
  then error flow (U "Invalid syntax: use = to assign value") (Some (S i)) file (Some line)
  else
    match isidentifier (decl_name line) with
    | None => unmodelled flow
    | Some false =>
      error flow (U "Invalid variable name: " ++ decl_name line) (Some (S i)) file
            (Some line)
    | Some true =>
      unexpected i file line
        (v <- r_evaluate rec (strip (decl_value line)) (Some (S i)) file ;;
         scope_set (decl_name line) v true ;;;
         ret (Next i))
    end.

(** The expression of a [return] line. *)
Definition return_expr (line : pystr) : pystr :=
  strip (slice_from line (if startswith line (U "return ") then 7%Z else 6%Z)).

Definition exec_return (line : pystr) (i : nat) (file : option pystr) : M flow :=
  match return_expr line with
  | [] => ret (Return VNone)
  | rest =>
    unexpected i file line
      (v <- r_evaluate rec rest (Some (S i)) file ;; ret (Return v))
  end.

Definition exec_route (lines : list pystr) (line : pystr) (i : nat) : M flow :=
  let p := if startswith line (U "route ") then strip (slice_from line 6)
           else strip (slice_from line 5) in
  let route_path := if startswith p (U "/") then p else U "/" ++ p in
  let (body, i') := collect_block lines (S i) in
  modify (fun st =>
            set_stdout (stdout st ++ [U "✅ Route: " ++ route_path])
                       (set_web_routes (sd_set route_path body (web_routes st)) st)) ;;;
  ret (Next i').

(** What follows the keyword on a [func] line, the procedure's name
    and its parameter names. *)
Definition func_header (line : pystr) : pystr :=
  strip (slice_from line (Z.of_nat (List.length (first_word line) + 1))).

Definition func_name (line : pystr) : pystr :=
  let rest := func_header line in
  strip (slice rest 0 (find rest (U "("))).

Definition func_params (line : pystr) : list pystr :=
  let rest := func_header line in
  let args_str := slice rest (find rest (U "(") + 1) (find rest (U ")")) in
  filter (fun a => match a with [] => false | _ => true end)
         (map strip (split args_str (U ","))).

Definition exec_func (lines : list pystr) (line : pystr) (i : nat) (file : option pystr)
    : M flow :=
  let rest := func_header line in
  if negb (contains (U "(") rest) || negb (contains (U ")") rest)
  then error flow (U "Invalid function syntax") (Some (S i)) file (Some line)
  else
    let (body, i') := collect_block lines (S i) in
    modify (fun st =>
              set_functions
                (sd_set (func_name line)
                        (mkfunc body (func_params line) (current_scope st))
                        (functions st)) st) ;;;
    ret (Next i').

(** The [while True] loop of the [if] statement: one round per
    branch of the chain. *)
Fixpoint if_chain (n : nat) (lines : list pystr) (file : option pystr) (line : pystr)
    (prefix_len : Z) (executed : bool) (i : nat) : M flow :=
  match n with
  | O => out_of_fuel flow
  | S n' =>
    let cond := strip (slice_from line prefix_len) in
    let (body, i1) := collect_if lines (S i) in
    taken <- (if executed then ret None
              else
                c <- unexpected i1 file line (r_evaluate rec cond (Some (S i1)) file) ;;
                b <- truthy_m c ;;
                if b
                then res <- unexpected i1 file line (r_run rec body file) ;;
                     ret (Some res)
                else ret None) ;;
    let resume (executed : bool) : M flow :=
      match nth_error lines i1 with
      | None => ret (Next i1)
      | Some raw =>
        let curr := strip raw in
        if str_in curr end_words then ret (Next i1)
        else if startswith_any curr elif_words
        then if_chain n' lines file curr
                      (if startswith curr (U "else if ") then 8%Z else 9%Z) executed i1
        else if str_in curr else_words
        then
          if negb executed
          then
            let (body2, i2) := collect_block lines (S i1) in
            res <- unexpected i2 file line (r_run rec body2 file) ;;
            if propagates res then ret (Return res) else ret (Next i2)
          else ret (Next i1)
        else if_chain n' lines file line prefix_len executed i1
      end in
    match taken with
    | Some res => if propagates res then ret (Return res) else resume true
    | None => resume executed
    end
  end.

(** The length of the keyword of an [if] line, and its condition. *)
Definition if_prefix (line : pystr) : Z := if startswith line (U "if ") then 3%Z else 4%Z.
Definition if_cond (line : pystr) : pystr := strip (slice_from line (if_prefix line)).

Definition exec_if (lines : list pystr) (line : pystr) (i : nat) (file : option pystr)
    : M flow :=
  if_chain (S (List.length lines)) lines file line (if_prefix line) false i.

(** One test of the condition of a [while] statement and, when it
    holds, one run of the body.  [Some v] when the body returned
    [v]; [None] when the loop is over. *)
Definition while_loop (cond : pystr) (body : list pystr) (i : nat) (line : pystr)
    (file : option pystr) : M (option value) :=
  c <- unexpected i file line (r_evaluate rec cond (Some (S i)) file) ;;
  b <- truthy_m c ;;
  if b
  then
    result <- unexpected i file line (r_run rec body file) ;;
    if is_break result then ret None
    else if is_continue result then r_while rec cond body i line file
    else if negb (is_None result) then ret (Some result)
    else r_while rec cond body i line file
  else ret None.

(** The condition of a [while] line. *)
Definition while_cond (line : pystr) : pystr :=
  strip (slice_from line (if startswith line (U "while ") then 6%Z else 7%Z)).

Definition exec_while (lines : list pystr) (line : pystr) (i : nat) (file : option pystr)
    : M flow :=
  let cond := while_cond line in
  let (body, i') := collect_block lines (S i) in
  r <- while_loop cond body i' line file ;;
  match r with
  | Some v => ret (Return v)
  | None => ret (Next i')
  end.

(** One step of a [for] statement. *)
Definition for_loop (it : iterator) (vn : pystr) (body : list pystr) (i : nat)
    (line : pystr) (file : option pystr) : M (option value) :=
  nx <- unexpected i file line (next_item it) ;;
  match nx with
  | None => ret None
  | Some (item, it') =>
    scope_set vn item true ;;;
    result <- unexpected i file line (r_run rec body file) ;;
    if is_break result then ret None
    else if is_continue result then r_for rec it' vn body i line file
    else if negb (is_None result) then ret (Some result)
    else r_for rec it' vn body i line file
  end.

(** What follows the keyword of a [for] line, its variable and the
    expression it walks over. *)
Definition for_rest (line : pystr) : pystr :=
  strip (slice_from line (if startswith line (U "for ") then 4%Z else 5%Z)).
Definition for_sep (line : pystr) : pystr :=
  if contains (U " in ") (for_rest line) then U " in " else U " في ".
Definition for_var (line : pystr) : pystr :=
  strip (nth 0 (split1 (for_rest line) (for_sep line)) []).
Definition for_iterable (line : pystr) : pystr :=
  strip (nth 1 (split1 (for_rest line) (for_sep line)) []).

Definition exec_for (lines : list pystr) (line : pystr) (i : nat) (file : option pystr)
    : M flow :=
  let rest := for_rest line in
  if negb (contains (U " in ") rest) && negb (contains (U " في ") rest)
  then error flow (U "Invalid for syntax") (Some (S i)) file (Some line)
  else
    let vn := for_var line in
    iterable <- unexpected i file line
                  (r_evaluate rec (for_iterable line) (Some (S i)) file) ;;
    st <- get_state ;;
    match make_iterator (heap st) iterable with
    | None => error flow (U "Value is not iterable") (Some (S i)) file (Some line)
    | Some it =>
      let (body, i') := collect_block lines (S i) in
      r <- for_loop it vn body i' line file ;;
      match r with
      | Some v => ret (Return v)
      | None => ret (Next i')
      end
    end.

(** The two sides of the first ["="] of an assignment. *)
Definition assign_name (line : pystr) : pystr := strip (nth 0 (split1 line (U "=")) []).
Definition assign_value (line : pystr) : pystr := nth 1 (split1 line (U "=")) [].

(** A line with [=] that is not a declaration. *)
Definition exec_assign (line : pystr) (i : nat) (file : option pystr) : M flow :=
  let name := assign_name line in
  let val := assign_value line in
  if contains (U "[") name
  then
    assign_item (strip (slice name 0 (find name (U "["))))
                (slice name (find name (U "[") + 1) (find name (U "]")))
                (strip val) i file line
  else if contains (U ".") name
  then
    let parts := split name (U ".") in
    unexpected i file line
      (catch is_KeyError
         (obj <- scope_get (hd [] parts) ;;
          target <- fold_left
                      (fun (m : M value) part => o <- m ;; Obj.getitem o (VStr part))
                      (removelast (tl parts)) (ret obj) ;;
          v <- r_evaluate rec (strip val) (Some (S i)) file ;;
          Obj.setitem target (VStr (last parts [])) v ;;;
          ret (Next i))
         (error flow (U "Variable '" ++ hd [] parts ++ U "' not defined") (Some (S i)) file
                (Some line)))
  else
    fun st =>
      if negb (Scope.exists_ (scopes st) (current_scope st) name)
      then error flow (U "Variable '" ++ name
                       ++ U "' not defined - use 'let' to declare it first")
                 (Some (S i)) file (Some line) st
      else unexpected i file line
             (v <- r_evaluate rec (strip val) (Some (S i)) file ;;
              scope_set name v false ;;;
              ret (Next i)) st.

(** A bare expression: evaluated, and its value dropped. *)
Definition exec_expr (line : pystr) (i : nat) (file : option pystr) : M flow :=
  unexpected i file line (r_evaluate rec line (Some (S i)) file) ;;;
  ret (Next i).

(** The body of the [try] of [run], for the stripped line at [i]. *)
Definition exec_line (lines : list pystr) (line : pystr) (i : nat) (file : option pystr)
    : M flow :=
  match classify line with
  | SDecl => exec_decl line i file
  | SReturn => exec_return line i file
  | SBreak => ret (Return (VStr (U "break")))
  | SContinue => ret (Return (VStr (U "continue")))
  | SRoute => exec_route lines line i
  | SFunc => exec_func lines line i file
  | SIf => exec_if lines line i file
  | SWhile => exec_while lines line i file
  | SFor => exec_for lines line i file
  | SCall => exec_expr line i file
  | SAssign => exec_assign line i file
  | SExpr => exec_expr line i file
  end.

(** The [while i < len(code_lines)] loop of [run].  Every round
    moves [i] forward, so [n] rounds are enough when [n] exceeds the
    number of lines left. *)
Fixpoint run_loop (n : nat) (lines : list pystr) (file : option pystr) (i : nat)
    : M value :=
  match nth_error lines i with
  | None => ret VNone
  | Some raw =>
    match n with
    | O => out_of_fuel value
    | S n' =>
      let line := strip raw in
      if skip_line line
      then run_loop n' lines file (S i)
      else
        r <- exec_line lines line i file ;;
        match r with
        | Return v => ret v
        | Next i' => run_loop n' lines file (S i')
        end
    end
  end.

(** [run(code_lines, file)] on a list of lines, from line [i]. *)
Definition run_from (lines : list pystr) (file : option pystr) (i : nat) : M value :=
  run_loop (S (List.length lines)) lines file i.

Definition run_lines (lines : list pystr) (file : option pystr) : M value :=
  run_from lines file 0.

End Runner.

(* ================================================================== *)
(** * Closing the recursion *)
(* ================================================================== *)

Definition no_fuel : callbacks :=
  {| r_eval_arith := fun _ _ _ => out_of_fuel value;
     r_evaluate := fun _ _ _ => out_of_fuel value;
     r_run := fun _ _ => out_of_fuel value;
     r_while := fun _ _ _ _ _ => out_of_fuel (option value);
     r_for := fun _ _ _ _ _ _ => out_of_fuel (option value) |}.

Fixpoint knot (h : host_env) (fuel : nat) : callbacks :=
  match fuel with
  | O => no_fuel
  | S n =>
    let k := knot h n in
    {| r_eval_arith := eval_arith h k;
       r_evaluate := evaluate h k;
       r_run := run_lines k;
       r_while := while_loop k;
       r_for := for_loop k |}
  end.

(** The interpreter's entry points, with [fuel] bounding the nesting
    of recursive calls. *)
Definition exo_evaluate (h : host_env) (fuel : nat) := r_evaluate (knot h fuel).
Definition run (h : host_env) (fuel : nat) := r_run (knot h fuel).

(** Execution of [lines] from line [i] on: [run] is [exo_run_from]
    at line 0. *)
Definition exo_run_from (h : host_env) (fuel : nat) := run_from (knot h fuel).

(** A call of a user procedure whose arguments are already evaluated. *)
Definition exo_call (h : host_env) (fuel : nat) := call_user (knot h fuel).

(* ================================================================== *)
(** * The HTTP handler and the file driver *)
(* ================================================================== *)

Record response : Type := mkresponse {
  status : nat;
  content : pystr
}.

Definition default_page : pystr :=
  U "<!DOCTYPE html><html><body><h1>✅ EXO</h1></body></html>".

Fixpoint alloc_query (q : list (pystr * list pystr)) : M (list (value * value)) :=
  match q with
  | [] => ret []
  | (k, vs) :: r =>
    l <- Py.alloc (OList (map VStr vs)) ;;
    d <- alloc_query r ;;
    ret ((VStr k, VList l) :: d)
  end.

(** [ExoWebHandler.do_GET] from the point where [urlparse] has split
    the request into its path and its query.  Only [ExoError] is
    caught around the route body and the page: a [ValueError] of
    [str(result)] leaves the handler.  Writing to the socket is not
    modelled. *)
Definition do_GET (h : host_env) (fuel : nat) (path : pystr)
    (query : list (pystr * list pystr)) : M response :=
  if str_eqb path (U "/favicon.ico") then ret (mkresponse 204 [])
  else
    modify (fun st => set_stdout (stdout st ++ [U "
📥 GET " ++ path]) st) ;;;
    st0 <- get_state ;;
    match sd_get path (web_routes st0) with
    | Some body =>
      fun st =>
        match (request_scope <- Scope.new (Some global_scope) (U "request:" ++ path) ;;
               modify (set_current_scope request_scope) ;;;
               q <- alloc_query query ;;
               ql <- Py.alloc (ODict q) ;;
               req <- Py.alloc (ODict [(VStr (U "path"), VStr path);
                                       (VStr (U "query"), VDict ql);
                                       (VStr (U "method"), VStr (U "GET"))]) ;;
               modify (fun st' =>
                         set_scopes (Scope.set (scopes st') (current_scope st')
                                               (U "request") (VDict req) true) st') ;;;
               finally (run h fuel body (Some (U "route:" ++ path)))
                       (set_current_scope (current_scope st0))) st with
        | (Ok result, st') =>
          if Py.truthy (heap st') result
          then (t <- Py.str_m result ;; ret (mkresponse 200 t)) st'
          else (Ok (mkresponse 200 default_page), st')
        | (Exo e, st') => (Ok (mkresponse 500 (U "<pre>" ++ err_text e ++ U "</pre>")), st')
        | (Host k t, st') => (Host k t, st')
        | (Unmodelled, st') => (Unmodelled, st')
        | (OutOfFuel, st') => (OutOfFuel, st')
        end
    | None =>
      ret (mkresponse 404
             (U "<h1>404</h1><ul>"
              ++ List.concat (map (fun r => U "<li><a href=" ++ [quote2] ++ fst r ++ [quote2]
                                         ++ U ">" ++ fst r ++ U "</a></li>")
                             (web_routes st0))
              ++ U "</ul>"))
    end.

(** The part of [run_file] that executes the program: the text of the
    file is run at top level, and the value [run] returns is dropped. *)
Definition run_file (h : host_env) (fuel : nat) (filepath : pystr) : M unit :=
  match OsPath.read h filepath with
  | None => modify (fun st => set_stdout (stdout st ++ [U "
❌ File '" ++ filepath ++ U "' not found"]) st)
  | Some code =>
    modify (fun st => set_stdout (stdout st ++ [U "🚀 Running: " ++ filepath ++ U "
"]) st) ;;;
    run h fuel (split code [10%N]) (Some filepath) ;;;
    ret tt
  end.


(* ================================================================== *)
(** * Vocabulary of the specification *)
(* ================================================================== *)

(** A program, written line by line. *)
Definition prog (l : list string) : list pystr := map U l.

(** A host without files. *)
Definition no_files : host_env := mkhost [] (U "/").

(** The outcome is an [ExoError] with this message, line and context. *)
Definition raises (A : Type) (o : outcome A) (msg : pystr) (line : option nat)
    (context : option pystr) : Prop :=
  match o with
  | Exo e => err_msg e = msg /\ err_line e = line /\ err_context e = context
  | _ => False
  end.

(** The lines that make [run] return: [return], [break], [continue]. *)
Definition exits (line : pystr) : bool :=
  match classify line with
  | SReturn | SBreak | SContinue => true
  | _ => false
  end.

Definition no_exit (lines : list pystr) : bool :=
  forallb (fun raw => negb (exits (strip raw))) lines.

(** A line that [run] treats as a bare expression. *)
Definition bare_expression (line : pystr) : bool :=
  match classify line with
  | SCall | SExpr => true
  | _ => false
  end.

(** Whatever the recursive entry points return is [None] when the
    lines they run hold no [return], [break] or [continue]. *)
Definition returns_none (rec : callbacks) : Prop :=
  (forall lines file st v st',
      no_exit lines = true -> r_run rec lines file st = (Ok v, st') -> v = VNone)
  /\ (forall cond body i line file st r st',
         no_exit body = true ->
         r_while rec cond body i line file st = (Ok r, st') -> r = None)
  /\ (forall it vn body i line file st r st',
         no_exit body = true ->
         r_for rec it vn body i line file st = (Ok r, st') -> r = None).

(** Every value a computation can end with satisfies [P]. *)
Definition ends_in (A : Type) (m : M A) (P : A -> Prop) : Prop :=
  forall st a st', m st = (Ok a, st') -> P a.

(** A computation never lets a host exception through. *)
Definition host_safe (A : Type) (m : M A) : Prop :=
  forall st k t, fst (m st) <> Host k t.

(** The state in which [call_function] runs the body of a user
    procedure: the frame is pushed, a fresh scope hangs under the
    captured one, the parameters are bound in it, and it is current. *)
Definition call_state (name : pystr) (f : func) (args : list value) (texts : list pystr)
    (st : state) : state :=
  let st1 :=
    set_call_stack
      (call_stack st ++ [name ++ U "(" ++ PyStr.join (U ", ") texts ++ U ")"]) st in
  let fresh := List.length (scopes st1) in
  set_current_scope fresh
    (set_scopes
       (bind_params (scopes st1 ++ [mkscope (Some (fn_scope f)) (U "func:" ++ name) []])
                    fresh (fn_args f) args) st1).

(** What the two [finally] clauses of a call do to the state its body
    left: the caller's scope is current again and the frame is popped. *)
Definition leave_call (st : state) (r : outcome value * state) : outcome value * state :=
  (fst r,
   set_call_stack (removelast (call_stack (snd r)))
                  (set_current_scope (current_scope st) (snd r))).

(** The state in which [import_module] runs the body of a module that
    is not loaded yet: its empty exports map is registered under the
    module's key, and a fresh scope under the global one is current. *)
Definition import_state (key module_path : pystr) (st : state) : state :=
  let st1 :=
    set_modules (sd_set key (List.length (heap st)) (modules st))
                (set_heap (heap st ++ [ODict []]) st) in
  set_current_scope (List.length (scopes st1))
    (set_scopes (scopes st1 ++ [mkscope (Some global_scope) (U "module:" ++ module_path) []])
                st1).

(** What [import_module] makes of the run of a module's body: the
    importer's scope is current again, and the answer is the exports
    map found under the module's key. *)
Definition import_finish (key : pystr) (ln : option nat) (file : option pystr)
    (st0 : state) (r : outcome value * state) : outcome value * state :=
  let st2 := set_current_scope (current_scope st0) (snd r) in
  match fst r with
  | Ok _ =>
    match sd_get key (modules st2) with
    | Some e => (Ok (VDict e), st2)
    | None => (Unmodelled, st2)
    end
  | Exo e => (Exo e, st2)
  | Host k (Some t) => error value (U "Failed to load module: " ++ t) ln file None st2
  | Host k None => (Unmodelled, st2)
  | Unmodelled => (Unmodelled, st2)
  | OutOfFuel => (OutOfFuel, st2)
  end.

(** A host with one module, [/w/m.exo], which prints a line and
    exports a name, run from the directory [/w]. *)
Definition one_module : host_env :=
  mkhost [(U "/w/m.exo", U "print('loaded')
export('x', 1)")] (U "/w").

(** A host with two modules in the directory [/w], from which it is
    run: [a.exo] imports [b], and [b.exo] prints a line and exports
    a name. *)
Definition two_modules : host_env :=
  mkhost [(U "/w/a.exo", U "let m = import('b')");
          (U "/w/b.exo", U "print('loaded')
export('x', 1)")] (U "/w").

(** A host with one module, [/w/lib.exo], which defines a procedure. *)
Definition lib_module : host_env :=
  mkhost [(U "/w/lib.exo", U "func helper()
return 42
end")] (U "/w").

(** The value bound to a global name. *)
Definition global_var (st : state) (name : string) : option value :=
  sd_get (U name) (Scope.vars_of (scopes st) global_scope).

(** The global scope with [x = 1] and, under it, the scope of a call. *)
Definition shadow_scopes : list scope :=
  [mkscope None (U "global") [(U "x", VInt 1)]; mkscope (Some 0) (U "func:f") []].

(** A statement that lets [run] go on to the next line. *)
Definition falls_through (r : flow) : Prop :=
  match r with Next _ => True | Return _ => False end.

(** The answer to a request whose route gave no text: the default
    page, or the page of an error. *)
Definition placeholder_or_error (r : response) : Prop :=
  (status r = 200 /\ content r = default_page) \/ status r = 500.

(** An int literal too long for a double: 1 followed by 400 zeros. *)
Definition googol4 : pystr := U "1" ++ repeat 48%N 400.

(** A state whose global scope binds [a] and [b] to two ints. *)
Definition two_ints (x y : Z) : state :=
  set_scopes [mkscope None (U "global") [(U "a", VInt x); (U "b", VInt y)]] initial_state.

(* ================================================================== *)
(** * Vocabulary of the further properties *)
(* ================================================================== *)

(** Two objects of the same class. *)
Definition same_kind (o o' : obj) : Prop :=
  match o, o' with
  | OList _, OList _ => True
  | ODict _, ODict _ => True
  | _, _ => False
  end.

(** A discipline on the globals: a relation [R] between the state
    before and after a computation that returns or raises a host
    exception, and a relation [E] for one that raises [ExoError].
    The fields say that every update the interpreter makes, and every
    [try ... finally] it wraps around a body, respects the two. *)
Record discipline (R E : state -> state -> Prop) : Prop := mkdiscipline {
  d_refl : forall st, R st st;
  d_trans : forall a b c, R a b -> R b c -> R a c;
  d_weaken : forall a b, R a b -> E a b;
  d_raise : forall a b c, R a b -> E b c -> E a c;
  d_alloc : forall st o, R st (set_heap (heap st ++ [o]) st);
  d_store : forall st l o o',
      nth_error (heap st) l = Some o -> same_kind o o' ->
      R st (set_heap (list_set (heap st) l o') st);
  d_print : forall st v,
      R st (set_output (output st ++ [v]) (set_stdout (stdout st ++ [v]) st));
  d_stdout : forall st x, R st (set_stdout x st);
  d_write : forall st s n v, R st (set_scopes (Scope.write (scopes st) s n v) st);
  d_new_scope : forall st sc, R st (set_scopes (scopes st ++ [sc]) st);
  d_register : forall st key e,
      sd_get key (modules st) = None -> R st (set_modules (sd_set key e (modules st)) st);
  d_define : forall st n f, R st (set_functions (sd_set n f (functions st)) st);
  d_route : forall st p body, R st (set_web_routes (sd_set p body (web_routes st)) st);
  d_scope : forall st x st',
      R (set_current_scope x st) st' -> R st (set_current_scope (current_scope st) st');
  d_scope_raise : forall st x st',
      E (set_current_scope x st) st' -> E st (set_current_scope (current_scope st) st');
  d_frame : forall st f st',
      R (set_call_stack (call_stack st ++ [f]) st) st' ->
      R st (set_call_stack (removelast (call_stack st')) st');
  d_frame_raise : forall st f st',
      E (set_call_stack (call_stack st ++ [f]) st) st' ->
      E st (set_call_stack (removelast (call_stack st')) st');
  d_cap : forall st f, E st (set_call_stack (call_stack st ++ [f]) st)
}.

Section Discipline.
Variables R E : state -> state -> Prop.

(** The end of a computation started in [st] is within the
    discipline. *)
Definition kept (A : Type) (r : outcome A * state) (st : state) : Prop :=
  match fst r with
  | Exo _ => E st (snd r)
  | _ => R st (snd r)
  end.

Definition keeping (A : Type) (m : M A) : Prop := forall st, kept (m st) st.

Definition callbacks_keep (rec : callbacks) : Prop :=
  (forall p ln file, keeping (r_eval_arith rec p ln file))
  /\ (forall p ln file, keeping (r_evaluate rec p ln file))
  /\ (forall lines file, keeping (r_run rec lines file))
  /\ (forall cond body i line file, keeping (r_while rec cond body i line file))
  /\ (forall it vn body i line file, keeping (r_for rec it vn body i line file)).

End Discipline.

(** A [Scope] instance at a later time: its parent and name are the
    same, and every name it held is still held. *)
Definition scope_kept (sc sc' : scope) : Prop :=
  sc_parent sc' = sc_parent sc
  /\ sc_name sc' = sc_name sc
  /\ forall n, sd_mem n (sc_vars sc) = true -> sd_mem n (sc_vars sc') = true.

(** First discipline: [current_scope] is the same object, and nothing
    that existed is gone. *)
Record evolves (st st' : state) : Prop := mkevolves {
  ev_current : current_scope st' = current_scope st;
  ev_scopes : forall s sc, nth_error (scopes st) s = Some sc ->
              exists sc', nth_error (scopes st') s = Some sc' /\ scope_kept sc sc';
  ev_heap : forall l o, nth_error (heap st) l = Some o ->
            exists o', nth_error (heap st') l = Some o' /\ same_kind o o';
  ev_modules : forall k e, sd_get k (modules st) = Some e -> sd_get k (modules st') = Some e;
  ev_functions : forall n, sd_mem n (functions st) = true ->
                 sd_mem n (functions st') = true;
  ev_routes : forall p, sd_mem p (web_routes st) = true -> sd_mem p (web_routes st') = true;
  ev_output : exists l, output st' = output st ++ l
}.

(** Second discipline: the call stack is the same, or, after an
    [ExoError], the same with frames left on top. *)
Definition same_stack (st st' : state) : Prop := call_stack st' = call_stack st.
Definition grown_stack (st st' : state) : Prop :=
  exists left, call_stack st' = call_stack st ++ left.

(** The functions through which a program, a request or a caller
    enters the interpreter. *)
Inductive entry : Type :=
| Evaluate (expr : pystr) (ln : option nat) (file : option pystr)
| Run (lines : list pystr) (file : option pystr)
| Call (name : pystr) (f : func) (args : list value) (ln : option nat) (file : option pystr)
| Import (module_path : pystr) (ln : option nat) (file : option pystr)
| Request (path : pystr) (query : list (pystr * list pystr))
| RunFile (filepath : pystr).

(** The globals as such a call leaves them, whether it returns or
    raises. *)
Definition state_after (h : host_env) (fuel : nat) (e : entry) (st : state) : state :=
  match e with
  | Evaluate expr ln file => snd (exo_evaluate h fuel expr ln file st)
  | Run lines file => snd (run h fuel lines file st)
  | Call name f args ln file => snd (exo_call h fuel name f args ln file st)
  | Import path ln file => snd (import_module h (knot h fuel) path ln file st)
  | Request path query => snd (do_GET h fuel path query st)
  | RunFile filepath => snd (run_file h fuel filepath st)
  end.

(** The recursive entry points that statements go through let no
    host exception out. *)
Definition callbacks_host_safe (rec : callbacks) : Prop :=
  (forall p ln file, host_safe (r_evaluate rec p ln file))
  /\ (forall lines file, host_safe (r_run rec lines file))
  /\ (forall cond body i line file, host_safe (r_while rec cond body i line file))
  /\ (forall it vn body i line file, host_safe (r_for rec it vn body i line file)).

(** Three routes: one gives a text, one fails, one gives an int of
    4301 digits. *)
Definition three_routes : state :=
  snd (run no_files 6
           (prog ["route /ok"; "return 'hi'"; "end";
                  "route /bad"; "return 1 / 0"; "end";
                  "route /big"; "return 10 ^ 4300"; "end"]%string)
           None initial_state).

(** A host with one module, [/w/bad.exo], which exports a name and
    then calls a procedure that does not exist. *)
Definition broken_module : host_env :=
  mkhost [(U "/w/bad.exo", U "export('x', 1)
boom()")] (U "/w").



(** The characters of names and of int literals: ASCII letters, the
    underscore, digits and Arabic letters. *)
Definition word_char (c : N) : bool :=
  is_ascii_alpha c || is_ascii_digit c || is_arabic_letter c.

(** The words that [eval_base] reads as literals. *)
Definition literal_words : list pystr :=
  [U "True"; U "صح"; U "true"; U "False"; U "خطأ"; U "false"; U "null"; U "فارغ"; U "None"].

(** An operator that does not begin with a character of names. *)
Definition foreign_head (op : pystr) : bool :=
  match op with
  | [] => false
  | o :: _ => negb (word_char o)
  end.



(** Characters that the scan of [split_by_op] only copies or compares
    with the operator: no quote and no bracket. *)
Definition plain_char (c : N) : bool :=
  negb (is_quote c) && negb (is_open c) && negb (is_close c).

(** The words that [eval_arith] reads as operators. *)
Definition operator_words : list pystr :=
  [U "or"; U "او"; U "and"; U "و"; U "not"; U "ليس"].

(** A name or an int literal that can stand as an operand: written
    with the characters of names, no literal word and no operator
    word. *)
Definition operand (w : pystr) : bool :=
  match w with [] => false | _ => true end
  && forallb word_char w
  && negb (str_in w literal_words)
  && negb (str_in w operator_words).

(** What such an operand stands for: the variable of that name when a
    scope of the chain binds it, the int it spells otherwise. *)
Definition operand_value (st : state) (w : pystr) : option value :=
  match Scope.get_from (S (current_scope st)) (scopes st) (current_scope st) w with
  | Some v => Some v
  | None =>
    match Py.parse_int w with
    | Py.PVal z => Some (VInt z)
    | _ => None
    end
  end.

(* ================================================================== *)
(** * Basic facts *)
(* ================================================================== *)

Unset Implicit Arguments.

(** Split a conjunction into its parts, and nothing else. *)
Ltac conj_split := repeat match goal with |- _ /\ _ => split end.

(** Normalise updates of the interpreter state. *)
Ltac state_simpl :=
  unfold set_scopes, set_heap, set_current_scope, set_functions, set_modules, set_output,
    set_web_routes, set_call_stack, set_stdout;
  cbn [scopes heap current_scope functions modules output web_routes call_stack stdout].

(** Decide a closed statement about concrete programs by running them. *)
Ltac run_it := conj_split; vm_compute; conj_split; reflexivity.

Lemma str_eqb_refl : forall s, str_eqb s s = true.
Proof.
  induction s as [|c s IH]; simpl; [reflexivity|].
  now rewrite N.eqb_refl, IH.
Qed.

Lemma str_eqb_eq : forall a b, str_eqb a b = true -> a = b.
Proof.
  induction a as [|x a IH]; destruct b as [|y b]; simpl; intros H;
    try discriminate; [reflexivity|].
  apply andb_true_iff in H. destruct H as [H1 H2].
  apply N.eqb_eq in H1. subst. f_equal. now apply IH.
Qed.

Lemma sd_get_set_same : forall (A : Type) k (v : A) d, sd_get k (sd_set k v d) = Some v.
Proof.
  induction d as [|[k' v'] d IH]; simpl.
  - now rewrite str_eqb_refl.
  - destruct (str_eqb k k') eqn:E; simpl; rewrite E; [reflexivity | exact IH].
Qed.

Lemma nth_error_list_set_same : forall (A : Type) (l : list A) i x y,
  nth_error l i = Some y -> nth_error (list_set l i x) i = Some x.
Proof.
  induction l as [|a l IH]; destruct i; simpl; intros x y H; try discriminate.
  - reflexivity.
  - eapply IH; eassumption.
Qed.

Lemma nth_error_list_set_other : forall (A : Type) (l : list A) i j x,
  i <> j -> nth_error (list_set l i x) j = nth_error l j.
Proof.
  induction l as [|a l IH]; destruct i, j; simpl; intros x H; try reflexivity.
  - now contradict H.
  - apply IH. now intros ->.
Qed.

Lemma existsb_false_in : forall (A : Type) (f : A -> bool) l x,
  existsb f l = false -> In x l -> f x = false.
Proof.
  intros A f l x H Hin. destruct (f x) eqn:E; [|reflexivity].
  assert (existsb f l = true) by (apply existsb_exists; eauto). congruence.
Qed.

Lemma knot_S : forall h n,
  knot h (S n) =
  {| r_eval_arith := eval_arith h (knot h n);
     r_evaluate := evaluate h (knot h n);
     r_run := run_lines (knot h n);
     r_while := while_loop (knot h n);
     r_for := for_loop (knot h n) |}.
Proof. reflexivity. Qed.

(* ================================================================== *)
(** * Logical operators *)
(* ================================================================== *)

Lemma py_all_stops : forall ev a rest st v st',
  ev a st = (Ok v, st') -> Py.truthy (heap st') v = false ->
  py_all ev (a :: rest) st = (Ok (VBool false), st').
Proof.
  intros ev a rest st v st' Ha Hv. simpl. unfold bind at 1. rewrite Ha.
  unfold bind, truthy_m. now rewrite Hv.
Qed.

Lemma py_any_stops : forall ev a rest st v st',
  ev a st = (Ok v, st') -> Py.truthy (heap st') v = true ->
  py_any ev (a :: rest) st = (Ok (VBool true), st').
Proof.
  intros ev a rest st v st' Ha Hv. simpl. unfold bind at 1. rewrite Ha.
  unfold bind, truthy_m. now rewrite Hv.
Qed.

(** C5.  [or] and [and] short-circuit.  When the expression splits at
    an [and] separator and its first operand evaluates to a false
    value, [eval_arith] answers [False] in the very state the first
    operand left, whatever the other operands are: they are not
    evaluated.  Likewise for [or] and a first operand that is true.
    In particular [false and (1/0)] and [true or (1/0)] evaluate to
    [False] and [True] and change nothing, although [(1/0)] on its own
    raises "Division by zero". *)
Theorem C5_short_circuit :
  (forall h rec expr ln file st a rest v st',
      first_split (unwrap expr) or_seps = None ->
      first_split (unwrap expr) and_seps = Some (a :: rest) ->
      r_eval_arith rec a ln file st = (Ok v, st') ->
      Py.truthy (heap st') v = false ->
      eval_arith h rec expr ln file st = (Ok (VBool false), st'))
  /\ (forall h rec expr ln file st a rest v st',
      first_split (unwrap expr) or_seps = Some (a :: rest) ->
      r_eval_arith rec a ln file st = (Ok v, st') ->
      Py.truthy (heap st') v = true ->
      eval_arith h rec expr ln file st = (Ok (VBool true), st'))
  /\ first_split (unwrap (U "false and (1/0)")) and_seps = Some [U "false"; U "(1/0)"]
  /\ exo_evaluate no_files 2 (U "false and (1/0)") (Some 1%nat) None initial_state
     = (Ok (VBool false), initial_state)
  /\ first_split (unwrap (U "true or (1/0)")) or_seps = Some [U "true"; U "(1/0)"]
  /\ exo_evaluate no_files 2 (U "true or (1/0)") (Some 1%nat) None initial_state
     = (Ok (VBool true), initial_state)
  /\ raises (fst (exo_evaluate no_files 2 (U "(1/0)") (Some 1%nat) None initial_state))
            (U "Division by zero") (Some 1%nat) (Some (U "1/0")).
Proof.
  split; [|split; [|run_it]].
  - intros h rec expr ln file st a rest v st' Hor Hand Ha Hv.
    unfold eval_arith. cbv zeta. rewrite Hor, Hand.
    eapply py_all_stops; eassumption.
  - intros h rec expr ln file st a rest v st' Hor Ha Hv.
    unfold eval_arith. cbv zeta. rewrite Hor.
    eapply py_any_stops; eassumption.
Qed.

(** The first conjunct of C5 at [false and (1/0)], the second at
    [true or (1/0)]. *)
Lemma C5_short_circuit_witness :
  eval_arith no_files (knot no_files 1) (U "false and (1/0)") (Some 1%nat) None initial_state
  = (Ok (VBool false), initial_state)
  /\ eval_arith no_files (knot no_files 1) (U "true or (1/0)") (Some 1%nat) None initial_state
     = (Ok (VBool true), initial_state).
Proof.
  split.
  - apply (proj1 C5_short_circuit no_files (knot no_files 1) (U "false and (1/0)")
                 (Some 1%nat) None initial_state (U "false") [U "(1/0)"] (VBool false)
                 initial_state); reflexivity.
  - apply (proj1 (proj2 C5_short_circuit) no_files (knot no_files 1) (U "true or (1/0)")
                 (Some 1%nat) None initial_state (U "true") [U "(1/0)"] (VBool true)
                 initial_state); reflexivity.
Defined.

(* ================================================================== *)
(** * Evaluating names, operators and calls *)
(* ================================================================== *)

Lemma scope_exists_own : forall ss s name v,
  sd_get name (Scope.vars_of ss s) = Some v -> Scope.exists_ ss s name = true.
Proof.
  intros ss s name v H. unfold Scope.exists_. simpl. unfold sd_mem. now rewrite H.
Qed.

Lemma scope_get_own : forall st s name v,
  sd_get name (Scope.vars_of (scopes st) s) = Some v ->
  Scope.get s name st = (Ok v, st).
Proof.
  intros st s name v H. unfold Scope.get. simpl. now rewrite H.
Qed.

Lemma scope_get_from : forall st s name v,
  Scope.get_from (S s) (scopes st) s name = Some v ->
  Scope.get s name st = (Ok v, st).
Proof.
  intros st s name v H. unfold Scope.get. now rewrite H.
Qed.

(** A name that is bound in the current scope evaluates to its value.
    The lemma is stated for the names the theorems below use. *)
Lemma eval_arith_a : forall h rec ln file st v,
  sd_get (U "a") (Scope.vars_of (scopes st) (current_scope st)) = Some v ->
  eval_arith h rec (U "a") ln file st = (Ok v, st).
Proof.
  intros h rec ln file st v H.
  change (eval_arith h rec (U "a") ln file st) with
    (if Scope.exists_ (scopes st) (current_scope st) (U "a")
     then Scope.get (current_scope st) (U "a") st
     else error value (U "Invalid expression: a") ln file (Some (U "a")) st).
  rewrite (scope_exists_own _ _ _ _ H). now apply scope_get_own.
Qed.

Lemma eval_arith_b : forall h rec ln file st v,
  sd_get (U "b") (Scope.vars_of (scopes st) (current_scope st)) = Some v ->
  eval_arith h rec (U "b") ln file st = (Ok v, st).
Proof.
  intros h rec ln file st v H.
  change (eval_arith h rec (U "b") ln file st) with
    (if Scope.exists_ (scopes st) (current_scope st) (U "b")
     then Scope.get (current_scope st) (U "b") st
     else error value (U "Invalid expression: b") ln file (Some (U "b")) st).
  rewrite (scope_exists_own _ _ _ _ H). now apply scope_get_own.
Qed.

Lemma eval_arith_v : forall h rec ln file st v,
  Scope.exists_ (scopes st) (current_scope st) (U "v") = true ->
  Scope.get (current_scope st) (U "v") st = (Ok v, st) ->
  eval_arith h rec (U "v") ln file st = (Ok v, st).
Proof.
  intros h rec ln file st v H G.
  change (eval_arith h rec (U "v") ln file st) with
    (if Scope.exists_ (scopes st) (current_scope st) (U "v")
     then Scope.get (current_scope st) (U "v") st
     else error value (U "Invalid expression: v") ln file (Some (U "v")) st).
  now rewrite H.
Qed.

(** [a op b] with both names bound: the operands are evaluated left to
    right, then the operator's loop combines them. *)
Lemma eval_additive : forall h n ln file st x y (plus : bool),
  sd_get (U "a") (Scope.vars_of (scopes st) (current_scope st)) = Some x ->
  sd_get (U "b") (Scope.vars_of (scopes st) (current_scope st)) = Some y ->
  exo_evaluate h (2 + n) (if plus then U "a + b" else U "a - b") ln file st
  = evaluation_error ln file (if plus then U "a + b" else U "a - b")
      ((if plus then Py.add x y else Py.sub x y) st).
Proof.
  intros h n ln file st x y plus Ha Hb.
  assert (E : forall p v, (p = U "a" \/ p = U "b") ->
                sd_get p (Scope.vars_of (scopes st) (current_scope st)) = Some v ->
                r_eval_arith (knot h (S n)) p ln file st = (Ok v, st)).
  { intros p v [-> | ->] Hp; [now apply eval_arith_a | now apply eval_arith_b]. }
  destruct plus.
  - change (exo_evaluate h (2 + n) (U "a + b") ln file st) with
      (evaluation_error ln file (U "a + b")
         ((result <- r_eval_arith (knot h (S n)) (U "a") ln file ;;
           val <- r_eval_arith (knot h (S n)) (U "b") ln file ;;
           res <- Py.add result val ;;
           ret res)%exo st)).
    unfold bind at 1. rewrite (E _ _ (or_introl eq_refl) Ha).
    unfold bind at 1. rewrite (E _ _ (or_intror eq_refl) Hb).
    f_equal. unfold bind, ret. now destruct (Py.add x y st) as [[]].
  - change (exo_evaluate h (2 + n) (U "a - b") ln file st) with
      (evaluation_error ln file (U "a - b")
         ((result <- r_eval_arith (knot h (S n)) (U "a") ln file ;;
           val <- r_eval_arith (knot h (S n)) (U "b") ln file ;;
           res <- Py.sub result val ;;
           ret res)%exo st)).
    unfold bind at 1. rewrite (E _ _ (or_introl eq_refl) Ha).
    unfold bind at 1. rewrite (E _ _ (or_intror eq_refl) Hb).
    f_equal. unfold bind, ret. now destruct (Py.sub x y st) as [[]].
Qed.

(** The three multiplicative operators on two bound names. *)
Lemma eval_multiplicative : forall h n ln file st x y op,
  In op multiplicative_ops ->
  sd_get (U "a") (Scope.vars_of (scopes st) (current_scope st)) = Some x ->
  sd_get (U "b") (Scope.vars_of (scopes st) (current_scope st)) = Some y ->
  exo_evaluate h (2 + n) (U "a " ++ op ++ U " b") ln file st
  = evaluation_error ln file (U "a " ++ op ++ U " b")
      (multiplicative_loop (fun p => r_eval_arith (knot h (S n)) p ln file) op ln file
                           (U "a " ++ op ++ U " b") x [U "b"] st).
Proof.
  intros h n ln file st x y op Hop Ha Hb.
  assert (E : r_eval_arith (knot h (S n)) (U "a") ln file st = (Ok x, st))
    by now apply eval_arith_a.
  destruct Hop as [<- | [<- | [<- | []]]].
  - change (exo_evaluate h (2 + n) (U "a " ++ U "*" ++ U " b") ln file st) with
      (evaluation_error ln file (U "a * b")
         ((result <- r_eval_arith (knot h (S n)) (U "a") ln file ;;
           multiplicative_loop (fun p => r_eval_arith (knot h (S n)) p ln file) (U "*")
                               ln file (U "a * b") result [U "b"])%exo st)).
    unfold bind at 1. now rewrite E.
  - change (exo_evaluate h (2 + n) (U "a " ++ U "/" ++ U " b") ln file st) with
      (evaluation_error ln file (U "a / b")
         ((result <- r_eval_arith (knot h (S n)) (U "a") ln file ;;
           multiplicative_loop (fun p => r_eval_arith (knot h (S n)) p ln file) (U "/")
                               ln file (U "a / b") result [U "b"])%exo st)).
    unfold bind at 1. now rewrite E.
  - change (exo_evaluate h (2 + n) (U "a " ++ U "%" ++ U " b") ln file st) with
      (evaluation_error ln file (U "a % b")
         ((result <- r_eval_arith (knot h (S n)) (U "a") ln file ;;
           multiplicative_loop (fun p => r_eval_arith (knot h (S n)) p ln file) (U "%")
                               ln file (U "a % b") result [U "b"])%exo st)).
    unfold bind at 1. now rewrite E.
Qed.

(* ================================================================== *)
(** * Arithmetic on ints *)
(* ================================================================== *)

Lemma floor_log2_ratio_bound : forall a d b,
  (0 < a)%Z -> (0 < d)%Z -> (0 <= b)%Z -> (a < 2 ^ b * d)%Z ->
  (PyFloat.floor_log2_ratio a d < b)%Z.
Proof.
  intros a d b Ha Hd Hb H. unfold PyFloat.floor_log2_ratio.
  pose proof (Z.log2_nonneg d) as Hld.
  set (g := (Z.log2 a - Z.log2 d)%Z).
  assert (Hg : (g <= b)%Z).
  { assert (Hlt : (a < 2 ^ (b + (Z.log2 d + 1)))%Z).
    { eapply Z.lt_le_trans; [exact H|].
      rewrite Z.pow_add_r by lia.
      apply Z.mul_le_mono_nonneg_l; [apply Z.pow_nonneg; lia|].
      pose proof (Z.log2_spec d Hd). rewrite <- Z.add_1_r in H0. lia. }
    apply Z.log2_lt_pow2 in Hlt; [|exact Ha]. unfold g. lia. }
  destruct (0 <=? g)%Z eqn:E0.
  - destruct (d * 2 ^ g <=? a)%Z eqn:E1; [|lia].
    apply Z.leb_le in E1. apply Z.leb_le in E0.
    destruct (Z.lt_ge_cases g b) as [|Hge]; [assumption|].
    assert (2 ^ b <= 2 ^ g)%Z by (apply Z.pow_le_mono_r; lia).
    assert (2 ^ b * d <= d * 2 ^ g)%Z by (rewrite (Z.mul_comm d); apply Z.mul_le_mono_nonneg_r; lia).
    lia.
  - apply Z.leb_gt in E0. destruct (d <=? a * 2 ^ (- g))%Z; lia.
Qed.

(** A quotient below [2 ^ 1023] in magnitude rounds to a finite double. *)
Lemma round64_in_range : forall n d,
  (0 < d)%Z -> (Z.abs n < 2 ^ 1023 * d)%Z -> PyFloat.round64 n d <> None.
Proof.
  intros n d Hd H. unfold PyFloat.round64.
  destruct (n =? 0)%Z eqn:E; [discriminate|].
  apply Z.eqb_neq in E.
  assert (Ha : (0 < Z.abs n)%Z) by lia.
  pose proof (floor_log2_ratio_bound (Z.abs n) d 1023 Ha Hd ltac:(lia) H) as Hb.
  set (e := PyFloat.floor_log2_ratio (Z.abs n) d) in *.
  cbv zeta.
  assert (Hq : (971 <=? Z.max (e - 52) (-1074))%Z = false) by (apply Z.leb_gt; lia).
  rewrite Hq. discriminate.
Qed.

Lemma int_zero_test : forall y, Py.eq (VInt y) (VInt 0) = Some (y =? 0)%Z.
Proof.
  intros y. unfold Py.eq, Py.as_num, Py.num_compare. rewrite Z.eqb_compare.
  now destruct (y ?= 0)%Z.
Qed.

Lemma bind_ret : forall (A : Type) (m : M A) st, bind m (fun a => ret a) st = m st.
Proof. intros A m st. unfold bind, ret. now destruct (m st) as [[]]. Qed.

(** One round of the multiplicative loop. *)
Lemma multiplicative_loop_one : forall ev op ln file expr result p st val st',
  ev p st = (Ok val, st') ->
  multiplicative_loop ev op ln file expr result [p] st
  = (if str_eqb op (U "*") then Py.mul result val
     else if str_eqb op (U "/")
     then match Py.eq val (VInt 0) with
          | Some true => error value (U "Division by zero") ln file (Some expr)
          | _ => Py.truediv result val
          end
     else Py.mod_ result val) st'.
Proof.
  intros ev op ln file expr result p st val st' H.
  cbn [multiplicative_loop]. unfold bind at 1. rewrite H. apply bind_ret.
Qed.

(** C6, as amended.  With [a] and [b] bound to ints [x] and [y],
    [a + b], [a - b] and [a * b] evaluate to the ints [x + y], [x - y]
    and [x * y].  For [y <> 0], [a / b] evaluates to a Float exactly
    when the quotient rounds to a finite double, which is the case
    whenever [|x| < 2 ^ 1023] (so for all 64-bit ints); a quotient too
    large for a double raises a structured "Evaluation error". *)
Theorem C6_int_arithmetic :
  forall h n ln file st x y,
    sd_get (U "a") (Scope.vars_of (scopes st) (current_scope st)) = Some (VInt x) ->
    sd_get (U "b") (Scope.vars_of (scopes st) (current_scope st)) = Some (VInt y) ->
    exo_evaluate h (2 + n) (U "a + b") ln file st = (Ok (VInt (x + y)), st)
    /\ exo_evaluate h (2 + n) (U "a - b") ln file st = (Ok (VInt (x - y)), st)
    /\ exo_evaluate h (2 + n) (U "a * b") ln file st = (Ok (VInt (x * y)), st)
    /\ (y <> 0%Z -> (Z.abs x < 2 ^ 1023)%Z ->
        exists f, exo_evaluate h (2 + n) (U "a / b") ln file st = (Ok (VFloat f), st))
    /\ (y <> 0%Z -> forall f,
        PyFloat.round64 (Z.sgn y * x) (Z.abs y) = Some f ->
        exo_evaluate h (2 + n) (U "a / b") ln file st = (Ok (VFloat f), st))
    /\ (y <> 0%Z ->
        PyFloat.round64 (Z.sgn y * x) (Z.abs y) = None ->
        raises (fst (exo_evaluate h (2 + n) (U "a / b") ln file st))
               (U "Evaluation error: integer division result too large for a float")
               ln (Some (U "a / b"))).
Proof.
  intros h n ln file st x y Ha Hb.
  assert (Eb : r_eval_arith (knot h (S n)) (U "b") ln file st = (Ok (VInt y), st))
    by now apply eval_arith_b.
  assert (Hdiv : y <> 0%Z ->
            exo_evaluate h (2 + n) (U "a / b") ln file st
            = evaluation_error ln file (U "a / b") (Py.truediv (VInt x) (VInt y) st)).
  { intros Hy.
    etransitivity;
      [exact (eval_multiplicative h n ln file st (VInt x) (VInt y) (U "/")
                (or_intror (or_introl eq_refl)) Ha Hb)|].
    f_equal. rewrite (multiplicative_loop_one (fun p => r_eval_arith (knot h (S n)) p ln file)
                                              _ _ _ _ _ (U "b") st _ _ Eb).
    change (str_eqb (U "/") (U "*")) with false.
    change (str_eqb (U "/") (U "/")) with true. cbv iota.
    rewrite int_zero_test. apply Z.eqb_neq in Hy. now rewrite Hy. }
  assert (Hround : y <> 0%Z ->
            Py.truediv (VInt x) (VInt y) st
            = match PyFloat.round64 (Z.sgn y * x) (Z.abs y) with
              | Some f => (Ok (VFloat f), st)
              | None => (Host OverflowError
                              (Some (U "integer division result too large for a float")), st)
              end).
  { intros Hy. unfold Py.truediv, Py.as_num. apply Z.eqb_neq in Hy. rewrite Hy.
    now destruct (PyFloat.round64 _ _). }
  conj_split.
  - now rewrite (eval_additive h n ln file st _ _ true Ha Hb).
  - now rewrite (eval_additive h n ln file st _ _ false Ha Hb).
  - etransitivity;
      [exact (eval_multiplicative h n ln file st (VInt x) (VInt y) (U "*")
                (or_introl eq_refl) Ha Hb)|].
    now rewrite (multiplicative_loop_one (fun p => r_eval_arith (knot h (S n)) p ln file)
                                              _ _ _ _ _ (U "b") st _ _ Eb).
  - intros Hy Hx. rewrite (Hdiv Hy), (Hround Hy).
    destruct (PyFloat.round64 (Z.sgn y * x) (Z.abs y)) as [f|] eqn:E.
    + now exists f.
    + exfalso. revert E. apply round64_in_range; [lia|].
      assert (Hs : Z.abs (Z.sgn y * x) = Z.abs x)
        by (destruct y; [congruence| |]; simpl Z.sgn; lia).
      rewrite Hs. assert (1 <= Z.abs y)%Z by lia.
      set (B := (2 ^ 1023)%Z) in *.
      assert (0 < B)%Z by (subst B; apply Z.pow_pos_nonneg; lia). nia.
  - intros Hy f E. now rewrite (Hdiv Hy), (Hround Hy), E.
  - intros Hy E. rewrite (Hdiv Hy), (Hround Hy), E.
    unfold evaluation_error, error. cbv [raises fst err_msg err_line err_context].
    split; [vm_compute; reflexivity | split; reflexivity].
Qed.

(** C6 at [x = 7], [y = 2]. *)
Lemma C6_int_arithmetic_witness :
  exo_evaluate no_files 2 (U "a + b") (Some 1%nat) None (two_ints 7 2)
    = (Ok (VInt 9), two_ints 7 2)
  /\ exo_evaluate no_files 2 (U "a - b") (Some 1%nat) None (two_ints 7 2)
    = (Ok (VInt 5), two_ints 7 2)
  /\ exo_evaluate no_files 2 (U "a * b") (Some 1%nat) None (two_ints 7 2)
    = (Ok (VInt 14), two_ints 7 2)
  /\ exo_evaluate no_files 2 (U "a / b") (Some 1%nat) None (two_ints 7 2)
    = (Ok (VFloat (PyFloat.mkfloat 7 (-1))), two_ints 7 2).
Proof.
  destruct (C6_int_arithmetic no_files 0 (Some 1%nat) None (two_ints 7 2) 7%Z 2%Z
              eq_refl eq_refl) as (H1 & H2 & H3 & _ & H5 & _).
  conj_split; try assumption.
  apply H5; [discriminate | vm_compute; reflexivity].
Defined.

(** C6 fails as stated: [a / b] with [a] the int [10 ^ 400] and [b = 1]
    yields no Float but an error, and so does the same division
    written with literals. *)
Lemma C6_counterexample :
  raises (fst (exo_evaluate no_files 2 (U "a / b") (Some 1%nat) None (two_ints (10 ^ 400) 1)))
         (U "Evaluation error: integer division result too large for a float")
         (Some 1%nat) (Some (U "a / b"))
  /\ raises (fst (exo_evaluate no_files 2 (googol4 ++ U " / 1") (Some 1%nat) None
                               initial_state))
            (U "Evaluation error: integer division result too large for a float")
            (Some 1%nat) (Some (googol4 ++ U " / 1")).
Proof. run_it. Qed.

(* ================================================================== *)
(** * Division and modulo by zero *)
(* ================================================================== *)

Lemma numeric_zero : forall val,
  Py.eq val (VInt 0) = Some true ->
  exists y, Py.as_num val = Some y /\ Py.num_compare y (Py.NInt 0) = Eq.
Proof.
  intros val H. unfold Py.eq in H.
  destruct (Py.as_num val) as [y|] eqn:E.
  - exists y. split; [reflexivity|].
    cbn [Py.as_num] in H. destruct (Py.num_compare y (Py.NInt 0)); congruence.
  - destruct val; cbn in E, H; congruence.
Qed.

Lemma float_zero : forall g,
  Py.num_compare (Py.NFloat g) (Py.NInt 0) = Eq -> PyFloat.is_zero g = true.
Proof.
  intros g H. cbn [Py.num_compare] in H. apply Z.compare_eq in H.
  rewrite Z.mul_0_l in H. unfold PyFloat.num_of, PyFloat.is_zero in *.
  apply Z.eqb_eq.
  destruct (0 <=? PyFloat.fe g)%Z eqn:E; [|assumption].
  apply Z.leb_le in E.
  assert (0 < 2 ^ PyFloat.fe g)%Z by (apply Z.pow_pos_nonneg; lia). nia.
Qed.

(** [x % 0] on numbers raises a host exception, with its text. *)
Lemma mod_by_zero : forall a b x st,
  Py.as_num a = Some x -> Py.eq b (VInt 0) = Some true ->
  exists k t, Py.mod_ a b st = (Host k (Some t), st).
Proof.
  intros a b x st Ha Hb. destruct (numeric_zero b Hb) as (y & Hy & Hc).
  unfold Py.mod_. rewrite Ha, Hy.
  destruct x as [xz|xf], y as [yz|yf].
  - cbn [Py.num_compare] in Hc. apply Z.compare_eq in Hc. subst yz.
    cbn. unfold raise_host. eauto.
  - apply float_zero in Hc. unfold bind, Py.to_float.
    destruct (PyFloat.of_int xz); cbn; [rewrite Hc|]; unfold raise_host; eauto.
  - cbn [Py.num_compare] in Hc. apply Z.compare_eq in Hc. subst yz.
    cbn. unfold raise_host. eauto.
  - apply float_zero in Hc. cbn. rewrite Hc. unfold raise_host. eauto.
Qed.

Lemma evaluate_host_safe : forall h rec expr ln file,
  host_safe (evaluate h rec expr ln file).
Proof.
  intros h rec expr ln file st k t. unfold evaluate.
  destruct (_ || _); [discriminate|].
  destruct (uncomment expr); [discriminate|].
  unfold evaluation_error.
  destruct (eval_arith h rec (n :: p) ln file st) as [[v|e|k' [m|]| |] st'];
    cbn; discriminate.
Qed.



(* ================================================================== *)
(** * Calls of user procedures *)
(* ================================================================== *)

Lemma call_user_above_cap : forall rec name f args ln file st texts,
  frame_args args = Some texts ->
  MAX_RECURSION_DEPTH <= List.length (call_stack st) ->
  call_user rec name f args ln file st
  = error value (U "Recursion depth exceeded (" ++ of_nat MAX_RECURSION_DEPTH ++ U ")")
          ln file None
          (set_call_stack
             (call_stack st ++ [name ++ U "(" ++ PyStr.join (U ", ") texts ++ U ")"]) st).
Proof.
  intros rec name f args ln file st texts Hf Hcap. unfold call_user. rewrite Hf.
  unfold bind, modify, get_state. cbv beta iota.
  match goal with |- context [Nat.ltb ?a ?b] => assert (E : Nat.ltb a b = true) end.
  { apply Nat.ltb_lt. unfold set_call_stack. cbn [call_stack].
    rewrite length_app. cbn [List.length]. lia. }
  now rewrite E.
Qed.

Lemma call_user_below_cap : forall rec name f args ln file st texts,
  frame_args args = Some texts ->
  List.length (call_stack st) < MAX_RECURSION_DEPTH ->
  call_user rec name f args ln file st
  = leave_call st (r_run rec (fn_body f) file (call_state name f args texts st)).
Proof.
  intros rec name f args ln file st texts Hf Hcap. unfold call_user. rewrite Hf.
  unfold bind at 1. unfold modify at 1. cbv beta iota.
  unfold bind at 1. unfold get_state at 1. cbv beta iota.
  match goal with |- context [Nat.ltb ?a ?b] => assert (E : Nat.ltb a b = false) end.
  { apply Nat.ltb_ge. unfold set_call_stack. cbn [call_stack].
    rewrite length_app. cbn [List.length]. lia. }
  rewrite E. unfold finally, bind, modify, get_state, Scope.new, leave_call, call_state.
  cbv beta iota zeta. state_simpl.
  match goal with |- context [r_run rec (fn_body f) file ?s] =>
    destruct (r_run rec (fn_body f) file s) as [r st2]
  end.
  reflexivity.
Qed.

(** A [func] line with a parameter list stores the body, the parameter
    names and the scope that is current, under the procedure's name. *)
Lemma exec_func_installs : forall lines line i file st,
  contains (U "(") (func_header line) = true ->
  contains (U ")") (func_header line) = true ->
  exec_func lines line i file st
  = (Ok (Next (snd (collect_block lines (S i)))),
     set_functions
       (sd_set (func_name line)
               (mkfunc (fst (collect_block lines (S i))) (func_params line) (current_scope st))
               (functions st)) st).
Proof.
  intros lines line i file st H1 H2. unfold exec_func. rewrite H1, H2. cbn [negb orb].
  destruct (collect_block lines (S i)) as [body i']. reflexivity.
Qed.

(** The depth check that C8 is about.  A call of a user procedure
    pushes its frame and then checks the depth: with 1000 frames or
    more already on the call stack it raises "Recursion depth
    exceeded (1000)"; with fewer, the body runs with the stack one
    frame deeper.  This is the check as [call_function] makes it,
    given the call stack; whether a program gets that deep is a
    matter of the host's stack, which is not modelled here. *)
Theorem C8_recursion_cap :
  (forall rec name f args ln file st texts,
      frame_args args = Some texts ->
      MAX_RECURSION_DEPTH <= List.length (call_stack st) ->
      raises (fst (call_user rec name f args ln file st))
             (U "Recursion depth exceeded (1000)") ln None)
  /\ (forall rec name f args ln file st texts,
      frame_args args = Some texts ->
      List.length (call_stack st) < MAX_RECURSION_DEPTH ->
      List.length (call_stack (call_state name f args texts st))
      = S (List.length (call_stack st))
      /\ call_user rec name f args ln file st
         = leave_call st (r_run rec (fn_body f) file (call_state name f args texts st))).
Proof.
  split.
  - intros rec name f args ln file st texts Hf Hcap.
    rewrite (call_user_above_cap rec name f args ln file st texts Hf Hcap).
    unfold error. cbv [raises fst err_msg err_line err_context].
    split; [vm_compute; reflexivity | split; reflexivity].
  - intros rec name f args ln file st texts Hf Hcap. split.
    + unfold call_state, set_current_scope, set_scopes, set_call_stack. cbn [call_stack].
      rewrite length_app. cbn [List.length]. lia.
    + now apply call_user_below_cap.
Qed.

(** C8 at a call with 1000 frames on the stack, and at a call on an
    empty stack. *)
Lemma C8_recursion_cap_witness :
  raises (fst (call_user no_fuel (U "f") (mkfunc [U "f()"] [] 0) [] (Some 1%nat) None
                         (set_call_stack (repeat (U "f()") 1000) initial_state)))
         (U "Recursion depth exceeded (1000)") (Some 1%nat) None
  /\ call_user no_fuel (U "f") (mkfunc [U "f()"] [] 0) [] (Some 1%nat) None initial_state
     = leave_call initial_state
         (r_run no_fuel [U "f()"] None
                (call_state (U "f") (mkfunc [U "f()"] [] 0) [] [] initial_state)).
Proof.
  destruct C8_recursion_cap as (Habove & Hbelow).
  split.
  - apply (Habove _ _ _ _ _ _ _ []); [reflexivity|].
    unfold set_call_stack. cbn [call_stack]. rewrite repeat_length. apply le_n.
  - refine (proj2 (Hbelow no_fuel (U "f") (mkfunc [U "f()"] [] 0) [] (Some 1%nat) None
                           initial_state [] eq_refl _)).
    unfold MAX_RECURSION_DEPTH. cbn [initial_state call_stack List.length]. lia.
Defined.

(* ================================================================== *)
(** * Modules *)
(* ================================================================== *)

Lemma import_module_cached : forall h rec path ln file st e,
  sd_get (module_key h path file) (modules st) = Some e ->
  import_module h rec path ln file st = (Ok (VDict e), st).
Proof.
  intros h rec path ln file st e H. unfold import_module. cbv zeta.
  unfold bind, get_state. now rewrite H.
Qed.

Lemma import_module_fresh : forall h rec path ln file st code,
  sd_get (module_key h path file) (modules st) = None ->
  OsPath.read h (module_key h path file) = Some code ->
  import_module h rec path ln file st
  = import_finish (module_key h path file) ln file st
      (r_run rec (split code [10%N]) (Some (module_key h path file))
             (import_state (module_key h path file) (module_file path) st)).
Proof.
  intros h rec path ln file st code Hm Hr. unfold import_module. cbv zeta.
  unfold bind at 1. unfold get_state at 1. cbv beta iota. rewrite Hm, Hr.
  unfold bind, modify, Py.alloc, Scope.new, finally, get_state, import_finish.
  cbv beta iota zeta.
  match goal with |- context [r_run rec ?l ?f ?s] =>
    change s with (import_state (module_key h path file) (module_file path) st)
  end.
  destruct (r_run rec (split code [10%N]) (Some (module_key h path file))
                  (import_state (module_key h path file) (module_file path) st))
    as [[v|e|k [t|]| |] st1]; cbn [fst snd]; state_simpl; try reflexivity.
  destruct (sd_get (module_key h path file) (modules st1)); reflexivity.
Qed.

(** C9.  The table of modules is keyed by the path as
    [import_module] resolves it: the module path with its suffix,
    joined to the directory of the importing file when there is one
    and taken as it is otherwise.  When an import answers with an
    exports map, every later import that resolves to the same key
    answers with the same map object and leaves the state as it was:
    nothing of the module runs a second time, whatever its body is.
    A module that is not loaded yet is registered with an empty
    exports map before its body runs, and the body runs once, in
    that state.  The same file under two keys is two modules: code
    run without a file name (as the interactive mode does) that
    imports [b] and then [a], which imports [b] itself, runs the
    body of [b] twice and gets two maps; run as the file
    [/w/main.exo] it loads [b] once. *)
Theorem C9_import_once :
  (forall h rec path ln file st e st',
      import_module h rec path ln file st = (Ok (VDict e), st') ->
      forall rec' path' ln' file',
        module_key h path' file' = module_key h path file ->
        import_module h rec' path' ln' file' st' = (Ok (VDict e), st'))
  /\ (forall h rec path ln file st code,
      sd_get (module_key h path file) (modules st) = None ->
      OsPath.read h (module_key h path file) = Some code ->
      let key := module_key h path file in
      let st_reg := import_state key (module_file path) st in
      sd_get key (modules st_reg) = Some (List.length (heap st))
      /\ nth_error (heap st_reg) (List.length (heap st)) = Some (ODict [])
      /\ output st_reg = output st
      /\ import_module h rec path ln file st
         = import_finish key ln file st (r_run rec (split code [10%N]) (Some key) st_reg))
  /\ (let r := run one_module 10 (prog ["let a = import('m')"; "let b = import('m')"]%string)
                   None initial_state in
      fst r = Ok VNone
      /\ output (snd r) = [U "loaded"]
      /\ Scope.vars_of (scopes (snd r)) global_scope = [(U "a", VDict 0); (U "b", VDict 0)]
      /\ heap (snd r) = [ODict [(VStr (U "x"), VInt 1)]])
  /\ (let r := run two_modules 12
                   (prog ["let first = import('b')"; "let second = import('a')"]%string)
                   None initial_state in
      fst r = Ok VNone
      /\ output (snd r) = [U "loaded"; U "loaded"]
      /\ modules (snd r) = [(U "b.exo", 0); (U "a.exo", 1); (U "/w/b.exo", 2)]
      /\ global_var (snd r) "first" = Some (VDict 0)
      /\ Scope.vars_of (scopes (snd r)) 2 = [(U "m", VDict 2)])
  /\ (let r := run two_modules 12
                   (prog ["let first = import('b')"; "let second = import('a')"]%string)
                   (Some (U "/w/main.exo")) initial_state in
      fst r = Ok VNone
      /\ output (snd r) = [U "loaded"]
      /\ modules (snd r) = [(U "/w/b.exo", 0); (U "/w/a.exo", 1)]).
Proof.
  split; [|split; [|run_it]].
  - intros h rec path ln file st e st' H rec' path' ln' file' Hkey.
    apply import_module_cached. rewrite Hkey.
    destruct (sd_get (module_key h path file) (modules st)) as [e0|] eqn:Hm.
    + rewrite (import_module_cached h rec path ln file st e0 Hm) in H.
      now inversion H; subst.
    + destruct (OsPath.read h (module_key h path file)) as [code|] eqn:Hr.
      * rewrite (import_module_fresh h rec path ln file st code Hm Hr) in H.
        unfold import_finish in H. cbv zeta in H.
        destruct (fst (r_run rec _ _ _)) as [v|e1|k [t|]| |]; try discriminate.
        match type of H with
        | context [sd_get ?k (modules ?s)] => destruct (sd_get k (modules s)) eqn:E
        end; [|discriminate].
        inversion H; subst. exact E.
      * unfold import_module in H. cbv zeta in H. unfold bind, get_state in H.
        rewrite Hm, Hr in H. discriminate.
  - intros h rec path ln file st code Hm Hr key st_reg. conj_split.
    + unfold st_reg, import_state. cbv zeta. state_simpl. apply sd_get_set_same.
    + unfold st_reg, import_state. cbv zeta. state_simpl.
      rewrite nth_error_app2 by lia. now rewrite Nat.sub_diag.
    + reflexivity.
    + now apply import_module_fresh.
Qed.

(** C9 at the first and the second import of [m] from the directory
    [/w]: the second one answers with the map of the first. *)
Lemma C9_import_once_witness :
  import_module one_module (knot one_module 6) (U "m") (Some 1%nat) None
    (snd (import_module one_module (knot one_module 6) (U "m") (Some 1%nat) None initial_state))
  = (Ok (VDict 0),
     snd (import_module one_module (knot one_module 6) (U "m") (Some 1%nat) None initial_state)).
Proof.
  apply (proj1 C9_import_once one_module (knot one_module 6) (U "m") (Some 1%nat) None
               initial_state 0
               (snd (import_module one_module (knot one_module 6) (U "m") (Some 1%nat) None
                                   initial_state))).
  - vm_compute. reflexivity.
  - reflexivity.
Defined.

(* ================================================================== *)
(** * The table of procedures *)
(* ================================================================== *)

Ltac in_builtins :=
  cbv [In get_builtin_functions]; repeat (first [left; reflexivity | right]).

(** A name that is no built-in is looked up in [functions], and
    nowhere else. *)
Lemma call_function_user : forall h rec name args_str ln file,
  str_in name get_builtin_functions = false ->
  call_function h rec name args_str ln file
  = (args <- parse_args rec args_str ln file ;;
     fun st =>
       match sd_get name (functions st) with
       | Some f => call_user rec name f args ln file st
       | None => error value (U "Function '" ++ name ++ U "' not defined") ln file None st
       end)%exo.
Proof.
  intros h rec name args_str ln file H.
  assert (Hx : forall x, In x get_builtin_functions -> str_eqb name x = false).
  { intros x Hin. exact (existsb_false_in _ _ _ x H Hin). }
  unfold call_function, str_in, host_builtins. cbn [existsb].
  repeat (rewrite Hx by in_builtins).
  cbn [orb]. reflexivity.
Qed.

Lemma exec_line_func : forall rec lines line i file st,
  classify line = SFunc ->
  contains (U "(") (func_header line) = true ->
  contains (U ")") (func_header line) = true ->
  exec_line rec lines line i file st
  = (Ok (Next (snd (collect_block lines (S i)))),
     set_functions
       (sd_set (func_name line)
               (mkfunc (fst (collect_block lines (S i))) (func_params line) (current_scope st))
               (functions st)) st).
Proof.
  intros rec lines line i file st Hc H1 H2. unfold exec_line. rewrite Hc.
  now apply exec_func_installs.
Qed.

(** C10, as amended.  Executing a [func] line, in whatever body and
    with whatever scope current, stores the procedure in the one
    table [functions] under its name, replacing an entry of that name,
    and touches no scope.  A call of a name that is not a built-in is
    resolved in that table alone: the scope chain is not consulted.
    So a procedure defined inside another procedure's body, inside a
    module or inside a route body is callable from everywhere once
    the definition has run, while a variable is never callable. *)
Theorem C10_global_function_table :
  (forall rec lines line i file st,
      classify line = SFunc ->
      contains (U "(") (func_header line) = true ->
      contains (U ")") (func_header line) = true ->
      let r := exec_line rec lines line i file st in
      let f := mkfunc (fst (collect_block lines (S i))) (func_params line) (current_scope st) in
      fst r = Ok (Next (snd (collect_block lines (S i))))
      /\ functions (snd r) = sd_set (func_name line) f (functions st)
      /\ sd_get (func_name line) (functions (snd r)) = Some f
      /\ scopes (snd r) = scopes st)
  /\ (forall h rec name args_str ln file,
      str_in name get_builtin_functions = false ->
      call_function h rec name args_str ln file
      = (args <- parse_args rec args_str ln file ;;
         fun st =>
           match sd_get name (functions st) with
           | Some f => call_user rec name f args ln file st
           | None =>
             error value (U "Function '" ++ name ++ U "' not defined") ln file None st
           end)%exo)
  /\ (let r := run no_files 8
                   (prog ["func outer()"; "func inner()"; "return 7"; "end"; "return 1"; "end";
                          "func user()"; "return inner()"; "end";
                          "let a = outer()"; "let b = inner()"; "let c = user()"]%string)
                   None initial_state in
      fst r = Ok VNone
      /\ global_var (snd r) "a" = Some (VInt 1)
      /\ global_var (snd r) "b" = Some (VInt 7)
      /\ global_var (snd r) "c" = Some (VInt 7))
  /\ raises (fst (run no_files 8
                      (prog ["func outer()"; "func inner()"; "return 7"; "end"; "return 1";
                             "end"; "let b = inner()"]%string) None initial_state))
            (U "Function 'inner' not defined") (Some 7%nat) None
  /\ (let r := run lib_module 8 (prog ["import('lib')"; "let c = helper()"]%string)
                   None initial_state in
      fst r = Ok VNone /\ global_var (snd r) "c" = Some (VInt 42))
  /\ (let st := snd (run no_files 8
                         (prog ["route /r"; "func late()"; "return 3"; "end"; "end"]%string)
                         None initial_state) in
      raises (fst (exo_evaluate no_files 8 (U "late()") (Some 1%nat) None st))
             (U "Function 'late' not defined") (Some 1%nat) None
      /\ fst (exo_evaluate no_files 8 (U "late()") (Some 1%nat) None
                           (snd (do_GET no_files 8 (U "/r") [] st)))
         = Ok (VInt 3))
  /\ raises (fst (run no_files 8 (prog ["let g = 5"; "g()"]%string) None initial_state))
            (U "Function 'g' not defined") (Some 2%nat) None.
Proof.
  split; [|split; [|run_it]].
  - intros rec lines line i file st Hc H1 H2 r f. subst r f.
    rewrite (exec_line_func rec lines line i file st Hc H1 H2). cbn [fst snd].
    state_simpl. conj_split; try reflexivity. apply sd_get_set_same.
  - exact call_function_user.
Qed.

(** C10 at the line [func f()] of a two-line program, and at a call of
    the name [f]. *)
Lemma C10_global_function_table_witness :
  functions (snd (exec_line no_fuel (prog ["func f()"; "end"]%string) (U "func f()") 0 None
                            initial_state))
  = [(U "f", mkfunc [] [] 0)]
  /\ call_function no_files no_fuel (U "f") [] (Some 1%nat) None initial_state
     = error value (U "Function '" ++ U "f" ++ U "' not defined") (Some 1%nat) None None
             initial_state.
Proof.
  destruct C10_global_function_table as (Hdef & Hcall & _).
  split.
  - destruct (Hdef no_fuel (prog ["func f()"; "end"]%string) (U "func f()") 0 None
                   initial_state eq_refl eq_refl eq_refl) as (_ & H & _).
    rewrite H. vm_compute. reflexivity.
  - rewrite (Hcall no_files no_fuel (U "f") [] (Some 1%nat) None eq_refl). reflexivity.
Defined.

(** C10 fails as stated for a procedure named like a built-in: after
    [func len() ... end] the table holds [len], yet the call [len()]
    reaches the built-in, which rejects it. *)
Lemma C10_counterexample :
  let st := snd (run no_files 3 (prog ["func len()"; "return 1"; "end"]%string)
                     None initial_state) in
  sd_get (U "len") (functions st) = Some (mkfunc [U "return 1"] [] global_scope)
  /\ raises (fst (exo_evaluate no_files 5 (U "len()") (Some 4%nat) None st))
            (U "len requires one argument") (Some 4%nat) None.
Proof. cbv zeta. run_it. Qed.

(* ================================================================== *)
(** * Closures *)
(* ================================================================== *)

Lemma vars_of_fresh : forall ss sc, Scope.vars_of (ss ++ [sc]) (List.length ss) = sc_vars sc.
Proof.
  intros ss sc. unfold Scope.vars_of.
  rewrite nth_error_app2 by lia. now rewrite Nat.sub_diag.
Qed.

Lemma vars_of_old : forall ss l s,
  s < List.length ss -> Scope.vars_of (ss ++ l) s = Scope.vars_of ss s.
Proof.
  intros ss l s H. unfold Scope.vars_of. now rewrite nth_error_app1.
Qed.

Lemma parent_of_fresh : forall ss p n vs,
  p < List.length ss ->
  Scope.parent_of (ss ++ [mkscope (Some p) n vs]) (List.length ss) = Some p.
Proof.
  intros ss p n vs H. unfold Scope.parent_of.
  rewrite nth_error_app2 by lia. rewrite Nat.sub_diag. cbn [nth_error sc_parent].
  apply Nat.ltb_lt in H. now rewrite H.
Qed.

(** A name bound in the captured scope is visible from the fresh scope
    of a call, with the value it has at the time of the call. *)
Lemma closure_lookup : forall ss p n name val,
  p < List.length ss ->
  sd_get name (Scope.vars_of ss p) = Some val ->
  let ss' := ss ++ [mkscope (Some p) n []] in
  Scope.exists_ ss' (List.length ss) name = true
  /\ Scope.get_from (S (List.length ss)) ss' (List.length ss) name = Some val.
Proof.
  intros ss p n name val Hp Hv ss'. unfold Scope.exists_, ss'.
  cbn [Scope.exists_from Scope.get_from]. unfold sd_mem.
  rewrite vars_of_fresh, parent_of_fresh by assumption. cbn [sc_vars sd_get].
  destruct (List.length ss) as [|m] eqn:E; [lia|].
  cbn [Scope.exists_from Scope.get_from]. unfold sd_mem.
  rewrite vars_of_old by lia. now rewrite Hv.
Qed.

Lemma evaluate_v : forall h rec ln file st val,
  Scope.exists_ (scopes st) (current_scope st) (U "v") = true ->
  Scope.get (current_scope st) (U "v") st = (Ok val, st) ->
  evaluate h rec (U "v") ln file st = (Ok val, st).
Proof.
  intros h rec ln file st val He Hg.
  change (evaluate h rec (U "v") ln file st)
    with (evaluation_error ln file (U "v") (eval_arith h rec (U "v") ln file st)).
  now rewrite (eval_arith_v h rec ln file st val He Hg).
Qed.

Lemma run_return_v : forall rec file st val st',
  r_evaluate rec (U "v") (Some 1) file st = (Ok val, st') ->
  run_lines rec [U "return v"] file st = (Ok val, st').
Proof.
  intros rec file st val st' H.
  change (run_lines rec [U "return v"] file st)
    with (bind (unexpected 0 file (U "return v")
                           (bind (r_evaluate rec (U "v") (Some 1) file)
                                 (fun v => ret (Return v))))
               (fun r => match r with
                         | Return v => ret v
                         | Next i' => run_loop rec 1 [U "return v"] file (S i')
                         end) st).
  unfold bind, unexpected, ret. now rewrite H.
Qed.

Lemma set_local_is_write : forall ss s name v,
  Scope.set ss s name v true = Scope.write ss s name v.
Proof. reflexivity. Qed.

Lemma write_other : forall ss s name v t,
  t <> s -> nth_error (Scope.write ss s name v) t = nth_error ss t.
Proof.
  intros ss s name v t H. unfold Scope.write.
  destruct (nth_error ss s); [|reflexivity].
  apply nth_error_list_set_other. congruence.
Qed.

Lemma write_parent : forall ss s name v t,
  option_map sc_parent (nth_error (Scope.write ss s name v) t)
  = option_map sc_parent (nth_error ss t).
Proof.
  intros ss s name v t. destruct (Nat.eq_dec t s) as [->|Hne].
  - unfold Scope.write. destruct (nth_error ss s) as [sc|] eqn:E.
    + rewrite (nth_error_list_set_same _ ss s _ sc E). try rewrite E. reflexivity.
    + try rewrite E. reflexivity.
  - now rewrite write_other.
Qed.

Lemma bind_params_other : forall names args ss fs t,
  t <> fs -> nth_error (bind_params ss fs names args) t = nth_error ss t.
Proof.
  induction names as [|n names IH]; intros args ss fs t H; [reflexivity|].
  destruct args as [|a args]; cbn [bind_params]; rewrite IH by assumption;
    rewrite set_local_is_write; now apply write_other.
Qed.

Lemma bind_params_parent : forall names args ss fs t,
  option_map sc_parent (nth_error (bind_params ss fs names args) t)
  = option_map sc_parent (nth_error ss t).
Proof.
  induction names as [|n names IH]; intros args ss fs t; [reflexivity|].
  destruct args as [|a args]; cbn [bind_params]; rewrite IH;
    rewrite set_local_is_write; apply write_parent.
Qed.

Lemma evaluate_call_p : forall h rec ln file st f,
  sd_get (U "p") (functions st) = Some f ->
  evaluate h rec (U "p()") ln file st
  = evaluation_error ln file (U "p()") (call_user rec (U "p") f [] ln file st).
Proof.
  intros h rec ln file st f H.
  change (evaluate h rec (U "p()") ln file st) with
    (evaluation_error ln file (U "p()")
       (if sd_mem (U "p") (functions st)
        then match sd_get (U "p") (functions st) with
             | Some f => call_user rec (U "p") f [] ln file st
             | None => error value (U "Function 'p' not defined") ln file None st
             end
        else match sd_get (U "p") (functions st) with
             | Some f => call_user rec (U "p") f [] ln file st
             | None => error value (U "Function 'p' not defined") ln file None st
             end)).
  rewrite H. now destruct (sd_mem _ _).
Qed.

(** C4.  A [func] line stores the index of the scope that is current,
    not a copy of it.  A call runs the body in a scope that did not
    exist before, whose parent is that stored scope, and leaves every
    older scope as it is.  Hence a procedure [p] whose body reads [v]
    returns whatever [v] holds in the captured scope when [p] is
    called: after any update of [v] there, the next call sees the new
    value. *)
Theorem C4_closure_by_reference :
  (forall rec lines line i file st,
      classify line = SFunc ->
      contains (U "(") (func_header line) = true ->
      contains (U ")") (func_header line) = true ->
      option_map fn_scope
        (sd_get (func_name line) (functions (snd (exec_line rec lines line i file st))))
      = Some (current_scope st))
  /\ (forall name f args texts st,
      let st_body := call_state name f args texts st in
      current_scope st_body = List.length (scopes st)
      /\ nth_error (scopes st) (current_scope st_body) = None
      /\ option_map sc_parent (nth_error (scopes st_body) (current_scope st_body))
         = Some (Some (fn_scope f))
      /\ (forall t, t <> current_scope st_body ->
                    nth_error (scopes st_body) t = nth_error (scopes st) t)
      /\ (forall rec ln file,
             frame_args args = Some texts ->
             List.length (call_stack st) < MAX_RECURSION_DEPTH ->
             call_user rec name f args ln file st
             = leave_call st (r_run rec (fn_body f) file st_body)))
  /\ (forall h n ln file st s val,
      sd_get (U "p") (functions st) = Some (mkfunc [U "return v"] [] s) ->
      s < List.length (scopes st) ->
      sd_get (U "v") (Scope.vars_of (scopes st) s) = Some val ->
      List.length (call_stack st) < MAX_RECURSION_DEPTH ->
      fst (exo_evaluate h (3 + n) (U "p()") ln file st) = Ok val)
  /\ (forall st s val,
      s < List.length (scopes st) ->
      sd_get (U "v")
             (Scope.vars_of (Scope.set (scopes st) s (U "v") val true) s) = Some val
      /\ List.length (Scope.set (scopes st) s (U "v") val true) = List.length (scopes st))
  /\ (let r := run no_files 8
                   (prog ["let v = 1"; "func p()"; "return v"; "end"; "let r1 = p()";
                          "v = 2"; "let r2 = p()";
                          "func bump()"; "v = v + 40"; "end"; "bump()"; "let r3 = p()"]%string)
                   None initial_state in
      fst r = Ok VNone
      /\ global_var (snd r) "r1" = Some (VInt 1)
      /\ global_var (snd r) "r2" = Some (VInt 2)
      /\ global_var (snd r) "r3" = Some (VInt 42))
  /\ (let r := run no_files 8
                   (prog ["func make()"; "let n = 7"; "func inner()"; "return n"; "end";
                          "n = n + 1"; "return inner()"; "end";
                          "let a = make()"; "let b = inner()"]%string)
                   None initial_state in
      fst r = Ok VNone
      /\ global_var (snd r) "a" = Some (VInt 8)
      /\ global_var (snd r) "b" = Some (VInt 8)).
Proof.
  split; [|split; [|split; [|split; [|run_it]]]].
  - intros rec lines line i file st Hc H1 H2.
    rewrite (exec_line_func rec lines line i file st Hc H1 H2). cbn [snd].
    state_simpl. now rewrite sd_get_set_same.
  - intros name f args texts st st_body. subst st_body. unfold call_state. cbv zeta.
    state_simpl. conj_split.
    + reflexivity.
    + apply nth_error_None. lia.
    + rewrite bind_params_parent. rewrite nth_error_app2 by lia.
      now rewrite Nat.sub_diag.
    + intros t Ht. rewrite bind_params_other by assumption.
      destruct (Nat.lt_ge_cases t (List.length (scopes st))) as [Hlt|Hge].
      * now rewrite nth_error_app1.
      * assert (Hn : nth_error (scopes st) t = None) by (apply nth_error_None; lia).
        rewrite Hn. apply nth_error_None. rewrite length_app. cbn [List.length]. lia.
    + intros rec ln file Hf Hcap.
      now rewrite (call_user_below_cap rec name f args ln file st texts Hf Hcap).
  - intros h n ln file st s val Hf Hs Hv Hcap.
    change (exo_evaluate h (3 + n) (U "p()") ln file st)
      with (evaluate h (knot h (2 + n)) (U "p()") ln file st).
    rewrite (evaluate_call_p h (knot h (2 + n)) ln file st _ Hf).
    rewrite (call_user_below_cap (knot h (2 + n)) (U "p") _ [] ln file st [] eq_refl Hcap).
    cbn [fn_body].
    change (r_run (knot h (2 + n))) with (run_lines (knot h (S n))).
    set (st_body := call_state (U "p") (mkfunc [U "return v"] [] s) [] [] st).
    assert (Hrun : run_lines (knot h (S n)) [U "return v"] file st_body = (Ok val, st_body)).
    { apply run_return_v.
      change (r_evaluate (knot h (S n))) with (evaluate h (knot h n)).
      destruct (closure_lookup (scopes st) s (U "func:" ++ U "p") (U "v") val Hs Hv)
        as [He Hg].
      apply evaluate_v.
      - exact He.
      - apply scope_get_from. exact Hg. }
    rewrite Hrun. reflexivity.
  - intros st s val Hs. rewrite set_local_is_write. unfold Scope.write, Scope.vars_of.
    destruct (nth_error (scopes st) s) as [sc|] eqn:E.
    + rewrite (nth_error_list_set_same _ (scopes st) s _ sc E). cbn [sc_vars].
      split; [apply sd_get_set_same|].
      clear. revert s. induction (scopes st) as [|a l IH]; intros [|s]; cbn;
        try reflexivity. now rewrite IH.
    + apply nth_error_None in E. lia.
Qed.

(** C4 on the state left by [let v = 1], [func p()], [return v],
    [end], [v = 2]: the call [p()] returns 2. *)
Lemma C4_closure_by_reference_witness :
  fst (exo_evaluate no_files 3 (U "p()") (Some 1%nat) None
         (snd (run no_files 8
                   (prog ["let v = 1"; "func p()"; "return v"; "end"; "v = 2"]%string)
                   None initial_state)))
  = Ok (VInt 2).
Proof.
  destruct C4_closure_by_reference as (_ & _ & Hcall & _).
  apply (Hcall no_files 0 (Some 1%nat) None _ 0 (VInt 2)).
  - vm_compute. reflexivity.
  - vm_compute. lia.
  - vm_compute. reflexivity.
  - vm_compute. lia.
Defined.

(* ================================================================== *)
(** * Declaration and assignment *)
(* ================================================================== *)

Lemma names_mem : forall name (d : list (pystr * value)),
  str_in name (map fst d) = sd_mem name d.
Proof.
  intros name d. unfold str_in, sd_mem.
  induction d as [|[k v] d IH]; cbn [map existsb sd_get fst]; [reflexivity|].
  destruct (str_eqb name k); [reflexivity | exact IH].
Qed.

Lemma all_names_exists : forall f ss s name,
  str_in name (Scope.all_names_from f ss s) = Scope.exists_from f ss s name.
Proof.
  induction f as [|f IH]; intros ss s name; [reflexivity|].
  cbn [Scope.all_names_from Scope.exists_from]. unfold str_in in *.
  rewrite existsb_app. fold (str_in name (map fst (Scope.vars_of ss s))).
  rewrite names_mem.
  destruct (sd_mem name (Scope.vars_of ss s)); [reflexivity|]. cbn [orb].
  destruct (Scope.parent_of ss s); [apply IH | reflexivity].
Qed.

Lemma parent_below : forall ss s p, Scope.parent_of ss s = Some p -> p < s.
Proof.
  intros ss s p H. unfold Scope.parent_of in H.
  destruct (nth_error ss s) as [sc|]; [|discriminate].
  destruct (sc_parent sc) as [q|]; [|discriminate].
  destruct (q <? s) eqn:E; [|discriminate].
  inversion H; subst. now apply Nat.ltb_lt.
Qed.

Lemma exists_owner : forall f ss s name,
  Scope.exists_from f ss s name = true ->
  exists o, Scope.owner_from f ss s name = Some o
            /\ o <= s
            /\ sd_mem name (Scope.vars_of ss o) = true
            /\ (sd_mem name (Scope.vars_of ss s) = true -> o = s).
Proof.
  induction f as [|f IH]; intros ss s name H; [discriminate|].
  cbn [Scope.exists_from Scope.owner_from] in *.
  destruct (sd_mem name (Scope.vars_of ss s)) eqn:E.
  - exists s. auto.
  - destruct (Scope.parent_of ss s) as [p|] eqn:Ep; [|discriminate].
    destruct (IH ss p name H) as (o & Ho & Hle & Hm & _).
    exists o. pose proof (parent_below ss s p Ep).
    repeat split; try assumption; [lia | discriminate].
Qed.

Lemma write_length : forall ss s name v,
  List.length (Scope.write ss s name v) = List.length ss.
Proof.
  intros ss s name v. unfold Scope.write. destruct (nth_error ss s); [|reflexivity].
  generalize (mkscope (sc_parent s0) (sc_name s0) (sd_set name v (sc_vars s0))).
  clear. revert s. induction ss as [|a l IH]; intros [|s] x; cbn; try reflexivity.
  now rewrite IH.
Qed.

Lemma parent_of_write : forall ss o name v t,
  Scope.parent_of (Scope.write ss o name v) t = Scope.parent_of ss t.
Proof.
  intros ss o name v t. unfold Scope.parent_of.
  pose proof (write_parent ss o name v t) as H.
  destruct (nth_error (Scope.write ss o name v) t) as [a|],
           (nth_error ss t) as [b|]; cbn in H; try discriminate; [|reflexivity].
  inversion H as [H1]. now rewrite H1.
Qed.

Lemma vars_of_write_other : forall ss o name v t,
  t <> o -> Scope.vars_of (Scope.write ss o name v) t = Scope.vars_of ss t.
Proof.
  intros ss o name v t H. unfold Scope.vars_of. now rewrite write_other.
Qed.

Lemma vars_of_write_same : forall ss o name v,
  sd_mem name (Scope.vars_of ss o) = true ->
  sd_get name (Scope.vars_of (Scope.write ss o name v) o) = Some v.
Proof.
  intros ss o name v H. unfold Scope.vars_of, Scope.write in *.
  destruct (nth_error ss o) as [sc|] eqn:E; [|discriminate].
  rewrite (nth_error_list_set_same _ ss o _ sc E). cbn [sc_vars]. apply sd_get_set_same.
Qed.

Lemma get_after_write : forall f ss s name v o,
  Scope.owner_from f ss s name = Some o ->
  sd_mem name (Scope.vars_of ss o) = true ->
  Scope.get_from f (Scope.write ss o name v) s name = Some v.
Proof.
  induction f as [|f IH]; intros ss s name v o Ho Hm; [discriminate|].
  cbn [Scope.owner_from Scope.get_from] in *.
  destruct (sd_mem name (Scope.vars_of ss s)) eqn:E.
  - inversion Ho; subst. now rewrite vars_of_write_same.
  - destruct (Scope.parent_of ss s) as [p|] eqn:Ep; [|discriminate].
    assert (Hne : s <> o).
    { intros ->. congruence. }
    rewrite vars_of_write_other by assumption.
    unfold sd_mem in E. destruct (sd_get name (Scope.vars_of ss s)); [discriminate|].
    rewrite parent_of_write, Ep. now apply IH.
Qed.

(** C3.  A declaration writes the name into the current scope and
    into no other: an outer binding of that name is shadowed, never
    overwritten.  A line that [run] takes for a plain assignment
    writes to the nearest scope of the chain that holds the name,
    and a later lookup from the assigning scope finds the new value;
    when the name does not resolve it raises the structured error
    "Variable ... not defined - use 'let' to declare it first".  The
    two programs of the specification yield 2 and 1.  But [run]
    takes no line that holds both parentheses for an assignment: it
    hands [x = (2)] and [n = len(xs)] to [evaluate] as they are,
    which raises "Invalid expression", writes nothing, and reports
    no undeclared name either; a declaration with the same right-hand
    side works. *)
Theorem C3_declare_vs_assign :
  (forall ss s name v sc,
      nth_error ss s = Some sc ->
      nth_error (Scope.set ss s name v true) s
      = Some (mkscope (sc_parent sc) (sc_name sc) (sd_set name v (sc_vars sc)))
      /\ Scope.get_from (S s) (Scope.set ss s name v true) s name = Some v
      /\ forall t, t <> s -> nth_error (Scope.set ss s name v true) t = nth_error ss t)
  /\ (forall ss s name v,
      Scope.exists_ ss s name = true ->
      exists o,
        Scope.owner_from (S s) ss s name = Some o
        /\ o <= s
        /\ sd_mem name (Scope.vars_of ss o) = true
        /\ (sd_mem name (Scope.vars_of ss s) = true -> o = s)
        /\ Scope.set ss s name v false = Scope.write ss o name v
        /\ (forall t, t <> o -> nth_error (Scope.set ss s name v false) t = nth_error ss t)
        /\ Scope.get_from (S s) (Scope.set ss s name v false) s name = Some v)
  /\ (forall rec lines line i file st v st',
      classify line = SDecl ->
      item_form (decl_rest line) = false ->
      contains (U "=") (decl_rest line) = true ->
      isidentifier (decl_name line) = Some true ->
      r_evaluate rec (strip (decl_value line)) (Some (S i)) file st = (Ok v, st') ->
      exec_line rec lines line i file st
      = (Ok (Next i),
         set_scopes (Scope.set (scopes st') (current_scope st') (decl_name line) v true) st'))
  /\ (forall rec lines line i file st,
      classify line = SAssign ->
      contains (U "[") (assign_name line) = false ->
      contains (U ".") (assign_name line) = false ->
      (Scope.exists_ (scopes st) (current_scope st) (assign_name line) = false ->
       exec_line rec lines line i file st
       = error flow (U "Variable '" ++ assign_name line
                     ++ U "' not defined - use 'let' to declare it first")
               (Some (S i)) file (Some line) st)
      /\ (Scope.exists_ (scopes st) (current_scope st) (assign_name line) = true ->
          forall v st',
            r_evaluate rec (strip (assign_value line)) (Some (S i)) file st = (Ok v, st') ->
            exec_line rec lines line i file st
            = (Ok (Next i),
               set_scopes (Scope.set (scopes st') (current_scope st') (assign_name line)
                                     v false) st')))
  /\ (let r := run no_files 6
                   (prog ["let x = 1"; "func f()"; "x = 2"; "end"; "f()"]%string)
                   None initial_state in
      fst r = Ok VNone
      /\ global_var (snd r) "x" = Some (VInt 2)
      /\ fst (exo_evaluate no_files 2 (U "x") (Some 6%nat) None (snd r)) = Ok (VInt 2)
      /\ Scope.vars_of (scopes (snd r)) 1 = [])
  /\ (let r := run no_files 6
                   (prog ["let x = 1"; "func g()"; "let x = 5"; "end"; "g()"]%string)
                   None initial_state in
      fst r = Ok VNone
      /\ global_var (snd r) "x" = Some (VInt 1)
      /\ fst (exo_evaluate no_files 2 (U "x") (Some 6%nat) None (snd r)) = Ok (VInt 1)
      /\ Scope.vars_of (scopes (snd r)) 1 = [(U "x", VInt 5)])
  /\ raises (fst (run no_files 6 (prog ["y = 3"]%string) None initial_state))
            (U "Variable 'y' not defined - use 'let' to declare it first")
            (Some 1%nat) (Some (U "y = 3"))
  /\ raises (fst (run no_files 6 (prog ["func h()"; "z = 1"; "end"; "h()"]%string)
                      None initial_state))
            (U "Variable 'z' not defined - use 'let' to declare it first")
            (Some 1%nat) (Some (U "z = 1"))
  /\ (let r := run no_files 6 (prog ["let x = 1"; "x = (2)"]%string) None initial_state in
      raises (fst r) (U "Invalid expression: x = (2)") (Some 2%nat) (Some (U "x = (2)"))
      /\ global_var (snd r) "x" = Some (VInt 1))
  /\ (let r := run no_files 6 (prog ["let xs = [1, 2]"; "let n = 0"; "n = len(xs)"]%string)
                   None initial_state in
      raises (fst r) (U "Invalid expression: n = len(xs)") (Some 3%nat)
             (Some (U "n = len(xs)"))
      /\ global_var (snd r) "n" = Some (VInt 0))
  /\ raises (fst (run no_files 6 (prog ["y = (2)"]%string) None initial_state))
            (U "Invalid expression: y = (2)") (Some 1%nat) (Some (U "y = (2)"))
  /\ (let r := run no_files 6 (prog ["let x = (2)"; "let n = len('ab')"]%string)
                   None initial_state in
      fst r = Ok VNone
      /\ global_var (snd r) "x" = Some (VInt 2)
      /\ global_var (snd r) "n" = Some (VInt 2)).
Proof.
  split; [|split; [|split; [|split; [|run_it]]]].
  - intros ss s name v sc Hs. rewrite set_local_is_write. conj_split.
    + unfold Scope.write. rewrite Hs. apply (nth_error_list_set_same _ ss s _ sc Hs).
    + cbn [Scope.get_from]. unfold Scope.vars_of, Scope.write. rewrite Hs.
      rewrite (nth_error_list_set_same _ ss s _ sc Hs). cbn [sc_vars].
      now rewrite sd_get_set_same.
    + intros t Ht. now apply write_other.
  - intros ss s name v He. unfold Scope.exists_ in He.
    destruct (exists_owner (S s) ss s name He) as (o & Ho & Hle & Hm & Hs).
    assert (Hset : Scope.set ss s name v false = Scope.write ss o name v).
    { unfold Scope.set, Scope.get_all_names. rewrite all_names_exists, He.
      cbn [orb negb]. now rewrite Ho. }
    exists o. rewrite Hset. conj_split; try assumption.
    + reflexivity.
    + intros t Ht. now apply write_other.
    + now apply get_after_write.
  - intros rec lines line i file st v st' Hc Hi He Hid Hv.
    unfold exec_line. rewrite Hc. unfold exec_decl. cbv zeta.
    rewrite Hi, He, Hid. cbn [negb].
    unfold unexpected, bind. rewrite Hv. reflexivity.
  - intros rec lines line i file st Hc Hb Hd. unfold exec_line. rewrite Hc.
    unfold exec_assign. cbv zeta. rewrite Hb, Hd. split.
    + intros Hn. now rewrite Hn.
    + intros He v st' Hv. rewrite He. cbn [negb].
      unfold unexpected, bind. rewrite Hv. reflexivity.
Qed.

(** C3 on the scope of a call under a global scope that holds
    [x = 1]: declaring [x] there leaves the global [x] alone, and
    assigning to [x] from there reaches the global one. *)
Lemma C3_declare_vs_assign_witness :
  Scope.get_from 2 (Scope.set shadow_scopes 1 (U "x") (VInt 5) true) 1 (U "x")
  = Some (VInt 5)
  /\ nth_error (Scope.set shadow_scopes 1 (U "x") (VInt 5) true) 0
     = nth_error shadow_scopes 0
  /\ Scope.get_from 2 (Scope.set shadow_scopes 1 (U "x") (VInt 2) false) 1 (U "x")
     = Some (VInt 2).
Proof.
  destruct C3_declare_vs_assign as (Hdecl & Hassign & _).
  destruct (Hdecl shadow_scopes 1 (U "x") (VInt 5) (mkscope (Some 0) (U "func:f") [])
                  eq_refl) as (_ & H2 & H3).
  destruct (Hassign shadow_scopes 1 (U "x") (VInt 2) eq_refl) as (o & _ & _ & _ & _ & _ & _ & H).
  split; [exact H2 | split; [apply H3; discriminate | exact H]].
Defined.

(* ================================================================== *)
(** * Return *)
(* ================================================================== *)

Lemma skip_line_kind : forall line,
  skip_line line = true ->
  classify line = SCall \/ classify line = SAssign \/ classify line = SExpr.
Proof.
  intros [|c r] H.
  - right. right. reflexivity.
  - unfold skip_line in H. cbn [orb startswith] in H.
    apply andb_true_iff in H. destruct H as [H _]. apply N.eqb_eq in H. subst c.
    vm_compute.
    repeat match goal with |- context [if ?c then _ else _] => destruct c end; auto.
Qed.

Lemma keyword_not_skipped : forall line k,
  classify line = k ->
  k <> SCall -> k <> SAssign -> k <> SExpr ->
  skip_line line = false.
Proof.
  intros line k Hc H1 H2 H3. destruct (skip_line line) eqn:E; [|reflexivity].
  destruct (skip_line_kind line E) as [H|[H|H]]; congruence.
Qed.

(** One round of the loop of [run] on a line that is no blank. *)
Lemma run_loop_step : forall rec m lines file i raw st,
  nth_error lines i = Some raw ->
  skip_line (strip raw) = false ->
  run_loop rec (S m) lines file i st
  = bind (exec_line rec lines (strip raw) i file)
         (fun r => match r with
                   | Return v => ret v
                   | Next i' => run_loop rec m lines file (S i')
                   end) st.
Proof.
  intros rec m lines file i raw st Hn Hs. cbn [run_loop]. rewrite Hn. cbv zeta.
  now rewrite Hs.
Qed.

(** An [if] line whose condition holds runs its body. *)
Ltac if_taken Hc Hb Hcond Ht Hrun :=
  unfold exec_line; rewrite Hc; unfold exec_if; cbn [if_chain]; rewrite Hb;
  match goal with |- context [slice_from ?l (if_prefix ?l)] => fold (if_cond l) end;
  unfold bind at 1; unfold bind at 1; unfold unexpected at 1; rewrite Hcond;
  unfold bind at 1; unfold truthy_m at 1; rewrite Ht;
  unfold bind at 1; unfold unexpected at 1; rewrite Hrun; unfold ret at 1.

(** C2 at its failing inputs.  A [return null] directly in the body
    of a procedure ends the call at once, and so does a nested
    [return] of a value that is not Null.  A [return null] nested in
    an [if], an [else], a [while] or a [for] block is lost: the block
    hands up Null, which its caller reads as "no return", so the
    lines after the block run (the procedures below print [after]
    and return 5), and a loop goes on with its next round.  A
    [return] line without expression is not a return but the
    expression [return], and the Arabic keyword loses the first
    character of its expression. *)
Theorem C2_nested_null_return :
  (let r := run no_files 12
                (prog ["func d()"; "return null"; "print('after')"; "return 5"; "end";
                       "let r = d()"]%string)
                None initial_state in
   fst r = Ok VNone /\ output (snd r) = [] /\ global_var (snd r) "r" = Some VNone)
  /\ (let r := run no_files 12
                   (prog ["func n()"; "if true"; "return 1"; "end"; "print('after')";
                          "return 5"; "end"; "let r = n()"]%string)
                   None initial_state in
      fst r = Ok VNone /\ output (snd r) = [] /\ global_var (snd r) "r" = Some (VInt 1))
  /\ (let r := run no_files 12
                   (prog ["func f()"; "if true"; "return null"; "end"; "print('after')";
                          "return 5"; "end"; "let r = f()"]%string)
                   None initial_state in
      fst r = Ok VNone /\ output (snd r) = [U "after"]
      /\ global_var (snd r) "r" = Some (VInt 5))
  /\ (let r := run no_files 12
                   (prog ["func e()"; "if false"; "print('no')"; "else"; "return null"; "end";
                          "print('after')"; "return 5"; "end"; "let r = e()"]%string)
                   None initial_state in
      fst r = Ok VNone /\ output (snd r) = [U "after"]
      /\ global_var (snd r) "r" = Some (VInt 5))
  /\ (let r := run no_files 12
                   (prog ["func w()"; "let i = 0"; "while i < 2"; "i = i + 1"; "return null";
                          "end"; "print('after')"; "return i"; "end"; "let r = w()"]%string)
                   None initial_state in
      fst r = Ok VNone /\ output (snd r) = [U "after"]
      /\ global_var (snd r) "r" = Some (VInt 2))
  /\ (let r := run no_files 12
                   (prog ["func l()"; "for x in [1, 2]"; "print(x)"; "return null"; "end";
                          "print('after')"; "return 5"; "end"; "let r = l()"]%string)
                   None initial_state in
      fst r = Ok VNone /\ output (snd r) = [U "1"; U "2"; U "after"]
      /\ global_var (snd r) "r" = Some (VInt 5))
  /\ raises (fst (run no_files 12 (prog ["func g()"; "return"; "end"; "g()"]%string)
                      None initial_state))
            (U "Invalid expression: return") (Some 1%nat) (Some (U "return"))
  /\ (let r := run no_files 12
                   (prog ["func a()"; "ارجع 42"; "end"; "let r = a()"]%string)
                   None initial_state in
      fst r = Ok VNone /\ global_var (snd r) "r" = Some (VInt 2)).
Proof. cbv zeta. run_it. Qed.

(* ================================================================== *)
(** * Bare expressions *)
(* ================================================================== *)

Lemma ends_in_ret {A : Type} (a : A) (P : A -> Prop) : P a -> ends_in (ret a) P.
Proof. intros H st b st' E. inversion E. now subst. Qed.

Lemma ends_in_bind {A B : Type} (m : M A) (k : A -> M B) (Q : A -> Prop)
    (P : B -> Prop) :
  ends_in m Q -> (forall a, Q a -> ends_in (k a) P) -> ends_in (bind m k) P.
Proof.
  intros Hm Hk st b st' E. unfold bind in E.
  destruct (m st) as [[a|e|x t| |] s] eqn:Em; try discriminate.
  exact (Hk a (Hm _ _ _ Em) _ _ _ E).
Qed.

Lemma ends_in_any {A : Type} (m : M A) : ends_in m (fun _ => True).
Proof. intros st a st' _. exact I. Qed.

Lemma ends_in_then {A B : Type} (m : M A) (k : A -> M B) (P : B -> Prop) :
  (forall a, ends_in (k a) P) -> ends_in (bind m k) P.
Proof.
  intros Hk. apply (ends_in_bind m k (fun _ => True) P (ends_in_any m)). intros a _. apply Hk.
Qed.

Lemma ends_in_error {A : Type} msg ln file ctx (P : A -> Prop) :
  ends_in (error A msg ln file ctx) P.
Proof. intros st a st' E. discriminate. Qed.

Lemma ends_in_unmodelled {A : Type} (P : A -> Prop) : ends_in (unmodelled A) P.
Proof. intros st a st' E. discriminate. Qed.

Lemma ends_in_out_of_fuel {A : Type} (P : A -> Prop) : ends_in (out_of_fuel A) P.
Proof. intros st a st' E. discriminate. Qed.

Lemma ends_in_unexpected {A : Type} i file line (m : M A) (P : A -> Prop) :
  ends_in m P -> ends_in (unexpected i file line m) P.
Proof.
  intros H st a st' E. unfold unexpected in E.
  destruct (m st) as [[b|e|x [t|]| |] s] eqn:Em; try discriminate.
  inversion E; subst. exact (H _ _ _ Em).
Qed.

Lemma ends_in_catch {A : Type} kind (m handler : M A) (P : A -> Prop) :
  ends_in m P -> ends_in handler P -> ends_in (catch kind m handler) P.
Proof.
  intros Hm Hh st a st' E. unfold catch in E.
  destruct (m st) as [[b|e|x t| |] s] eqn:Em; try discriminate.
  - inversion E; subst. exact (Hm _ _ _ Em).
  - destruct (kind x); [exact (Hh _ _ _ E) | discriminate].
Qed.

Lemma ends_in_finally {A : Type} (m : M A) f (P : A -> Prop) :
  ends_in m P -> ends_in (finally m f) P.
Proof.
  intros H st a st' E. unfold finally in E.
  destruct (m st) as [r s] eqn:Em. inversion E; subst. exact (H _ _ _ Em).
Qed.

(** The lines of a block are lines of the program. *)
Lemma forallb_skipn {A : Type} (p : A -> bool) : forall n l,
  forallb p l = true -> forallb p (skipn n l) = true.
Proof.
  intros n. induction n as [|n IH]; intros [|a l] H; try exact H.
  cbn in H. apply andb_true_iff in H. apply IH, H.
Qed.

Lemma forallb_rev {A : Type} (p : A -> bool) : forall l,
  forallb p l = true -> forallb p (rev l) = true.
Proof.
  intros l H. apply forallb_forall. intros x Hx. apply in_rev in Hx.
  exact (proj1 (forallb_forall p l) H x Hx).
Qed.

Lemma collect_no_exit : forall rest i depth body,
  no_exit rest = true -> no_exit body = true ->
  no_exit (fst (collect rest i depth body)) = true.
Proof.
  unfold no_exit. induction rest as [|raw r IH]; intros i depth body Hr Hb.
  - apply forallb_rev, Hb.
  - cbn [forallb] in Hr. apply andb_true_iff in Hr. destruct Hr as [H1 H2].
    assert (Hb' : forallb (fun raw0 => negb (exits (strip raw0))) (raw :: body) = true)
      by (cbn [forallb]; now rewrite H1, Hb).
    cbn [collect].
    destruct (startswith_any (strip raw) block_openers); [now apply IH|].
    destruct (str_in (strip raw) end_words); [|now apply IH].
    destruct depth as [|[|d]]; try (apply forallb_rev, Hb). now apply IH.
Qed.

Lemma collect_block_no_exit : forall lines i,
  no_exit lines = true -> no_exit (fst (collect_block lines i)) = true.
Proof.
  intros lines i H. unfold collect_block. apply collect_no_exit; [|reflexivity].
  apply forallb_skipn, H.
Qed.

Lemma collect_branch_no_exit : forall rest i depth body,
  no_exit rest = true -> no_exit body = true ->
  no_exit (fst (collect_branch rest i depth body)) = true.
Proof.
  unfold no_exit. induction rest as [|raw r IH]; intros i depth body Hr Hb.
  - apply forallb_rev, Hb.
  - cbn [forallb] in Hr. apply andb_true_iff in Hr. destruct Hr as [H1 H2].
    assert (Hb' : forallb (fun raw0 => negb (exits (strip raw0))) (raw :: body) = true)
      by (cbn [forallb]; now rewrite H1, Hb).
    cbn [collect_branch].
    destruct (startswith_any (strip raw) block_openers); [now apply IH|].
    destruct (str_in (strip raw) end_words || str_in (strip raw) else_words
              || startswith_any (strip raw) elif_words); [|now apply IH].
    destruct (depth =? 1)%nat; [apply forallb_rev, Hb | now apply IH].
Qed.

Lemma collect_if_no_exit : forall lines i,
  no_exit lines = true -> no_exit (fst (collect_if lines i)) = true.
Proof.
  intros lines i H. unfold collect_if. apply collect_branch_no_exit; [|reflexivity].
  apply forallb_skipn, H.
Qed.

Lemma no_exit_nth : forall lines i raw,
  no_exit lines = true -> nth_error lines i = Some raw -> exits (strip raw) = false.
Proof.
  intros lines i raw H Hn. apply nth_error_In in Hn.
  apply negb_true_iff. exact (proj1 (forallb_forall _ lines) H raw Hn).
Qed.

Section NoExit.
Variable rec : callbacks.
Hypothesis Hrec : returns_none rec.

Lemma run_body_none : forall i file line body,
  no_exit body = true ->
  ends_in (unexpected i file line (r_run rec body file)) (fun v => v = VNone).
Proof.
  intros i file line body Hb. apply ends_in_unexpected.
  intros st v st' E. exact (proj1 Hrec _ _ _ _ _ Hb E).
Qed.

Lemma if_chain_falls_through : forall n lines file line prefix_len executed i,
  no_exit lines = true ->
  ends_in (if_chain rec n lines file line prefix_len executed i) falls_through.
Proof.
  induction n as [|n IH]; intros lines file line prefix_len executed i Hl.
  - apply ends_in_out_of_fuel.
  - cbn [if_chain].
    pose proof (collect_if_no_exit lines (S i) Hl) as Hb.
    destruct (collect_if lines (S i)) as [body i1]. cbn [fst] in Hb.
    assert (Hresume : forall ex,
               ends_in (match nth_error lines i1 with
                        | None => ret (Next i1)
                        | Some raw =>
                          if str_in (strip raw) end_words then ret (Next i1)
                          else if startswith_any (strip raw) elif_words
                          then if_chain rec n lines file (strip raw)
                                 (if startswith (strip raw) (U "else if ") then 8%Z else 9%Z)
                                 ex i1
                          else if str_in (strip raw) else_words
                          then
                            if negb ex
                            then
                              let (body2, i2) := collect_block lines (S i1) in
                              bind (unexpected i2 file line (r_run rec body2 file))
                                   (fun res => if propagates res then ret (Return res)
                                               else ret (Next i2))
                            else ret (Next i1)
                          else if_chain rec n lines file line prefix_len ex i1
                        end) falls_through).
    { intros ex. destruct (nth_error lines i1) as [raw|]; [|now apply ends_in_ret].
      destruct (str_in (strip raw) end_words); [now apply ends_in_ret|].
      destruct (startswith_any (strip raw) elif_words); [now apply IH|].
      destruct (str_in (strip raw) else_words); [|now apply IH].
      destruct (negb ex); [|now apply ends_in_ret].
      pose proof (collect_block_no_exit lines (S i1) Hl) as Hb2.
      destruct (collect_block lines (S i1)) as [body2 i2]. cbn [fst] in Hb2.
      apply (ends_in_bind _ _ _ _ (run_body_none i2 file line body2 Hb2)).
      intros v ->. now apply ends_in_ret. }
    apply (ends_in_bind _ _ (fun t => t = None \/ t = Some VNone)).
    + destruct executed; [apply ends_in_ret; now left|].
      apply ends_in_then. intros c. apply ends_in_then. intros [|].
      * apply (ends_in_bind _ _ _ _ (run_body_none i1 file line body Hb)).
        intros v ->. apply ends_in_ret. now right.
      * apply ends_in_ret. now left.
    + intros t [-> | ->]; [apply Hresume|].
      cbn [propagates is_break is_continue is_None orb negb]. apply Hresume.
Qed.

Lemma while_loop_ends : forall cond body i line file,
  no_exit body = true ->
  ends_in (while_loop rec cond body i line file) (fun r => r = None).
Proof.
  intros cond body i line file Hb. unfold while_loop.
  apply ends_in_then. intros c. apply ends_in_then. intros [|]; [|now apply ends_in_ret].
  apply (ends_in_bind _ _ _ _ (run_body_none i file line body Hb)). intros v ->.
  cbn [is_break is_continue is_None negb].
  intros st r st' E. exact (proj1 (proj2 Hrec) _ _ _ _ _ _ _ _ Hb E).
Qed.

Lemma for_loop_ends : forall it vn body i line file,
  no_exit body = true ->
  ends_in (for_loop rec it vn body i line file) (fun r => r = None).
Proof.
  intros it vn body i line file Hb. unfold for_loop.
  apply ends_in_then. intros [[item it']|]; [|now apply ends_in_ret].
  apply ends_in_then. intros _.
  apply (ends_in_bind _ _ _ _ (run_body_none i file line body Hb)). intros v ->.
  cbn [is_break is_continue is_None negb].
  intros st r st' E. exact (proj2 (proj2 Hrec) _ _ _ _ _ _ _ _ _ Hb E).
Qed.

Lemma assign_item_falls_through : forall vn idx_expr val_expr i file line,
  ends_in (assign_item rec vn idx_expr val_expr i file line) falls_through.
Proof.
  intros. unfold assign_item. apply ends_in_unexpected, ends_in_catch.
  - repeat (apply ends_in_then; intros ?). now apply ends_in_ret.
  - apply ends_in_error.
Qed.

Lemma exec_line_falls_through : forall lines line i file,
  no_exit lines = true -> exits line = false ->
  ends_in (exec_line rec lines line i file) falls_through.
Proof.
  intros lines line i file Hl Hx. unfold exec_line. unfold exits in Hx.
  destruct (classify line); try discriminate.
  - unfold exec_decl.
    destruct (item_form (decl_rest line)); [apply assign_item_falls_through|].
    destruct (negb (contains (U "=") (decl_rest line))); [apply ends_in_error|].
    destruct (isidentifier (decl_name line)) as [[|]|];
      [|apply ends_in_error|apply ends_in_unmodelled].
    apply ends_in_unexpected. repeat (apply ends_in_then; intros ?). now apply ends_in_ret.
  - unfold exec_route. cbv zeta. destruct (collect_block lines (S i)) as [body i'].
    apply ends_in_then. intros _. now apply ends_in_ret.
  - unfold exec_func.
    destruct (negb (contains (U "(") (func_header line))
              || negb (contains (U ")") (func_header line))); [apply ends_in_error|].
    cbv zeta. destruct (collect_block lines (S i)) as [body i'].
    apply ends_in_then. intros _. now apply ends_in_ret.
  - unfold exec_if. now apply if_chain_falls_through.
  - unfold exec_while. cbv zeta.
    pose proof (collect_block_no_exit lines (S i) Hl) as Hb.
    destruct (collect_block lines (S i)) as [body i']. cbn [fst] in Hb.
    apply (ends_in_bind _ _ _ _ (while_loop_ends (while_cond line) body i' line file Hb)).
    intros r ->. now apply ends_in_ret.
  - unfold exec_for. cbv zeta.
    destruct (negb (contains (U " in ") (for_rest line))
              && negb (contains (U " في ") (for_rest line))); [apply ends_in_error|].
    apply ends_in_then. intros seq. apply ends_in_then. intros s.
    destruct (make_iterator (heap s) seq) as [it|]; [|apply ends_in_error].
    pose proof (collect_block_no_exit lines (S i) Hl) as Hb.
    destruct (collect_block lines (S i)) as [body i']. cbn [fst] in Hb.
    apply (ends_in_bind _ _ _ _ (for_loop_ends it (for_var line) body i' line file Hb)).
    intros r ->. now apply ends_in_ret.
  - unfold exec_expr. apply ends_in_then. intros _. now apply ends_in_ret.
  - unfold exec_assign. cbv zeta.
    destruct (contains (U "[") (assign_name line)); [apply assign_item_falls_through|].
    destruct (contains (U ".") (assign_name line)).
    + apply ends_in_unexpected, ends_in_catch; [|apply ends_in_error].
      repeat (apply ends_in_then; intros ?). now apply ends_in_ret.
    + intros st r st' E.
      destruct (negb (Scope.exists_ (scopes st) (current_scope st) (assign_name line)));
        [discriminate|].
      revert st r st' E. fold (ends_in (unexpected i file line
        (bind (r_evaluate rec (strip (assign_value line)) (Some (S i)) file)
              (fun v => bind (scope_set (assign_name line) v false)
                             (fun _ => ret (Next i))))) falls_through).
      apply ends_in_unexpected. repeat (apply ends_in_then; intros ?). now apply ends_in_ret.
  - unfold exec_expr. apply ends_in_then. intros _. now apply ends_in_ret.
Qed.

Lemma run_loop_none : forall n lines file i,
  no_exit lines = true -> ends_in (run_loop rec n lines file i) (fun v => v = VNone).
Proof.
  induction n as [|n IH]; intros lines file i Hl.
  - cbn [run_loop]. destruct (nth_error lines i); [apply ends_in_out_of_fuel|].
    now apply ends_in_ret.
  - cbn [run_loop]. destruct (nth_error lines i) as [raw|] eqn:Hn; [|now apply ends_in_ret].
    cbv zeta. destruct (skip_line (strip raw)); [now apply IH|].
    apply (ends_in_bind _ _ _ _ (exec_line_falls_through lines (strip raw) i file Hl
                                                       (no_exit_nth lines i raw Hl Hn))).
    intros [v|i'] Hr; [destruct Hr|]. now apply IH.
Qed.

End NoExit.

Lemma knot_returns_none : forall h n, returns_none (knot h n).
Proof.
  intros h. induction n as [|n IH].
  - repeat split; intros; discriminate.
  - split; [|split].
    + intros lines file st v st' Hl E.
      exact (run_loop_none (knot h n) IH _ lines file 0 Hl st v st' E).
    + intros cond body i line file st r st' Hb E.
      exact (while_loop_ends (knot h n) IH cond body i line file Hb st r st' E).
    + intros it vn body i line file st r st' Hb E.
      exact (for_loop_ends (knot h n) IH it vn body i line file Hb st r st' E).
Qed.

(** The value of a call of a user procedure is the value [run] gives
    for its body. *)
Lemma call_user_value : forall rec name f args ln file (P : value -> Prop),
  (forall st v st', r_run rec (fn_body f) file st = (Ok v, st') -> P v) ->
  ends_in (call_user rec name f args ln file) P.
Proof.
  intros rec name f args ln file P H. unfold call_user.
  destruct (frame_args args) as [texts|];
    [|destruct (existsb Py.str_raises args); intros st a st' E; discriminate].
  apply ends_in_then. intros _. apply ends_in_then. intros s.
  destruct (MAX_RECURSION_DEPTH <? List.length (call_stack s)); [apply ends_in_error|].
  apply ends_in_finally. apply ends_in_then. intros fs. apply ends_in_then. intros _.
  apply ends_in_then. intros old. apply ends_in_finally. apply ends_in_then. intros _.
  exact H.
Qed.




(* ================================================================== *)
(** * Disciplines on the globals *)
(* ================================================================== *)

Lemma sd_mem_set : forall (A : Type) n k (v : A) d,
  sd_mem n d = true -> sd_mem n (sd_set k v d) = true.
Proof.
  intros A n k v. unfold sd_mem. induction d as [|[k0 v0] d IH]; cbn; intros H.
  - discriminate.
  - destruct (str_eqb k k0); cbn; destruct (str_eqb n k0); auto.
Qed.

Lemma sd_get_set_absent : forall (A : Type) k k' (v e : A) d,
  sd_get k d = None -> sd_get k' d = Some e -> sd_get k' (sd_set k v d) = Some e.
Proof.
  intros A k k' v e. induction d as [|[k0 v0] d IH]; cbn; intros Hk Hk'.
  - discriminate.
  - destruct (str_eqb k k0); [discriminate|]. cbn.
    destruct (str_eqb k' k0); auto.
Qed.

Lemma same_kind_refl : forall o, same_kind o o.
Proof. now intros []. Qed.

Lemma same_kind_trans : forall a b c, same_kind a b -> same_kind b c -> same_kind a c.
Proof. intros [] [] []; cbn; tauto. Qed.

Lemma scope_kept_refl : forall sc, scope_kept sc sc.
Proof. intros sc. repeat split; auto. Qed.

Lemma scope_kept_trans : forall a b c, scope_kept a b -> scope_kept b c -> scope_kept a c.
Proof.
  intros a b c (H1 & H2 & H3) (K1 & K2 & K3). repeat split; try congruence. auto.
Qed.

Lemma evolves_refl : forall st, evolves st st.
Proof.
  intros st. constructor; auto.
  - intros s sc H. exists sc. split; [exact H | apply scope_kept_refl].
  - intros l o H. exists o. split; [exact H | apply same_kind_refl].
  - exists []. now rewrite app_nil_r.
Qed.

Lemma evolves_trans : forall a b c, evolves a b -> evolves b c -> evolves a c.
Proof.
  intros a b c [H1 H2 H3 H4 H5 H6 H7] [K1 K2 K3 K4 K5 K6 K7]. constructor; auto.
  - congruence.
  - intros s sc H. destruct (H2 s sc H) as (sc1 & E1 & S1).
    destruct (K2 s sc1 E1) as (sc2 & E2 & S2). exists sc2. split; [exact E2|].
    eapply scope_kept_trans; eassumption.
  - intros l o H. destruct (H3 l o H) as (o1 & E1 & S1).
    destruct (K3 l o1 E1) as (o2 & E2 & S2). exists o2. split; [exact E2|].
    eapply same_kind_trans; eassumption.
  - destruct H7 as [l1 E1]. destruct K7 as [l2 E2]. exists (l1 ++ l2).
    now rewrite E2, E1, app_assoc.
Qed.

(** The single updates of the globals. *)
Lemma evolves_alloc : forall st o, evolves st (set_heap (heap st ++ [o]) st).
Proof.
  intros st o. destruct (evolves_refl st) as [H1 H2 H3 H4 H5 H6 H7]. constructor; auto.
  intros l o0 H. exists o0. split; [|apply same_kind_refl].
  cbn [heap set_heap]. rewrite nth_error_app1; [exact H|].
  apply nth_error_Some. congruence.
Qed.

Lemma evolves_store : forall st l o o',
  nth_error (heap st) l = Some o -> same_kind o o' ->
  evolves st (set_heap (list_set (heap st) l o') st).
Proof.
  intros st l o o' Hl Hk. destruct (evolves_refl st) as [H1 H2 H3 H4 H5 H6 H7].
  constructor; auto.
  intros l0 o0 H. cbn [heap set_heap]. destruct (Nat.eq_dec l l0) as [->|Hne].
  - exists o'. split; [eapply nth_error_list_set_same; eassumption|]. congruence.
  - exists o0. split; [|apply same_kind_refl].
    now rewrite nth_error_list_set_other.
Qed.

Lemma evolves_print : forall st v,
  evolves st (set_output (output st ++ [v]) (set_stdout (stdout st ++ [v]) st)).
Proof.
  intros st v. destruct (evolves_refl st) as [H1 H2 H3 H4 H5 H6 H7]. constructor; auto.
  now exists [v].
Qed.

Lemma evolves_stdout : forall st x, evolves st (set_stdout x st).
Proof. intros st x. destruct (evolves_refl st). now constructor. Qed.

Lemma evolves_call_stack : forall st x, evolves st (set_call_stack x st).
Proof. intros st x. destruct (evolves_refl st). now constructor. Qed.

Lemma evolves_write : forall st s n v,
  evolves st (set_scopes (Scope.write (scopes st) s n v) st).
Proof.
  intros st s n v. destruct (evolves_refl st) as [H1 H2 H3 H4 H5 H6 H7].
  constructor; auto.
  intros s0 sc H. cbn [scopes set_scopes]. unfold Scope.write.
  destruct (nth_error (scopes st) s) as [sc1|] eqn:E.
  - destruct (Nat.eq_dec s s0) as [->|Hne].
    + eexists. split; [eapply nth_error_list_set_same; eassumption|].
      assert (sc1 = sc) by congruence. subst sc1.
      repeat split. cbn [sc_vars]. intros n0. apply sd_mem_set.
    + exists sc. split; [|apply scope_kept_refl]. now rewrite nth_error_list_set_other.
  - exists sc. split; [exact H | apply scope_kept_refl].
Qed.

Lemma evolves_set : forall st s n v local,
  evolves st (set_scopes (Scope.set (scopes st) s n v local) st).
Proof.
  intros st s n v local. unfold Scope.set.
  destruct (local || negb (str_in n (Scope.get_all_names (scopes st) s)));
    [apply evolves_write|].
  destruct (Scope.owner_from (S s) (scopes st) s n); apply evolves_write.
Qed.

Lemma evolves_bind_params : forall names args st fs,
  evolves st (set_scopes (bind_params (scopes st) fs names args) st).
Proof.
  induction names as [|n names IH]; intros args st fs.
  - cbn. destruct st; apply evolves_refl.
  - cbn [bind_params]. destruct args as [|a args].
    + eapply evolves_trans; [apply (evolves_set st fs n VNone true)|].
      exact (IH [] (set_scopes (Scope.set (scopes st) fs n VNone true) st) fs).
    + eapply evolves_trans; [apply (evolves_set st fs n a true)|].
      exact (IH args (set_scopes (Scope.set (scopes st) fs n a true) st) fs).
Qed.

Lemma evolves_new_scope : forall st sc, evolves st (set_scopes (scopes st ++ [sc]) st).
Proof.
  intros st sc. destruct (evolves_refl st) as [H1 H2 H3 H4 H5 H6 H7]. constructor; auto.
  intros s sc0 H. exists sc0. split; [|apply scope_kept_refl].
  cbn [scopes set_scopes]. rewrite nth_error_app1; [exact H|].
  apply nth_error_Some. congruence.
Qed.

Lemma evolves_register : forall st key e,
  sd_get key (modules st) = None ->
  evolves st (set_modules (sd_set key e (modules st)) st).
Proof.
  intros st key e Hk. destruct (evolves_refl st) as [H1 H2 H3 H4 H5 H6 H7].
  constructor; auto.
  intros k e0 H. cbn [modules set_modules]. now apply sd_get_set_absent.
Qed.

Lemma evolves_define : forall st n f,
  evolves st (set_functions (sd_set n f (functions st)) st).
Proof.
  intros st n f. destruct (evolves_refl st) as [H1 H2 H3 H4 H5 H6 H7]. constructor; auto.
  intros n0 H. cbn [functions set_functions]. now apply sd_mem_set.
Qed.

Lemma evolves_route : forall st p body,
  evolves st (set_web_routes (sd_set p body (web_routes st)) st).
Proof.
  intros st p body. destruct (evolves_refl st) as [H1 H2 H3 H4 H5 H6 H7]. constructor; auto.
  intros n0 H. cbn [web_routes set_web_routes]. now apply sd_mem_set.
Qed.

(** Running something with another scope current and putting the old
    one back afterwards. *)
Lemma evolves_bracket : forall st x st',
  evolves (set_current_scope x st) st' ->
  evolves st (set_current_scope (current_scope st) st').
Proof.
  intros st x st' [H1 H2 H3 H4 H5 H6 H7]. constructor; auto.
Qed.

Lemma evolves_frame : forall st x st',
  evolves (set_call_stack x st) st' ->
  evolves st (set_call_stack (removelast (call_stack st')) st').
Proof.
  intros st x st' [H1 H2 H3 H4 H5 H6 H7]. constructor; auto.
Qed.

Lemma evolves_discipline : discipline evolves evolves.
Proof.
  constructor; intros;
    eauto using evolves_refl, evolves_trans, evolves_alloc, evolves_store, evolves_print,
      evolves_stdout, evolves_write, evolves_new_scope, evolves_register, evolves_define,
      evolves_route, evolves_bracket, evolves_frame, evolves_call_stack.
Qed.

Lemma stack_discipline : discipline same_stack grown_stack.
Proof.
  unfold same_stack, grown_stack. constructor; intros; cbn [call_stack set_heap set_output
    set_stdout set_scopes set_modules set_functions set_web_routes set_current_scope
    set_call_stack] in *; try reflexivity; try congruence.
  - exists []. rewrite app_nil_r. assumption.
  - destruct H0 as [l Hl]. exists l. congruence.
  - rewrite H. apply removelast_last.
  - destruct H as [l Hl]. rewrite Hl. destruct l as [|x l] using rev_ind.
    + rewrite app_nil_r, removelast_last. exists []. now rewrite app_nil_r.
    + rewrite app_assoc, removelast_last. exists ([f] ++ l). now rewrite app_assoc.
  - now exists [f].
Qed.

(* ================================================================== *)
(** * Every function keeping R E a discipline *)
(* ================================================================== *)

Section Keeping.
Variables R E : state -> state -> Prop.
Hypothesis D : discipline R E.

Lemma kept_here {A : Type} (o : outcome A) st : kept R E (o, st) st.
Proof.
  unfold kept. cbn [fst snd].
  destruct o; first [apply (d_refl D) | apply (d_weaken D), (d_refl D)].
Qed.

Lemma kept_step {A : Type} (o : outcome A) st st' :
  R st st' -> kept R E (o, st') st.
Proof.
  intros H. unfold kept. cbn [fst snd]. destruct o; first [exact H | apply (d_weaken D), H].
Qed.

Lemma kept_after {A : Type} (r : outcome A * state) st st' :
  R st st' -> kept R E r st' -> kept R E r st.
Proof.
  unfold kept. intros H. pose proof (d_trans D) as Ht. pose proof (d_raise D) as Hr.
  destruct r as [[a|e|k t| |] s]; cbn [fst snd]; eauto.
Qed.

Lemma keeping_ret {A : Type} (a : A) : keeping R E (ret a).
Proof. intros st. apply kept_here. Qed.

Lemma keeping_error {A : Type} msg ln file ctx : keeping R E (error A msg ln file ctx).
Proof. intros st. apply kept_here. Qed.

Lemma keeping_unmodelled {A : Type} : keeping R E (unmodelled A).
Proof. intros st. apply kept_here. Qed.

Lemma keeping_out_of_fuel {A : Type} : keeping R E (out_of_fuel A).
Proof. intros st. apply kept_here. Qed.

Lemma keeping_raise_host {A : Type} k t : keeping R E (raise_host A k t).
Proof. intros st. apply kept_here. Qed.

Lemma keeping_get_state : keeping R E get_state.
Proof. intros st. apply kept_here. Qed.

Lemma keeping_truthy_m v : keeping R E (truthy_m v).
Proof. intros st. apply kept_here. Qed.

Lemma keeping_modify f : (forall st, R st (f st)) -> keeping R E (modify f).
Proof. intros H st. apply kept_step, H. Qed.

(** At a given state, where what follows depends on it. *)
Lemma kept_bind {A B : Type} (m : M A) (k : A -> M B) st :
  kept R E (m st) st ->
  (forall a s, m st = (Ok a, s) -> kept R E (k a s) s) ->
  kept R E (bind m k st) st.
Proof.
  intros Hm Hk. unfold bind.
  destruct (m st) as [[a|e|x t| |] s] eqn:Em; try exact Hm.
  eapply kept_after; [exact Hm | now apply Hk].
Qed.

Lemma keeping_bind {A B : Type} (m : M A) (k : A -> M B) :
  keeping R E m -> (forall a, keeping R E (k a)) -> keeping R E (bind m k).
Proof. intros Hm Hk st. apply kept_bind; [apply Hm | intros a s _; apply Hk]. Qed.

Lemma keeping_catch {A : Type} kind (m handler : M A) :
  keeping R E m -> keeping R E handler -> keeping R E (catch kind m handler).
Proof.
  intros Hm Hh st. unfold catch. pose proof (Hm st) as H.
  destruct (m st) as [[a|e|x t| |] s]; try exact H.
  destruct (kind x); [|exact H]. eapply kept_after; [exact H | apply Hh].
Qed.

Lemma keeping_unexpected {A : Type} i file line (m : M A) :
  keeping R E m -> keeping R E (unexpected i file line m).
Proof.
  intros Hm st. unfold unexpected. pose proof (Hm st) as H.
  destruct (m st) as [[a|e|x [t|]| |] s]; try exact H; now apply kept_step.
Qed.

(** [old = current_scope; current_scope = x; try: m finally:
    current_scope = old]. *)
Lemma kept_in_scope {A : Type} (m : M A) x c st :
  keeping R E m -> c = current_scope st ->
  kept R E (finally (bind (modify (set_current_scope x)) (fun _ => m))
                    (set_current_scope c) st) st.
Proof.
  intros Hm ->. unfold finally, bind, modify. pose proof (Hm (set_current_scope x st)) as H.
  pose proof (d_scope D) as Hs. pose proof (d_scope_raise D) as Hsr.
  unfold kept in *. destruct (m (set_current_scope x st)) as [[a|e|k t| |] s];
    cbn [fst snd] in *; eauto.
Qed.

Lemma R_set : forall st s n v local,
  R st (set_scopes (Scope.set (scopes st) s n v local) st).
Proof.
  intros st s n v local. unfold Scope.set.
  destruct (local || negb (str_in n (Scope.get_all_names (scopes st) s)));
    [apply (d_write D)|].
  destruct (Scope.owner_from (S s) (scopes st) s n); apply (d_write D).
Qed.

Lemma R_bind_params : forall names args st fs,
  R st (set_scopes (bind_params (scopes st) fs names args) st).
Proof.
  induction names as [|n names IH]; intros args st fs.
  - cbn. destruct st; apply (d_refl D).
  - cbn [bind_params]. destruct args as [|a args].
    + eapply (d_trans D); [apply (R_set st fs n VNone true)|].
      exact (IH [] (set_scopes (Scope.set (scopes st) fs n VNone true) st) fs).
    + eapply (d_trans D); [apply (R_set st fs n a true)|].
      exact (IH args (set_scopes (Scope.set (scopes st) fs n a true) st) fs).
Qed.

Lemma keeping_str_m v : keeping R E (Py.str_m v).
Proof.
  unfold Py.str_m. destruct (Py.str v); [apply keeping_ret|].
  destruct (Py.str_raises v); [apply keeping_raise_host | apply keeping_unmodelled].
Qed.

(** A step of the automatic part of the proofs below: one
    construct of the code, or one fact already proved. *)
Ltac keep_step :=
  match goal with
  | |- keeping _ _ (Py.str_m _) => apply keeping_str_m
  | |- kept _ _ (Py.str_m _ _) _ => apply keeping_str_m
  | |- keeping _ _ (ret _) => apply keeping_ret
  | |- keeping _ _ (error _ _ _ _ _) => apply keeping_error
  | |- keeping _ _ (unmodelled _) => apply keeping_unmodelled
  | |- keeping _ _ (out_of_fuel _) => apply keeping_out_of_fuel
  | |- keeping _ _ (raise_host _ _ _) => apply keeping_raise_host
  | |- keeping _ _ get_state => apply keeping_get_state
  | |- keeping _ _ (truthy_m _) => apply keeping_truthy_m
  | |- keeping _ _ (bind _ _) => apply keeping_bind; [|intros ?]
  | |- keeping _ _ (catch _ _ _) => apply keeping_catch
  | |- keeping _ _ (unexpected _ _ _ _) => apply keeping_unexpected
  | |- keeping _ _ (match ?x with _ => _ end) => destruct x
  | |- keeping _ _ (let (_, _) := ?x in _) => destruct x
  | |- keeping _ _ (fun _ => _) => let st := fresh "st" in intros st; cbv beta
  | |- kept _ _ (match ?x with _ => _ end) _ => let Eq := fresh "Eq" in destruct x eqn:Eq
  | |- kept _ _ ((match ?x with _ => _ end) _) _ => destruct x
  | |- kept _ _ (bind _ _ _) _ => apply kept_bind; [|intros ? ? _]
  | |- kept _ _ (catch _ _ _ _) _ => apply keeping_catch
  | |- kept _ _ (unexpected _ _ _ _ _) _ => apply keeping_unexpected
  | |- kept _ _ (error _ _ _ _ _ _) _ => apply kept_here
  | |- kept _ _ (ret _ _) _ => apply kept_here
  | |- kept _ _ (unmodelled _ _) _ => apply kept_here
  | |- kept _ _ (raise_host _ _ _ _) _ => apply kept_here
  | |- kept _ _ (out_of_fuel _ _) _ => apply kept_here
  | |- kept _ _ (_, ?s) ?s => apply kept_here
  end.
Ltac keep := repeat keep_step.

(** ** Values *)

Lemma keeping_alloc o : keeping R E (Py.alloc o).
Proof. intros st. apply kept_step, (d_alloc D). Qed.

Lemma keeping_alloc_list xs : keeping R E (alloc_list xs).
Proof. unfold alloc_list. keep. apply keeping_alloc. Qed.

Lemma keeping_ret_float r : keeping R E (Py.ret_float r).
Proof. unfold Py.ret_float. keep. Qed.

Lemma keeping_to_float x : keeping R E (Py.to_float x).
Proof. unfold Py.to_float. keep. Qed.

Lemma keeping_arith iop fop x y : keeping R E (Py.arith iop fop x y).
Proof.
  unfold Py.arith. destruct x, y; keep;
    first [apply keeping_to_float | apply keeping_ret_float].
Qed.

Lemma keeping_add a b : keeping R E (Py.add a b).
Proof.
  unfold Py.add. destruct (Py.as_num a), (Py.as_num b); try apply keeping_arith;
    destruct a, b; keep; try apply keeping_alloc.
Qed.

Lemma keeping_sub a b : keeping R E (Py.sub a b).
Proof. unfold Py.sub. keep; apply keeping_arith. Qed.

Lemma keeping_mul a b : keeping R E (Py.mul a b).
Proof. unfold Py.mul. keep; apply keeping_arith. Qed.

Lemma keeping_truediv a b : keeping R E (Py.truediv a b).
Proof.
  unfold Py.truediv. keep; first [apply keeping_to_float | apply keeping_ret_float].
Qed.

Lemma keeping_format s v : keeping R E (Py.format s v).
Proof. unfold Py.format. keep. Qed.

Lemma keeping_mod a b : keeping R E (Py.mod_ a b).
Proof.
  unfold Py.mod_. keep; first [apply keeping_to_float | apply keeping_format].
Qed.

Lemma keeping_pow a b : keeping R E (Py.pow a b).
Proof. unfold Py.pow. keep. Qed.

Lemma keeping_scope_get s name : keeping R E (Scope.get s name).
Proof. intros st. unfold Scope.get. keep. Qed.

Lemma keeping_scope_new p n : keeping R E (Scope.new p n).
Proof. intros st. apply kept_step, (d_new_scope D). Qed.

Lemma keeping_getitem var idx : keeping R E (Obj.getitem var idx).
Proof. unfold Obj.getitem, Obj.unhashable, raise_host. keep. Qed.

Lemma keeping_setitem var idx v : keeping R E (Obj.setitem var idx v).
Proof.
  unfold Obj.setitem, Obj.unhashable, raise_host. keep;
    apply kept_step; eapply (d_store D); try eassumption; exact I.
Qed.

Lemma keeping_to_int v : keeping R E (Obj.to_int v).
Proof. unfold Obj.to_int. keep. Qed.

Lemma keeping_next_item it : keeping R E (next_item it).
Proof. unfold next_item. keep. Qed.

Lemma keeping_scope_set name v local : keeping R E (scope_set name v local).
Proof. apply keeping_modify. intros st. apply R_set. Qed.

Lemma keeping_scope_get_current name : keeping R E (scope_get name).
Proof. intros st. unfold scope_get. apply keeping_scope_get. Qed.

(** ** The evaluator *)

Section Functions.
Variable h : host_env.
Variable rec : callbacks.
Hypothesis Hrec : callbacks_keep R E rec.

Lemma keeping_rec_arith : forall p ln file, keeping R E (r_eval_arith rec p ln file).
Proof. exact (proj1 Hrec). Qed.

Lemma keeping_rec_evaluate : forall p ln file, keeping R E (r_evaluate rec p ln file).
Proof. exact (proj1 (proj2 Hrec)). Qed.

Lemma keeping_rec_run : forall lines file, keeping R E (r_run rec lines file).
Proof. exact (proj1 (proj2 (proj2 Hrec))). Qed.

Lemma keeping_py_any ev parts :
  (forall p, keeping R E (ev p)) -> keeping R E (py_any ev parts).
Proof. intros H. induction parts as [|p r IH]; cbn [py_any]; keep; auto. Qed.

Lemma keeping_py_all ev parts :
  (forall p, keeping R E (ev p)) -> keeping R E (py_all ev parts).
Proof. intros H. induction parts as [|p r IH]; cbn [py_all]; keep; auto. Qed.

Lemma keeping_compare_values op l r : keeping R E (compare_values op l r).
Proof. unfold compare_values. keep. Qed.

Lemma keeping_additive_loop ev op parts :
  (forall p, keeping R E (ev p)) ->
  forall result, keeping R E (additive_loop ev op result parts).
Proof.
  intros H. induction parts as [|p r IH]; intros result; cbn [additive_loop]; keep; auto.
  - apply keeping_add.
  - apply keeping_sub.
Qed.

Lemma keeping_multiplicative_loop ev op ln file expr parts :
  (forall p, keeping R E (ev p)) ->
  forall result, keeping R E (multiplicative_loop ev op ln file expr result parts).
Proof.
  intros H. induction parts as [|p r IH]; intros result; cbn [multiplicative_loop]; keep;
    auto using keeping_mul, keeping_truediv, keeping_mod.
Qed.

Lemma keeping_power_loop ev parts :
  (forall p, keeping R E (ev p)) -> forall result, keeping R E (power_loop ev result parts).
Proof.
  intros H. induction parts as [|p r IH]; intros result; cbn [power_loop]; keep;
    auto using keeping_pow.
Qed.

Lemma keeping_eval_each ev items :
  (forall p, keeping R E (ev p)) -> keeping R E (eval_each ev items).
Proof. intros H. induction items as [|p r IH]; cbn [eval_each]; keep; auto. Qed.

Lemma keeping_eval_pairs ev pairs :
  (forall p, keeping R E (ev p)) -> forall acc, keeping R E (eval_pairs ev pairs acc).
Proof.
  intros H. induction pairs as [|p r IH]; intros acc; cbn [eval_pairs]; keep; auto;
    unfold Obj.unhashable; keep.
Qed.

Lemma keeping_parse_args args_str ln file : keeping R E (parse_args rec args_str ln file).
Proof.
  unfold parse_args. destruct args_str; keep. apply keeping_eval_each. intros p. apply keeping_rec_evaluate.
Qed.

Lemma keeping_import_module path ln file : keeping R E (import_module h rec path ln file).
Proof.
  intros st. unfold import_module. cbv zeta. unfold bind at 1, get_state at 1. cbv beta iota.
  destruct (sd_get (module_key h path file) (modules st)) eqn:Hm; [apply kept_here|].
  destruct (OsPath.read h (module_key h path file)); [|apply kept_here].
  match goal with
  | |- kept R E (match ?x with _ => _ end) st =>
    assert (H : kept R E x st);
      [|destruct x as [[a|e|k [t|]| |] s]; try exact H;
        unfold kept in *; cbn [fst snd error] in *; apply (d_weaken D), H]
  end.
  apply kept_bind; [apply keeping_alloc|]. intros exports s1 E1.
  assert (Hm1 : sd_get (module_key h path file) (modules s1) = None)
    by (inversion E1; subst; exact Hm).
  assert (Hc1 : current_scope s1 = current_scope st) by (inversion E1; reflexivity).
  apply kept_bind; [apply kept_step; now apply (d_register D)|]. intros u2 s2 E2.
  assert (Hc2 : current_scope s2 = current_scope st) by (inversion E2; subst; exact Hc1).
  apply kept_bind; [apply keeping_scope_new|]. intros ms s3 E3.
  assert (Hc3 : current_scope s3 = current_scope st) by (inversion E3; subst; exact Hc2).
  apply kept_bind; [apply kept_in_scope; [apply keeping_rec_run | congruence]|]. intros u4 s4 _.
  apply kept_bind; [apply keeping_get_state|]. intros s5 s6 _.
  destruct (sd_get _ (modules s5)); apply kept_here.
Qed.

Lemma keeping_call_user name f args ln file :
  keeping R E (call_user rec name f args ln file).
Proof.
  intros st. unfold call_user. destruct (frame_args args) as [texts|];
    [|destruct (existsb Py.str_raises args); apply kept_here].
  unfold bind at 1, modify at 1, bind at 1, get_state at 1. cbv beta iota.
  match goal with |- context [MAX_RECURSION_DEPTH <? ?n] =>
    destruct (MAX_RECURSION_DEPTH <? n)
  end.
  - unfold kept, error. cbn [fst snd]. apply (d_cap D).
  - unfold finally at 1.
    match goal with
    | |- kept R E (let (r, st') := ?m ?s in _) st =>
      assert (H : kept R E (m s) s); [|destruct (m s) as [r s']]
    end.
    + apply kept_bind; [apply keeping_scope_new|]. intros fs s1 _.
      apply kept_bind; [apply kept_step, R_bind_params|]. intros u2 s2 _.
      apply kept_bind; [apply keeping_get_state|]. intros old s3 E3.
      inversion E3; subst. apply kept_in_scope; [apply keeping_rec_run | reflexivity].
    + pose proof (d_frame D) as Hf. pose proof (d_frame_raise D) as Hfr.
      unfold kept in *. cbn [fst snd] in *. destruct r; eauto.
Qed.

Lemma keeping_call_function name args_str ln file :
  keeping R E (call_function h rec name args_str ln file).
Proof.
  unfold call_function. apply keeping_bind; [apply keeping_parse_args|]. intros args.
  repeat match goal with
         | |- keeping R E (if ?x then _ else _) => destruct x
         end;
    keep;
    auto using keeping_to_int, keeping_alloc_list, keeping_import_module, keeping_setitem;
    try solve [apply keeping_modify; intros st; apply (d_print D)];
    try solve [apply kept_step; eapply (d_store D); try eassumption; exact I];
    try solve [apply keeping_alloc_list];
    try solve [apply keeping_call_user];
    try solve [apply keeping_setitem].
Qed.

(** The walk of [eval_base] along the parts of [a.b.c]. *)
Lemma keeping_walk expr ln file : forall parts obj,
  keeping R E
    ((fix walk (obj : value) (parts : list pystr) {struct parts} : M value :=
        match parts with
        | [] => ret obj
        | part :: r =>
          match obj with
          | VDict l =>
            fun st' =>
              match nth_error (heap st') l with
              | Some (ODict d) =>
                match Obj.dict_get (VStr part) d with
                | Some v => walk v r st'
                | None =>
                  error value (U "Key '" ++ part ++ U "' not found") ln file (Some expr) st'
                end
              | _ => (Unmodelled, st')
              end
          | _ =>
            error value (U "Cannot access '" ++ part ++ U "' in " ++ Py.type_name obj)
                  ln file (Some expr)
          end
        end) obj parts).
Proof.
  induction parts as [|part r IH]; intros obj; [apply keeping_ret|].
  destruct obj; try apply keeping_error.
  intros st. destruct (nth_error (heap st) l) as [[xs|d]|]; try apply kept_here.
  destruct (Obj.dict_get (VStr part) d); [apply IH | apply kept_here].
Qed.

(** The facts the evaluator's own functions are closed with. *)
Ltac keep_leaf :=
  first
    [ apply keeping_rec_evaluate | apply keeping_rec_arith | apply keeping_rec_run
    | apply keeping_scope_get | apply keeping_getitem | apply keeping_setitem
    | apply keeping_alloc_list | apply keeping_alloc | apply keeping_call_function
    | apply keeping_walk
    | apply keeping_eval_each; intros ?; apply keeping_rec_evaluate
    | apply keeping_eval_pairs; intros ?; apply keeping_rec_evaluate ].
Ltac keep_all := repeat first [keep_step | keep_leaf].

Lemma keeping_eval_base expr ln file : keeping R E (eval_base h rec expr ln file).
Proof. unfold eval_base. keep_all. Qed.

Lemma keeping_eval_arith expr ln file : keeping R E (eval_arith h rec expr ln file).
Proof.
  unfold eval_arith.
  assert (Hp : forall p, keeping R E (r_eval_arith rec p ln file)) by (intros p; apply keeping_rec_arith).
  keep; auto using keeping_py_any, keeping_py_all, keeping_compare_values,
          keeping_additive_loop, keeping_multiplicative_loop, keeping_power_loop,
          keeping_eval_base.
Qed.

Lemma kept_evaluation_error ln file expr r st :
  kept R E r st -> kept R E (evaluation_error ln file expr r) st.
Proof.
  intros H. destruct r as [[a|e|k [t|]| |] s]; try exact H;
    unfold kept in *; cbn [fst snd evaluation_error error] in *; try exact H.
  apply (d_weaken D), H.
Qed.

Lemma keeping_evaluate expr ln file : keeping R E (evaluate h rec expr ln file).
Proof.
  unfold evaluate. keep. apply kept_evaluation_error, keeping_eval_arith.
Qed.

(** ** The statement runner *)

Lemma keeping_assign_item vn idx_expr val_expr i file line :
  keeping R E (assign_item rec vn idx_expr val_expr i file line).
Proof.
  unfold assign_item. keep;
    auto using keeping_scope_get_current, keeping_setitem, keeping_rec_evaluate.
Qed.

Lemma keeping_exec_decl line i file : keeping R E (exec_decl rec line i file).
Proof.
  unfold exec_decl. keep; auto using keeping_assign_item, keeping_scope_set, keeping_rec_evaluate.
Qed.

Lemma keeping_exec_return line i file : keeping R E (exec_return rec line i file).
Proof. unfold exec_return. keep; auto using keeping_rec_evaluate. Qed.

Lemma keeping_exec_route lines line i : keeping R E (exec_route lines line i).
Proof.
  unfold exec_route. keep. apply keeping_modify. intros st.
  eapply (d_trans D); [apply (d_route D) | apply (d_stdout D)].
Qed.

Lemma keeping_exec_func lines line i file : keeping R E (exec_func lines line i file).
Proof.
  unfold exec_func. keep. apply keeping_modify. intros st. apply (d_define D).
Qed.

Lemma keeping_if_chain n : forall lines file line prefix_len executed i,
  keeping R E (if_chain rec n lines file line prefix_len executed i).
Proof.
  induction n as [|n IH]; intros lines file line prefix_len executed i; cbn [if_chain];
    keep; auto using keeping_rec_evaluate, keeping_rec_run.
Qed.

Lemma keeping_while_loop cond body i line file :
  keeping R E (while_loop rec cond body i line file).
Proof.
  unfold while_loop. keep; auto using keeping_rec_evaluate, keeping_rec_run; apply (proj1 (proj2 (proj2 (proj2 Hrec)))).
Qed.

Lemma keeping_for_loop it vn body i line file :
  keeping R E (for_loop rec it vn body i line file).
Proof.
  unfold for_loop. keep; auto using keeping_next_item, keeping_scope_set, keeping_rec_run;
    apply (proj2 (proj2 (proj2 (proj2 Hrec)))).
Qed.

Lemma keeping_exec_assign line i file : keeping R E (exec_assign rec line i file).
Proof.
  unfold exec_assign. cbv zeta. keep;
    auto using keeping_assign_item, keeping_scope_get_current, keeping_setitem,
      keeping_scope_set, keeping_rec_evaluate.
  induction (removelast (tl (split (assign_name line) (U ".")))) as [|part r IH]
    using rev_ind; cbn [fold_left]; [apply keeping_ret|].
  rewrite fold_left_app. cbn [fold_left]. keep; auto using keeping_getitem.
Qed.

Lemma keeping_exec_line lines line i file : keeping R E (exec_line rec lines line i file).
Proof.
  unfold exec_line. destruct (classify line);
    auto using keeping_exec_decl, keeping_exec_return, keeping_exec_route,
      keeping_exec_func, keeping_exec_assign, keeping_ret.
  - apply keeping_if_chain.
  - unfold exec_while. cbv zeta. keep; auto using keeping_while_loop.
  - unfold exec_for. keep; auto using keeping_for_loop, keeping_rec_evaluate.
  - unfold exec_expr. keep; auto using keeping_rec_evaluate.
  - unfold exec_expr. keep; auto using keeping_rec_evaluate.
Qed.

Lemma keeping_run_loop n : forall lines file i, keeping R E (run_loop rec n lines file i).
Proof.
  induction n as [|n IH]; intros lines file i; cbn [run_loop]; keep;
    auto using keeping_exec_line.
Qed.

Lemma keeping_run_lines lines file : keeping R E (run_lines rec lines file).
Proof. apply keeping_run_loop. Qed.

End Functions.

Lemma knot_keeps : forall h n, callbacks_keep R E (knot h n).
Proof.
  intros h. induction n as [|n IH].
  - unfold callbacks_keep. conj_split; intros; apply keeping_out_of_fuel.
  - unfold callbacks_keep. conj_split; intros.
    + now apply keeping_eval_arith.
    + now apply keeping_evaluate.
    + now apply keeping_run_lines.
    + now apply keeping_while_loop.
    + now apply keeping_for_loop.
Qed.

End Keeping.

(* ================================================================== *)
(** * What no call of the interpreter undoes *)
(* ================================================================== *)

Lemma kept_evolves {A : Type} (r : outcome A * state) st :
  kept evolves evolves r st -> evolves st (snd r).
Proof. unfold kept. destruct r as [[a|e|k t| |] s]; exact (fun H => H). Qed.

Lemma run_evolves h fuel lines file st : evolves st (snd (run h fuel lines file st)).
Proof.
  apply kept_evolves.
  apply (proj1 (proj2 (proj2 (knot_keeps evolves evolves evolves_discipline h fuel)))).
Qed.

Lemma alloc_query_ok : forall q st,
  exists d st', alloc_query q st = (Ok d, st') /\ evolves st st'.
Proof.
  induction q as [|[k vs] q IH]; intros st; cbn [alloc_query].
  - exists [], st. split; [reflexivity | apply evolves_refl].
  - unfold bind at 1, Py.alloc at 1. cbv beta iota.
    destruct (IH (set_heap (heap st ++ [OList (map VStr vs)]) st)) as (d & st' & E & H).
    unfold bind at 1. rewrite E. eexists _, st'. split; [reflexivity|].
    eapply evolves_trans; [apply evolves_alloc | exact H].
Qed.

(** Making the page of a result changes no global. *)
Lemma page_state : forall r s,
  snd ((t <- Py.str_m r ;; ret (mkresponse 200 t)) s) = s.
Proof.
  intros r s. unfold bind, Py.str_m.
  destruct (Py.str r); [reflexivity|]. destruct (Py.str_raises r); reflexivity.
Qed.

Lemma do_GET_evolves h fuel path query st : evolves st (snd (do_GET h fuel path query st)).
Proof.
  unfold do_GET. destruct (str_eqb path (U "/favicon.ico")); [apply evolves_refl|].
  unfold bind at 1, modify at 1, bind at 1, get_state at 1. cbv beta iota.
  match goal with |- context [sd_get path (web_routes ?s)] => set (s0 := s) end.
  assert (H0 : evolves st s0) by apply evolves_stdout.
  destruct (sd_get path (web_routes s0)) as [body|]; [|exact H0].
  eapply evolves_trans; [exact H0|].
  match goal with
  | |- evolves _ (snd (match ?x with _ => _ end)) =>
    assert (H : evolves s0 (snd x));
      [|destruct x as [[r|e|k t| |] s]; cbn [snd] in *; try exact H;
        destruct (Py.truthy (heap s) r); [rewrite page_state|]; exact H]
  end.
  unfold bind at 1, Scope.new at 1. cbv beta iota.
  unfold bind at 1, modify at 1. cbv beta iota.
  match goal with |- evolves _ (snd (_ ?s)) =>
    destruct (alloc_query_ok query s) as (d & s3 & E3 & H3)
  end.
  unfold bind at 1. rewrite E3.
  unfold bind at 1, Py.alloc at 1. cbv beta iota.
  unfold bind at 1, Py.alloc at 1. cbv beta iota.
  unfold bind at 1, modify at 1. cbv beta iota.
  unfold finally.
  match goal with |- context [run h fuel body ?f ?s] =>
    pose proof (run_evolves h fuel body f s) as Hr;
      destruct (run h fuel body f s) as [r s']
  end.
  cbn [snd] in *.
  eapply evolves_trans; [apply (evolves_new_scope s0)|].
  match goal with |- evolves ?s1 (set_current_scope _ _) =>
    apply (evolves_bracket s1 (List.length (scopes s0)))
  end.
  exact (evolves_trans _ _ _ H3
           (evolves_trans _ _ _ (evolves_alloc _ _)
              (evolves_trans _ _ _ (evolves_alloc _ _)
                 (evolves_trans _ _ _ (evolves_set _ _ _ _ _) Hr)))).
Qed.

Lemma run_file_evolves h fuel filepath st : evolves st (snd (run_file h fuel filepath st)).
Proof.
  unfold run_file. destruct (OsPath.read h filepath); [|apply evolves_stdout].
  unfold bind at 1, modify at 1. cbv beta iota.
  eapply evolves_trans; [apply evolves_stdout|].
  unfold bind. match goal with |- context [run h fuel ?l ?f ?s] =>
    pose proof (run_evolves h fuel l f s) as Hr; destruct (run h fuel l f s) as [[v|e|k t| |] s']
  end; exact Hr.
Qed.

Lemma entry_evolves : forall h fuel e st, evolves st (state_after h fuel e st).
Proof.
  intros h fuel e st.
  pose proof (knot_keeps evolves evolves evolves_discipline h fuel) as Hk.
  destruct e; cbn [state_after].
  - apply kept_evolves, (proj1 (proj2 Hk)).
  - apply run_evolves.
  - apply kept_evolves. now apply keeping_call_user with (1 := evolves_discipline).
  - apply kept_evolves. now apply keeping_import_module with (1 := evolves_discipline).
  - apply do_GET_evolves.
  - apply run_file_evolves.
Qed.

Lemma exists_from_kept : forall ss ss',
  (forall s sc, nth_error ss s = Some sc ->
                exists sc', nth_error ss' s = Some sc' /\ scope_kept sc sc') ->
  forall fuel s name,
    Scope.exists_from fuel ss s name = true -> Scope.exists_from fuel ss' s name = true.
Proof.
  intros ss ss' H. induction fuel as [|fuel IH]; intros s name; cbn [Scope.exists_from];
    [auto|].
  unfold Scope.vars_of, Scope.parent_of.
  destruct (nth_error ss s) as [sc|] eqn:E; [|cbn; discriminate].
  destruct (H s sc E) as (sc' & -> & Hp & _ & Hv). rewrite Hp.
  destruct (sd_mem name (sc_vars sc)) eqn:Em; [now rewrite (Hv name Em)|].
  destruct (sd_mem name (sc_vars sc')); [reflexivity|].
  destruct (sc_parent sc) as [p|]; [|auto]. destruct (p <? s); auto.
Qed.

(** Whatever enters the interpreter, and however it ends,
    [current_scope] is afterwards the scope it was before: calls,
    imports and requests put it back in a [finally]. *)
Theorem current_scope_restored : forall h fuel e st,
  current_scope (state_after h fuel e st) = current_scope st.
Proof. intros h fuel e st. apply (ev_current (entry_evolves h fuel e st)). Qed.

(** No evaluation removes a variable: a name that [Scope.exists]
    finds from some scope is found from it after any call of the
    interpreter, failed or not. *)
Theorem declared_names_stay : forall h fuel e st s name,
  Scope.exists_ (scopes st) s name = true ->
  Scope.exists_ (scopes (state_after h fuel e st)) s name = true.
Proof.
  intros h fuel e st s name. unfold Scope.exists_.
  apply exists_from_kept. apply (ev_scopes (entry_evolves h fuel e st)).
Qed.

Lemma declared_names_stay_witness :
  Scope.exists_ (scopes (state_after no_files 6
                           (Run (prog ["let a = 'text'"; "b = b / 0"]%string) None)
                           (two_ints 1 2)))
                global_scope (U "b") = true.
Proof. apply declared_names_stay. vm_compute. reflexivity. Defined.

(** An entry of [modules] is never replaced or removed: once a path
    is loaded, every later call of the interpreter finds the same
    exports map under it. *)
Theorem loaded_modules_stay : forall h fuel e st key exports,
  sd_get key (modules st) = Some exports ->
  sd_get key (modules (state_after h fuel e st)) = Some exports.
Proof. intros h fuel e st. apply (ev_modules (entry_evolves h fuel e st)). Qed.

Lemma loaded_modules_stay_witness :
  sd_get (U "m.exo")
         (modules (state_after one_module 6
                     (Run (prog ["let again = import('m')"; "import('missing')"]%string) None)
                     (state_after one_module 6 (Import (U "m") (Some 1%nat) None)
                                  initial_state)))
  = Some 0%nat.
Proof. apply loaded_modules_stay. vm_compute. reflexivity. Defined.

(** A procedure or a route, once defined, stays defined (a later
    definition of the name replaces its body): no call of the
    interpreter removes an entry of [functions] or [web_routes]. *)
Theorem definitions_stay : forall h fuel e st name,
  (sd_mem name (functions st) = true ->
   sd_mem name (functions (state_after h fuel e st)) = true)
  /\ (sd_mem name (web_routes st) = true ->
      sd_mem name (web_routes (state_after h fuel e st)) = true).
Proof.
  intros h fuel e st name. split.
  - apply (ev_functions (entry_evolves h fuel e st)).
  - apply (ev_routes (entry_evolves h fuel e st)).
Qed.

Lemma definitions_stay_witness :
  sd_mem (U "f")
         (functions (state_after no_files 6 (Run (prog ["func g()"; "end"; "f(1, 2)"]%string) None)
                       (state_after no_files 6
                          (Run (prog ["func f()"; "return 1"; "end"]%string) None)
                          initial_state)))
  = true.
Proof. apply (proj1 (definitions_stay _ _ _ _ _)). vm_compute. reflexivity. Defined.

(** [output] only grows: whatever a call of the interpreter prints is
    appended, also when the call fails later. *)
Theorem output_append_only : forall h fuel e st,
  exists printed, output (state_after h fuel e st) = output st ++ printed.
Proof. intros h fuel e st. apply (ev_output (entry_evolves h fuel e st)). Qed.

(** [evaluate], [run], a call of a user procedure and [import_module]
    leave [call_stack] as they found it when they return or end in a
    host exception; when they raise [ExoError] the stack is the old
    one, possibly with frames left on top. *)
Theorem call_stack_balanced :
  (forall h fuel expr ln file st,
      kept same_stack grown_stack (exo_evaluate h fuel expr ln file st) st)
  /\ (forall h fuel lines file st,
      kept same_stack grown_stack (run h fuel lines file st) st)
  /\ (forall h fuel name f args ln file st,
      kept same_stack grown_stack (exo_call h fuel name f args ln file st) st)
  /\ (forall h fuel path ln file st,
      kept same_stack grown_stack (import_module h (knot h fuel) path ln file st) st).
Proof.
  conj_split.
  - intros h fuel. apply (proj1 (proj2 (knot_keeps _ _ stack_discipline h fuel))).
  - intros h fuel. apply (proj1 (proj2 (proj2 (knot_keeps _ _ stack_discipline h fuel)))).
  - intros h fuel name f args ln file.
    apply keeping_call_user with (1 := stack_discipline). apply knot_keeps, stack_discipline.
  - intros h fuel path ln file.
    apply keeping_import_module with (1 := stack_discipline).
    apply knot_keeps, stack_discipline.
Qed.

(* ================================================================== *)
(** * Only ExoError leaves [run] *)
(* ================================================================== *)

Lemma host_safe_ret {A : Type} (a : A) : host_safe (ret a).
Proof. intros st k t. discriminate. Qed.

Lemma host_safe_error {A : Type} msg ln file ctx : host_safe (error A msg ln file ctx).
Proof. intros st k t. discriminate. Qed.

Lemma host_safe_unmodelled {A : Type} : host_safe (unmodelled A).
Proof. intros st k t. discriminate. Qed.

Lemma host_safe_out_of_fuel {A : Type} : host_safe (out_of_fuel A).
Proof. intros st k t. discriminate. Qed.

Lemma host_safe_modify f : host_safe (modify f).
Proof. intros st k t. discriminate. Qed.

Lemma host_safe_get_state : host_safe get_state.
Proof. intros st k t. discriminate. Qed.

Lemma host_safe_truthy_m v : host_safe (truthy_m v).
Proof. intros st k t. discriminate. Qed.

Lemma host_safe_bind {A B : Type} (m : M A) (k : A -> M B) :
  host_safe m -> (forall a, host_safe (k a)) -> host_safe (bind m k).
Proof.
  intros Hm Hk st x t. unfold bind. pose proof (Hm st) as H.
  destruct (m st) as [[a|e|y u| |] s]; cbn [fst] in *; try discriminate.
  - apply Hk.
  - exfalso. exact (H y u eq_refl).
Qed.

(** The handler of [run] turns every host exception into an
    [ExoError], whatever the statement is. *)
Lemma host_safe_unexpected {A : Type} i file line (m : M A) :
  host_safe (unexpected i file line m).
Proof.
  intros st k t. unfold unexpected.
  destruct (m st) as [[a|e|y [u|]| |] s]; cbn; discriminate.
Qed.

Lemma host_safe_finally {A : Type} (m : M A) f : host_safe m -> host_safe (finally m f).
Proof.
  intros Hm st k t. unfold finally. pose proof (Hm st k t) as H.
  destruct (m st) as [r s]. exact H.
Qed.

Ltac safe_step :=
  match goal with
  | |- host_safe (ret _) => apply host_safe_ret
  | |- host_safe (error _ _ _ _ _) => apply host_safe_error
  | |- host_safe (unmodelled _) => apply host_safe_unmodelled
  | |- host_safe (out_of_fuel _) => apply host_safe_out_of_fuel
  | |- host_safe (modify _) => apply host_safe_modify
  | |- host_safe get_state => apply host_safe_get_state
  | |- host_safe (truthy_m _) => apply host_safe_truthy_m
  | |- host_safe (unexpected _ _ _ _) => apply host_safe_unexpected
  | |- host_safe (scope_set _ _ _) => apply host_safe_modify
  | |- host_safe (bind _ _) => apply host_safe_bind; [|intros ?]
  | |- host_safe (match ?x with _ => _ end) => destruct x
  | |- host_safe (let (_, _) := ?x in _) => destruct x
  end.
Ltac safe := repeat safe_step.

Section HostSafe.
Variable rec : callbacks.
Hypothesis Hrec : callbacks_host_safe rec.

Lemma host_safe_if_chain n : forall lines file line prefix_len executed i,
  host_safe (if_chain rec n lines file line prefix_len executed i).
Proof.
  induction n as [|n IH]; intros lines file line prefix_len executed i; cbn [if_chain];
    safe; auto.
Qed.

Lemma host_safe_while_loop cond body i line file :
  host_safe (while_loop rec cond body i line file).
Proof. unfold while_loop. safe; apply (proj1 (proj2 (proj2 Hrec))). Qed.

Lemma host_safe_for_loop it vn body i line file :
  host_safe (for_loop rec it vn body i line file).
Proof. unfold for_loop. safe; apply (proj2 (proj2 (proj2 Hrec))). Qed.

Lemma host_safe_exec_line lines line i file : host_safe (exec_line rec lines line i file).
Proof.
  unfold exec_line. destruct (classify line).
  - unfold exec_decl, assign_item. safe.
  - unfold exec_return. safe.
  - safe.
  - safe.
  - unfold exec_route. safe.
  - unfold exec_func. safe.
  - apply host_safe_if_chain.
  - unfold exec_while. cbv zeta. safe. apply host_safe_while_loop.
  - unfold exec_for. safe. apply host_safe_for_loop.
  - unfold exec_expr. safe.
  - unfold exec_assign, assign_item. cbv zeta. safe.
    intros st k t. destruct (negb _); [discriminate | apply host_safe_unexpected].
  - unfold exec_expr. safe.
Qed.

Lemma host_safe_run_loop n : forall lines file i, host_safe (run_loop rec n lines file i).
Proof.
  induction n as [|n IH]; intros lines file i; cbn [run_loop]; safe;
    auto using host_safe_exec_line.
Qed.

End HostSafe.

Lemma knot_host_safe : forall h n, callbacks_host_safe (knot h n).
Proof.
  intros h. induction n as [|n IH]; unfold callbacks_host_safe; conj_split; intros.
  - apply host_safe_out_of_fuel.
  - apply host_safe_out_of_fuel.
  - apply host_safe_out_of_fuel.
  - apply host_safe_out_of_fuel.
  - apply evaluate_host_safe.
  - now apply host_safe_run_loop.
  - now apply host_safe_while_loop.
  - now apply host_safe_for_loop.
Qed.

Lemma host_safe_alloc_query q : host_safe (alloc_query q).
Proof.
  induction q as [|[k vs] q IH]; cbn [alloc_query]; safe; auto;
    intros st x t; discriminate.
Qed.

Lemma do_GET_outcome : forall h fuel path query st,
  match fst (do_GET h fuel path query st) with
  | Ok r => In (status r) [200; 204; 404; 500]
  | Exo _ => False
  | _ => True
  end.
Proof.
  intros h fuel path query st. unfold do_GET.
  destruct (str_eqb path (U "/favicon.ico")); [cbn; auto|].
  unfold bind at 1, modify at 1, bind at 1, get_state at 1. cbv beta iota.
  destruct (sd_get path _) as [body|]; [|cbn; auto].
  match goal with
  | |- match fst (match ?x with _ => _ end) with _ => _ end =>
    destruct x as [[r|e|k t| |] s]; cbn [fst]; try exact I; [|cbn; auto]
  end.
  destruct (Py.truthy (heap s) r); [|cbn; auto].
  unfold bind, Py.str_m. destruct (Py.str r); [cbn; auto|].
  destruct (Py.str_raises r); exact I.
Qed.

(** Every exception that leaves [run] is an [ExoError]: the handler
    around each statement re-raises any other exception as
    "Unexpected error", so no host exception reaches the caller.
    The HTTP handler lets no [ExoError] out: the error of a route
    body becomes the page of status 500, and a response that is sent
    has status 200, 204, 404 or 500; the icon request and a path
    without route are answered whatever the state.  It does let a
    host exception
    out, because [str(result)] is outside the handler of [run] and
    only [ExoError] is caught around it: a route that returns an int
    of more than 4300 digits ends the request with [ValueError]. *)
Theorem run_raises_only_ExoError :
  (forall h fuel lines file, host_safe (run h fuel lines file))
  /\ (forall h fuel filepath, host_safe (run_file h fuel filepath))
  /\ (forall h fuel path query st e, fst (do_GET h fuel path query st) <> Exo e)
  /\ (forall h fuel path query st r,
      fst (do_GET h fuel path query st) = Ok r -> In (status r) [200; 204; 404; 500])
  /\ (forall h fuel query st,
      fst (do_GET h fuel (U "/favicon.ico") query st) = Ok (mkresponse 204 []))
  /\ (forall h fuel path query st,
      str_eqb path (U "/favicon.ico") = false ->
      sd_get path (web_routes st) = None ->
      exists page, fst (do_GET h fuel path query st) = Ok (mkresponse 404 page))
  /\ fst (do_GET no_files 6 (U "/ok") [] three_routes) = Ok (mkresponse 200 (U "hi"))
  /\ (exists page, fst (do_GET no_files 6 (U "/bad") [] three_routes)
                   = Ok (mkresponse 500 page))
  /\ (exists page, fst (do_GET no_files 6 (U "/none") [] three_routes)
                   = Ok (mkresponse 404 page))
  /\ fst (do_GET no_files 6 (U "/favicon.ico") [] three_routes) = Ok (mkresponse 204 [])
  /\ fst (do_GET no_files 6 (U "/big") [] three_routes) = Host ValueError None.
Proof.
  conj_split.
  - intros h fuel lines file. apply (proj1 (proj2 (knot_host_safe h fuel))).
  - intros h fuel filepath. unfold run_file. safe.
    apply (proj1 (proj2 (knot_host_safe h fuel))).
  - intros h fuel path query st e E.
    pose proof (do_GET_outcome h fuel path query st) as H. now rewrite E in H.
  - intros h fuel path query st r E.
    pose proof (do_GET_outcome h fuel path query st) as H. now rewrite E in H.
  - intros h fuel query st. reflexivity.
  - intros h fuel path query st Hf Hr. unfold do_GET. rewrite Hf.
    unfold bind at 1, modify at 1, bind at 1, get_state at 1. cbv beta iota.
    cbn [web_routes set_stdout]. rewrite Hr. eexists. reflexivity.
  - vm_compute. reflexivity.
  - eexists. vm_compute. reflexivity.
  - eexists. vm_compute. reflexivity.
  - vm_compute. reflexivity.
  - vm_compute. reflexivity.
Qed.

(* ================================================================== *)
(** * The else branch *)
(* ================================================================== *)

Lemma str_in_pair : forall s a b, str_in s [a; b] = true -> s = a \/ s = b.
Proof.
  intros s a b H. unfold str_in in H. cbn [existsb] in H.
  destruct (str_eqb s a) eqn:Ea; [left; now apply str_eqb_eq|].
  destruct (str_eqb s b) eqn:Eb; [right; now apply str_eqb_eq | discriminate].
Qed.

Lemma exec_if_meets_else : forall rec lines file i line st body i1 c st1 st2 closing,
  classify line = SIf ->
  collect_if lines (S i) = (body, i1) ->
  r_evaluate rec (if_cond line) (Some (S i1)) file st = (Ok c, st1) ->
  Py.truthy (heap st1) c = true ->
  r_run rec body file st1 = (Ok VNone, st2) ->
  nth_error lines i1 = Some closing ->
  str_in (strip closing) else_words = true ->
  exec_line rec lines line i file st = (Ok (Next i1), st2).
Proof.
  intros rec lines file i line st body i1 c st1 st2 closing Hc Hb Hcond Ht Hrun Hcl He.
  if_taken Hc Hb Hcond Ht Hrun.
  cbn [propagates is_break is_continue is_None orb negb]. rewrite Hcl. cbv zeta.
  destruct (str_in_pair _ _ _ He) as [-> | ->]; reflexivity.
Qed.

(** An [if] whose branch ran to its end and whose next marker is
    [else]: the statement is over at the [else] line, and [run] goes
    on with the line after it.  The lines of the else branch are
    therefore run as well, as ordinary statements, and the [end] that
    closes them is evaluated as an expression.  When the condition
    does not hold the else branch is collected and run as a block. *)
Theorem else_branch_runs_after_if :
  (forall h n m lines file i raw st body i1 c st1 st2 closing,
      nth_error lines i = Some raw ->
      classify (strip raw) = SIf ->
      collect_if lines (S i) = (body, i1) ->
      exo_evaluate h n (if_cond (strip raw)) (Some (S i1)) file st = (Ok c, st1) ->
      Py.truthy (heap st1) c = true ->
      run h n body file st1 = (Ok VNone, st2) ->
      nth_error lines i1 = Some closing ->
      str_in (strip closing) else_words = true ->
      run_loop (knot h n) (S m) lines file i st
      = run_loop (knot h n) m lines file (S i1) st2)
  /\ (let r := run no_files 6
                   (prog ["if true"; "print('yes')"; "else"; "print('no')"; "end";
                          "print('after')"]%string)
                   None initial_state in
      output (snd r) = [U "yes"; U "no"]
      /\ raises (fst r) (U "Invalid expression: end") (Some 5%nat) (Some (U "end")))
  /\ (let r := run no_files 6
                   (prog ["if false"; "print('yes')"; "else"; "print('no')"; "end";
                          "print('after')"]%string)
                   None initial_state in
      output (snd r) = [U "no"; U "after"] /\ fst r = Ok VNone).
Proof.
  split; [|run_it].
  intros h n m lines file i raw st body i1 c st1 st2 closing Hn Hc Hb Hcond Ht Hrun Hcl He.
  rewrite (run_loop_step _ _ _ _ _ raw _ Hn)
    by (apply (keyword_not_skipped _ _ Hc); discriminate).
  unfold bind.
  now rewrite (exec_if_meets_else _ _ _ _ _ _ _ _ _ _ _ _ Hc Hb Hcond Ht Hrun Hcl He).
Qed.

Lemma else_branch_runs_after_if_witness :
  run_loop (knot no_files 6) 1
           (prog ["if 1"; "let a = 1"; "else"; "let b = 2"; "end"]%string) None 0 initial_state
  = run_loop (knot no_files 6) 0
             (prog ["if 1"; "let a = 1"; "else"; "let b = 2"; "end"]%string) None 3
             (set_scopes [mkscope None (U "global") [(U "a", VInt 1)]] initial_state).
Proof.
  apply (proj1 else_branch_runs_after_if no_files 6 0
               (prog ["if 1"; "let a = 1"; "else"; "let b = 2"; "end"]%string) None 0
               (U "if 1") initial_state [U "let a = 1"] 2 (VInt 1) initial_state
               (set_scopes [mkscope None (U "global") [(U "a", VInt 1)]] initial_state)
               (U "else")); vm_compute; reflexivity.
Defined.

(* ================================================================== *)
(** * A module whose body fails *)
(* ================================================================== *)

(** [import_module] registers the module before it runs the body and
    takes nothing back when the body raises: the failed module stays
    in [modules], and the next import of the same path answers with
    its exports map, filled as far as the body got, without any
    error. *)
Theorem failed_import_stays_loaded : forall h fuel path ln file st code err st',
  sd_get (module_key h path file) (modules st) = None ->
  OsPath.read h (module_key h path file) = Some code ->
  import_module h (knot h fuel) path ln file st = (Exo err, st') ->
  forall rec' ln',
    import_module h rec' path ln' file st' = (Ok (VDict (List.length (heap st))), st').
Proof.
  intros h fuel path ln file st code err st' Hm Hr H rec' ln'.
  apply import_module_cached.
  rewrite (import_module_fresh h (knot h fuel) path ln file st code Hm Hr) in H.
  unfold import_finish in H. cbv zeta in H.
  match type of H with
  | context [r_run ?k ?l ?f ?s] =>
    pose proof (kept_evolves _ _
                  (proj1 (proj2 (proj2 (knot_keeps evolves evolves evolves_discipline
                                                   h fuel))) l f s)) as Hk;
      destruct (r_run k l f s) as [o s1]
  end.
  cbn [fst snd] in *.
  assert (Hreg : sd_get (module_key h path file) (modules s1)
                 = Some (List.length (heap st))).
  { apply (ev_modules Hk). unfold import_state. cbv zeta. state_simpl.
    apply sd_get_set_same. }
  destruct o as [v|e|k [t|]| |]; try discriminate.
  - destruct (sd_get _ (modules (set_current_scope _ s1))); discriminate.
  - inversion H; subst. exact Hreg.
  - inversion H; subst. exact Hreg.
Qed.

Lemma failed_import_stays_loaded_witness :
  import_module broken_module no_fuel (U "bad") (Some 2%nat) None
    (snd (import_module broken_module (knot broken_module 6) (U "bad") (Some 1%nat) None
                        initial_state))
  = (Ok (VDict 0),
     snd (import_module broken_module (knot broken_module 6) (U "bad") (Some 1%nat) None
                        initial_state)).
Proof.
  destruct (import_module broken_module (knot broken_module 6) (U "bad") (Some 1%nat) None
                          initial_state) as [o s] eqn:E.
  assert (Ho : exists err, o = Exo err)
    by (apply (f_equal fst) in E; vm_compute in E; rewrite <- E; eauto).
  destruct Ho as [err ->]. cbn [snd].
  apply (failed_import_stays_loaded broken_module 6 (U "bad") (Some 1%nat) None initial_state
           (U "export('x', 1)
boom()") err s); try (vm_compute; reflexivity).
  exact E.
Defined.

(* ================================================================== *)
(** * Reading a scope *)
(* ================================================================== *)

Lemma get_from_exists : forall f ss s name,
  Scope.exists_from f ss s name
  = match Scope.get_from f ss s name with Some _ => true | None => false end.
Proof.
  induction f as [|f IH]; intros ss s name; [reflexivity|].
  cbn [Scope.exists_from Scope.get_from]. unfold sd_mem.
  destruct (sd_get name (Scope.vars_of ss s)); [reflexivity|].
  destruct (Scope.parent_of ss s); [apply IH | reflexivity].
Qed.

(** [Scope.exists], [Scope.get] and [Scope.get_all_names] agree: a
    name exists from a scope exactly when it is among all the names
    of the chain, and exactly then [get] returns a value; for every
    other name [get] raises [KeyError] and changes nothing. *)
Theorem scope_readers_agree : forall st s name,
  Scope.exists_ (scopes st) s name = str_in name (Scope.get_all_names (scopes st) s)
  /\ (Scope.exists_ (scopes st) s name = true ->
      exists v, Scope.get s name st = (Ok v, st))
  /\ (Scope.exists_ (scopes st) s name = false ->
      exists t, Scope.get s name st = (Host KeyError t, st)).
Proof.
  intros st s name. unfold Scope.exists_, Scope.get_all_names, Scope.get.
  rewrite all_names_exists, get_from_exists.
  destruct (Scope.get_from (S s) (scopes st) s name) as [v|]; conj_split;
    try discriminate; eauto.
Qed.

Lemma sd_get_set_other : forall (A : Type) k k' (v : A) d,
  k' <> k -> sd_get k' (sd_set k v d) = sd_get k' d.
Proof.
  intros A k k' v d Hne. induction d as [|[k0 v0] d IH]; cbn [sd_set sd_get].
  - destruct (str_eqb k' k) eqn:E; [|reflexivity].
    apply str_eqb_eq in E. contradiction.
  - destruct (str_eqb k k0) eqn:E; cbn [sd_get].
    + destruct (str_eqb k' k0) eqn:E'; [|reflexivity].
      apply str_eqb_eq in E, E'. congruence.
    + now rewrite IH.
Qed.

Lemma vars_of_write_get_other : forall ss o name v t other,
  other <> name ->
  sd_get other (Scope.vars_of (Scope.write ss o name v) t)
  = sd_get other (Scope.vars_of ss t).
Proof.
  intros ss o name v t other Hne. destruct (Nat.eq_dec t o) as [->|Hto].
  - unfold Scope.vars_of, Scope.write.
    destruct (nth_error ss o) as [sc|] eqn:E; [|now rewrite E].
    rewrite (nth_error_list_set_same _ ss o _ sc E). cbn [sc_vars].
    now apply sd_get_set_other.
  - now rewrite vars_of_write_other.
Qed.

Lemma get_from_write_other : forall f ss o name v t other,
  other <> name ->
  Scope.get_from f (Scope.write ss o name v) t other = Scope.get_from f ss t other.
Proof.
  induction f as [|f IH]; intros ss o name v t other Hne; [reflexivity|].
  cbn [Scope.get_from]. rewrite vars_of_write_get_other by assumption.
  rewrite parent_of_write.
  destruct (sd_get other (Scope.vars_of ss t)); [reflexivity|].
  destruct (Scope.parent_of ss t); [now apply IH | reflexivity].
Qed.

(** Writing a name, by declaration or by assignment, changes what no
    other name reads: from every scope, [get] of another name gives
    what it gave before. *)
Theorem set_leaves_other_names : forall ss s name v local t other,
  other <> name ->
  Scope.get_from (S t) (Scope.set ss s name v local) t other
  = Scope.get_from (S t) ss t other.
Proof.
  intros ss s name v local t other Hne. unfold Scope.set.
  destruct (local || negb (str_in name (Scope.get_all_names ss s)));
    [now apply get_from_write_other|].
  destruct (Scope.owner_from (S s) ss s name); now apply get_from_write_other.
Qed.

Lemma set_leaves_other_names_witness :
  Scope.get_from 2 (Scope.set shadow_scopes 1 (U "y") (VInt 7) true) 1 (U "x")
  = Scope.get_from 2 shadow_scopes 1 (U "x").
Proof. apply set_leaves_other_names. vm_compute. discriminate. Defined.

(* ================================================================== *)
(** * Blocks *)
(* ================================================================== *)

Lemma collect_slice : forall rest i depth acc,
  exists k,
    k <= List.length rest
    /\ collect rest i depth acc = (rev acc ++ firstn k rest, i + k)
    /\ (k < List.length rest ->
        exists raw, nth_error rest k = Some raw /\ str_in (strip raw) end_words = true).
Proof.
  induction rest as [|raw r IH]; intros i depth acc.
  - exists 0. cbn. rewrite app_nil_r, Nat.add_0_r. conj_split; [lia | reflexivity | lia].
  - cbn [collect].
    assert (Hgo : forall d,
               exists k, k <= List.length (raw :: r)
                         /\ collect r (S i) d (raw :: acc)
                            = (rev acc ++ firstn k (raw :: r), i + k)
                         /\ (k < List.length (raw :: r) ->
                             exists raw0, nth_error (raw :: r) k = Some raw0
                                          /\ str_in (strip raw0) end_words = true)).
    { intros d. destruct (IH (S i) d (raw :: acc)) as (k & Hk & E & Hend).
      exists (S k). cbn [List.length firstn nth_error rev] in *.
      rewrite E, <- app_assoc. cbn [app]. conj_split.
      - lia.
      - f_equal. lia.
      - intros Hlt. apply Hend. lia. }
    assert (Hstop : str_in (strip raw) end_words = true ->
               exists k, k <= List.length (raw :: r)
                         /\ (rev acc, i) = (rev acc ++ firstn k (raw :: r), i + k)
                         /\ (k < List.length (raw :: r) ->
                             exists raw0, nth_error (raw :: r) k = Some raw0
                                          /\ str_in (strip raw0) end_words = true)).
    { intros He. exists 0. cbn [firstn nth_error List.length].
      rewrite app_nil_r, Nat.add_0_r. conj_split; [lia | reflexivity | eauto]. }
    destruct (startswith_any (strip raw) block_openers); [apply Hgo|].
    destruct (str_in (strip raw) end_words) eqn:He; [|apply Hgo].
    destruct depth as [|[|d]]; [now apply Hstop | now apply Hstop | apply Hgo].
Qed.

(** The body that [run] collects for a block opened on line [i - 1]
    is a run of consecutive lines of the program, from line [i] up to
    the line where the scan stopped.  That line is the [end] of the
    block, unless the program ends first: a block that is never
    closed takes every remaining line, and no error is raised for
    it. *)
Theorem block_is_a_slice : forall lines i body i1,
  i <= List.length lines ->
  collect_block lines i = (body, i1) ->
  i <= i1 <= List.length lines
  /\ body = firstn (i1 - i) (skipn i lines)
  /\ (i1 < List.length lines ->
      exists closing, nth_error lines i1 = Some closing
                      /\ str_in (strip closing) end_words = true).
Proof.
  intros lines i body i1 Hi H. unfold collect_block in H.
  destruct (collect_slice (skipn i lines) i 1 []) as (k & Hk & E & Hend).
  rewrite E in H. inversion H; subst. clear H. rewrite length_skipn in Hk, Hend.
  cbn [rev app]. replace (i + k - i) with k by lia. conj_split; try lia; [reflexivity|].
  intros Hlt. destruct Hend as (raw & Hn & He); [lia|].
  exists raw. split; [|exact He]. now rewrite nth_error_skipn in Hn.
Qed.

Lemma block_is_a_slice_witness :
  [U "a = 1"; U "b = 2"] = firstn (3 - 1) (skipn 1 (prog ["func f()"; "a = 1"; "b = 2"]%string))
  /\ fst (collect_block (prog ["while x"; "if y"; "z()"; "end"; "end"; "w()"]%string) 1)
     = firstn (4 - 1) (skipn 1 (prog ["while x"; "if y"; "z()"; "end"; "end"; "w()"]%string)).
Proof.
  split.
  - apply (block_is_a_slice (prog ["func f()"; "a = 1"; "b = 2"]%string) 1
                            [U "a = 1"; U "b = 2"] 3); [cbn; lia | vm_compute; reflexivity].
  - apply (block_is_a_slice (prog ["while x"; "if y"; "z()"; "end"; "end"; "w()"]%string) 1
                            _ 4); [cbn; lia | vm_compute; reflexivity].
Defined.

(* ================================================================== *)
(** * Parameters *)
(* ================================================================== *)

Lemma set_local_vars_same : forall ss fs n v sc,
  nth_error ss fs = Some sc ->
  Scope.vars_of (Scope.set ss fs n v true) fs = sd_set n v (sc_vars sc).
Proof.
  intros ss fs n v sc H. unfold Scope.set. cbn [orb]. unfold Scope.vars_of, Scope.write.
  rewrite H. now rewrite (nth_error_list_set_same _ ss fs _ sc H).
Qed.

Lemma set_local_nth : forall ss fs n v sc,
  nth_error ss fs = Some sc ->
  nth_error (Scope.set ss fs n v true) fs
  = Some (mkscope (sc_parent sc) (sc_name sc) (sd_set n v (sc_vars sc))).
Proof.
  intros ss fs n v sc H. unfold Scope.set. cbn [orb]. unfold Scope.write.
  rewrite H. now apply (nth_error_list_set_same _ ss fs _ sc H).
Qed.

Lemma bind_params_later : forall names args ss fs sc n,
  nth_error ss fs = Some sc -> ~ In n names ->
  sd_get n (Scope.vars_of (bind_params ss fs names args) fs) = sd_get n (sc_vars sc).
Proof.
  induction names as [|m names IH]; intros args ss fs sc n Hfs Hn.
  - cbn [bind_params]. unfold Scope.vars_of. now rewrite Hfs.
  - assert (Hm : n <> m) by (intros ->; apply Hn; now left).
    assert (Hn' : ~ In n names) by (intros Hin; apply Hn; now right).
    cbn [bind_params]. destruct args as [|a args].
    + rewrite (IH [] _ fs _ n (set_local_nth ss fs m VNone sc Hfs) Hn'). cbn [sc_vars].
      now apply sd_get_set_other.
    + rewrite (IH args _ fs _ n (set_local_nth ss fs m a sc Hfs) Hn'). cbn [sc_vars].
      now apply sd_get_set_other.
Qed.

(** The parameters of a call: the scope of the call binds each
    parameter name to the argument at its position, and to Null when
    the call has fewer arguments; arguments beyond the parameter list
    are not bound at all.  (Parameter names are taken to be
    distinct.) *)
Theorem parameters_bound_by_position : forall names args ss fs sc i n,
  nth_error ss fs = Some sc ->
  NoDup names ->
  nth_error names i = Some n ->
  sd_get n (Scope.vars_of (bind_params ss fs names args) fs) = Some (nth i args VNone).
Proof.
  induction names as [|m names IH]; intros args ss fs sc i n Hfs Hnd Hi.
  - destruct i; discriminate.
  - inversion Hnd as [|? ? Hm Hnd']; subst. destruct i as [|i].
    + inversion Hi; subst. cbn [bind_params].
      destruct args as [|a args]; cbn [nth].
      * rewrite (bind_params_later names [] _ fs _ n (set_local_nth ss fs n VNone sc Hfs) Hm).
        apply sd_get_set_same.
      * rewrite (bind_params_later names args _ fs _ n (set_local_nth ss fs n a sc Hfs) Hm).
        apply sd_get_set_same.
    + cbn [nth_error] in Hi. cbn [bind_params]. destruct args as [|a args].
      * rewrite (IH [] _ fs _ i n (set_local_nth ss fs m VNone sc Hfs) Hnd' Hi).
        now destruct i.
      * exact (IH args _ fs _ i n (set_local_nth ss fs m a sc Hfs) Hnd' Hi).
Qed.

Lemma parameters_bound_by_position_witness :
  sd_get (U "b")
         (Scope.vars_of (bind_params shadow_scopes 1 [U "a"; U "b"; U "c"]
                                     [VInt 10; VInt 20]) 1)
  = Some (VInt 20)
  /\ sd_get (U "c")
            (Scope.vars_of (bind_params shadow_scopes 1 [U "a"; U "b"; U "c"]
                                        [VInt 10; VInt 20]) 1)
     = Some VNone.
Proof.
  assert (Hnd : NoDup [U "a"; U "b"; U "c"]).
  { repeat constructor; cbn; intros H; repeat destruct H as [H|H]; try discriminate H;
      exact H. }
  split.
  - apply (parameters_bound_by_position [U "a"; U "b"; U "c"] [VInt 10; VInt 20]
             shadow_scopes 1 (mkscope (Some 0) (U "func:f") []) 1 (U "b") eq_refl Hnd eq_refl).
  - apply (parameters_bound_by_position [U "a"; U "b"; U "c"] [VInt 10; VInt 20]
             shadow_scopes 1 (mkscope (Some 0) (U "func:f") []) 2 (U "c") eq_refl Hnd eq_refl).
Defined.

(* ================================================================== *)
(** * Text without operators *)
(* ================================================================== *)

Lemma word_char_range : forall c,
  word_char c = true ->
  (48 <= c <= 57 \/ 65 <= c <= 90 \/ c = 95 \/ 97 <= c <= 122 \/ 1568 <= c <= 1610)%N.
Proof.
  intros c H. unfold word_char, is_ascii_alpha, is_ascii_digit, is_arabic_letter in H.
  rewrite !orb_true_iff, !andb_true_iff, !N.leb_le, !N.eqb_eq in H. lia.
Qed.

Lemma is_space_range : forall c,
  is_space c = true -> (c <= 32 \/ c = 133 \/ c = 160 \/ 5760 <= c)%N.
Proof.
  intros c H. unfold is_space in H.
  rewrite !orb_true_iff, !andb_true_iff, !N.leb_le, !N.eqb_eq in H. lia.
Qed.

Lemma word_not_space : forall c, word_char c = true -> is_space c = false.
Proof.
  intros c H. apply word_char_range in H. destruct (is_space c) eqn:E; [|reflexivity].
  apply is_space_range in E. lia.
Qed.

Lemma word_not_quote : forall c, word_char c = true -> is_quote c = false.
Proof.
  intros c H. apply word_char_range in H. unfold is_quote, quote1, quote2.
  apply orb_false_iff. split; apply N.eqb_neq; lia.
Qed.

Lemma word_not_bracket : forall c d, word_char c = true -> bump d c = d.
Proof.
  intros c d H. apply word_char_range in H. unfold bump, is_open, is_close.
  replace ((c =? 40) || (c =? 91) || (c =? 123))%N with false
    by (symmetry; rewrite !orb_false_iff, !N.eqb_neq; lia).
  replace ((c =? 41) || (c =? 93) || (c =? 125))%N with false
    by (symmetry; rewrite !orb_false_iff, !N.eqb_neq; lia).
  reflexivity.
Qed.

Lemma forallb_In : forall (A : Type) (p : A -> bool) l x,
  forallb p l = true -> In x l -> p x = true.
Proof. intros A p l x H. now apply forallb_forall. Qed.

(** What [startswith], [endswith] and [in] find is made of characters
    of the text. *)
Lemma startswith_app : forall p s, startswith s p = true -> exists r, s = p ++ r.
Proof.
  induction p as [|c p IH]; intros s H; [now exists s|].
  destruct s as [|d s]; [discriminate|]. cbn [startswith] in H.
  apply andb_true_iff in H. destruct H as [H1 H2]. apply N.eqb_eq in H1. subst d.
  destruct (IH s H2) as [r ->]. now exists r.
Qed.

Lemma startswith_chars : forall s p c, startswith s p = true -> In c p -> In c s.
Proof.
  intros s p c H Hin. destruct (startswith_app p s H) as [r ->].
  apply in_or_app. now left.
Qed.

Lemma find_aux_chars : forall p s i j c, find_aux p s i = Some j -> In c p -> In c s.
Proof.
  intros p s. induction s as [|d s IH]; intros i j c H Hin; cbn [find_aux] in H.
  - destruct (startswith [] p) eqn:E; [|discriminate]. now apply (startswith_chars [] p).
  - destruct (startswith (d :: s) p) eqn:E; [now apply (startswith_chars _ p)|].
    right. eapply IH; eassumption.
Qed.

Lemma contains_chars : forall p s c, contains p s = true -> In c p -> In c s.
Proof.
  intros p s c H Hin. unfold contains in H.
  destruct (find_aux p s 0) as [j|] eqn:E; [|discriminate].
  eapply find_aux_chars; eassumption.
Qed.

Lemma endswith_chars : forall s p c, endswith s p = true -> In c p -> In c s.
Proof.
  intros s p c H Hin. unfold endswith in H. apply in_rev.
  apply (startswith_chars _ (rev p)); [exact H | now apply -> in_rev].
Qed.

Section Words.
Variable s : pystr.
Hypothesis Hw : forallb word_char s = true.

Lemma word_foreign : forall c, word_char c = false -> ~ In c s.
Proof. intros c Hc Hin. rewrite (forallb_In _ _ _ _ Hw Hin) in Hc. discriminate. Qed.

Lemma word_startswith : forall p c,
  In c p -> word_char c = false -> startswith s p = false.
Proof.
  intros p c Hin Hc. destruct (startswith s p) eqn:E; [|reflexivity].
  exfalso. exact (word_foreign c Hc (startswith_chars _ _ _ E Hin)).
Qed.

Lemma word_contains : forall p c, In c p -> word_char c = false -> contains p s = false.
Proof.
  intros p c Hin Hc. destruct (contains p s) eqn:E; [|reflexivity].
  exfalso. exact (word_foreign c Hc (contains_chars _ _ _ E Hin)).
Qed.

Lemma word_endswith : forall p c, In c p -> word_char c = false -> endswith s p = false.
Proof.
  intros p c Hin Hc. destruct (endswith s p) eqn:E; [|reflexivity].
  exfalso. exact (word_foreign c Hc (endswith_chars _ _ _ E Hin)).
Qed.

End Words.

Lemma lstrip_word : forall s, forallb word_char s = true -> lstrip s = s.
Proof.
  intros [|c s] H; [reflexivity|]. cbn [forallb] in H. apply andb_true_iff in H.
  cbn [lstrip]. now rewrite (word_not_space c (proj1 H)).
Qed.

Lemma strip_word : forall s, forallb word_char s = true -> strip s = s.
Proof.
  intros s H. unfold strip, rstrip. rewrite (lstrip_word s H).
  rewrite lstrip_word; [apply rev_involutive|].
  apply forallb_forall. intros x Hx. apply in_rev in Hx. exact (forallb_In _ _ _ _ H Hx).
Qed.

(** The scan of [split_by_op] over such text cuts nowhere. *)
Lemma split_scan_word : forall op s prev sc cur parts,
  forallb word_char s = true -> foreign_head op = true ->
  split_scan op s 0 prev 0%Z false sc cur parts = rev (push_part (rev s ++ cur) parts).
Proof.
  intros op s. induction s as [|c s IH]; intros prev sc cur parts Hw Hop; [reflexivity|].
  cbn [forallb] in Hw. apply andb_true_iff in Hw. destruct Hw as [Hc Hs].
  cbn [split_scan]. rewrite (word_not_quote c Hc). cbn [andb negb].
  rewrite (word_not_bracket c 0%Z Hc). cbv zeta. cbn [Z.eqb andb].
  assert (Hst : startswith (c :: s) op = false).
  { destruct op as [|o op]; [discriminate|]. cbn [foreign_head] in Hop. cbn [startswith].
    destruct (N.eqb_spec o c) as [->|]; [|reflexivity].
    rewrite Hc in Hop. discriminate. }
  rewrite Hst. rewrite (IH (Some c) sc (c :: cur) parts Hs Hop).
  cbn [rev]. now rewrite <- app_assoc.
Qed.

Lemma split_by_op_word : forall s op,
  forallb word_char s = true -> foreign_head op = true -> split_by_op s op = [s].
Proof.
  intros s op Hw Hop. unfold split_by_op. cbv zeta.
  rewrite (split_scan_word op s None None [] [] Hw Hop). rewrite app_nil_r.
  unfold push_part. destruct (strip (rev (rev s))); reflexivity.
Qed.

Lemma unwrap_word : forall s, forallb word_char s = true -> unwrap s = s.
Proof.
  intros s H. unfold unwrap. rewrite (strip_word s H). cbn [strip_parens].
  rewrite (word_startswith s H [40%N] 40%N); [reflexivity | now left | reflexivity].
Qed.

Lemma first_split_word : forall s seps,
  forallb word_char s = true -> forallb foreign_head seps = true ->
  first_split s seps = None.
Proof.
  intros s seps Hw. induction seps as [|sep r IH]; intros H; [reflexivity|].
  cbn [forallb] in H. apply andb_true_iff in H. destruct H as [H1 H2].
  cbn [first_split]. rewrite (split_by_op_word s sep Hw H1). cbn. now apply IH.
Qed.

Lemma first_split_op_word : forall s ops,
  forallb word_char s = true -> forallb foreign_head ops = true ->
  first_split_op s ops = None.
Proof.
  intros s ops Hw. induction ops as [|op r IH]; intros H; [reflexivity|].
  cbn [forallb] in H. apply andb_true_iff in H. destruct H as [H1 H2].
  cbn [first_split_op]. rewrite (split_by_op_word s op Hw H1). cbn. now apply IH.
Qed.

Lemma first_compare_word : forall s ops,
  forallb word_char s = true -> forallb foreign_head ops = true ->
  first_compare s ops = None.
Proof.
  intros s ops Hw. induction ops as [|op r IH]; intros H; [reflexivity|].
  cbn [forallb] in H. apply andb_true_iff in H. destruct H as [H1 H2].
  cbn [first_compare]. rewrite (split_by_op_word s op Hw H1). now apply IH.
Qed.

(** Such text reaches [eval_base] as it is. *)
Lemma eval_arith_word : forall h rec s ln file,
  forallb word_char s = true ->
  eval_arith h rec s ln file = eval_base h rec s ln file.
Proof.
  intros h rec s ln file Hw. unfold eval_arith. cbv zeta. rewrite (unwrap_word s Hw).
  rewrite (first_split_word s or_seps Hw eq_refl).
  rewrite (first_split_word s and_seps Hw eq_refl).
  assert (Hnot : startswith_any s [U "not "; U "ليس "; U "!"] = false).
  { unfold startswith_any. cbn [existsb].
    rewrite (word_startswith s Hw (U "not ") 32%N), (word_startswith s Hw (U "ليس ") 32%N),
      (word_startswith s Hw (U "!") 33%N); try reflexivity; cbn; auto. }
  rewrite Hnot.
  rewrite (first_compare_word s compare_ops Hw eq_refl).
  rewrite (first_split_op_word s additive_ops Hw eq_refl).
  rewrite (first_split_op_word s multiplicative_ops Hw eq_refl).
  rewrite (split_by_op_word s (U "^") Hw eq_refl). cbn [List.length Nat.ltb Nat.leb].
  now destruct (contains (U "^") s).
Qed.

Lemma split_aux_no_sep : forall sep s cur,
  foreign_head sep = true -> forallb word_char s = true ->
  split_aux sep s 0 cur = [rev cur ++ s].
Proof.
  intros sep s. induction s as [|c s IH]; intros cur Hsep Hw; cbn [split_aux].
  - now rewrite app_nil_r.
  - cbn [forallb] in Hw. apply andb_true_iff in Hw. destruct Hw as [Hc Hs].
    assert (Hst : startswith (c :: s) sep = false).
    { destruct sep as [|o sep]; [discriminate|]. cbn [foreign_head] in Hsep.
      cbn [startswith]. destruct (N.eqb_spec o c) as [->|]; [|reflexivity].
      rewrite Hc in Hsep. discriminate. }
    rewrite Hst, (IH (c :: cur) Hsep Hs). cbn [rev]. now rewrite <- app_assoc.
Qed.

Lemma uncomment_word : forall s, forallb word_char s = true -> uncomment s = s.
Proof.
  intros s Hw. unfold uncomment, split.
  rewrite (split_aux_no_sep (U "#") s [] eq_refl Hw). cbn [hd rev app].
  now apply strip_word.
Qed.

Lemma str_in_app : forall s l1 l2, str_in s (l1 ++ l2) = str_in s l1 || str_in s l2.
Proof. intros s l1 l2. unfold str_in. apply existsb_app. Qed.

Lemma eval_base_word : forall h rec s ln file st,
  s <> [] -> forallb word_char s = true -> str_in s literal_words = false ->
  eval_base h rec s ln file st
  = if Scope.exists_ (scopes st) (current_scope st) s
    then Scope.get (current_scope st) s st
    else match Py.parse_int s with
         | Py.PVal z => (Ok (VInt z), st)
         | Py.PInvalid => error value (U "Invalid expression: " ++ s) ln file (Some s) st
         | Py.PUnknown => (Unmodelled, st)
         end.
Proof.
  intros h rec s ln file st Hne Hw Hlit. unfold eval_base. rewrite (strip_word s Hw).
  change literal_words
    with ([U "True"; U "صح"; U "true"] ++ [U "False"; U "خطأ"; U "false"]
          ++ [U "null"; U "فارغ"; U "None"]) in Hlit.
  rewrite !str_in_app, !orb_false_iff in Hlit. destruct Hlit as (L1 & L2 & L3).
  rewrite L1, L2, L3.
  rewrite (word_startswith s Hw [quote2] quote2), (word_startswith s Hw [quote1] quote1),
    (word_startswith s Hw (U "[") 91%N), (word_startswith s Hw (U "{") 123%N),
    (word_contains s Hw (U "(") 40%N), (word_contains s Hw (U "[") 91%N),
    (word_contains s Hw (U ".") 46%N); try reflexivity; try (cbn; auto; fail).
  cbn [andb orb].
  destruct s as [|c r]; [contradiction|].
  destruct (Scope.exists_ (scopes st) (current_scope st) (c :: r)); [reflexivity|].
  destruct (Py.parse_int (c :: r)); reflexivity.
Qed.

Lemma parse_int_word : forall s, forallb word_char s = true -> Py.parse_int s <> Py.PUnknown.
Proof.
  intros s Hw. unfold Py.parse_int.
  assert (Hu : Py.unknown_script s = false).
  { unfold Py.unknown_script. destruct (existsb _ s) eqn:E; [|reflexivity].
    apply existsb_exists in E. destruct E as (c & Hin & Hc).
    pose proof (word_char_range c (forallb_In _ _ _ _ Hw Hin)) as Hr.
    apply andb_true_iff in Hc. destruct Hc as [H1 H2]. apply N.leb_le in H1.
    unfold is_arabic_letter in H2. apply negb_true_iff in H2.
    rewrite andb_false_iff, !N.leb_gt in H2. lia. }
  rewrite Hu. destruct (Py.strip_sign s) as [sg r]. destruct (Py.span_digits r) as [d t].
  destruct t; [destruct (Py.digitpart_ok d false && _)|]; discriminate.
Qed.

Lemma evaluate_word : forall h rec s ln file st,
  s <> [] -> forallb word_char s = true -> str_in s literal_words = false ->
  evaluate h rec s ln file st
  = match Scope.get_from (S (current_scope st)) (scopes st) (current_scope st) s with
    | Some v => (Ok v, st)
    | None =>
      match Py.parse_int s with
      | Py.PVal z => (Ok (VInt z), st)
      | _ => error value (U "Invalid expression: " ++ s) ln file (Some s) st
      end
    end.
Proof.
  intros h rec s ln file st Hne Hw Hlit. pose proof (parse_int_word s Hw) as Hp.
  unfold evaluate. rewrite (strip_word s Hw), (uncomment_word s Hw).
  rewrite (word_startswith s Hw (U "#") 35%N); [|now left|reflexivity].
  destruct s as [|c r] eqn:Es; [contradiction|]. cbn [orb]. rewrite <- Es in *.
  rewrite (eval_arith_word h rec s ln file Hw), (eval_base_word h rec s ln file st Hne Hw Hlit).
  unfold Scope.exists_, Scope.get. rewrite get_from_exists.
  destruct (Scope.get_from (S (current_scope st)) (scopes st) (current_scope st) s);
    [reflexivity|].
  destruct (Py.parse_int s); try reflexivity. contradiction.
Qed.

(** A name or a number written with the characters of names: the
    expression has no operator to split at, so [evaluate] looks the
    text up as a variable first, from the current scope up the
    chain; only when no scope binds it is it read as an int, by the
    host's [int], and what is neither is the error "Invalid
    expression" (digits beyond the host's limit of 4300 among them).
    The state is not touched. *)
Theorem names_and_numbers : forall h rec s ln file st,
  s <> [] -> forallb word_char s = true -> str_in s literal_words = false ->
  Py.parse_int s <> Py.PUnknown
  /\ evaluate h rec s ln file st
     = match Scope.get_from (S (current_scope st)) (scopes st) (current_scope st) s with
       | Some v => (Ok v, st)
       | None =>
         match Py.parse_int s with
         | Py.PVal z => (Ok (VInt z), st)
         | _ => error value (U "Invalid expression: " ++ s) ln file (Some s) st
         end
       end.
Proof.
  intros h rec s ln file st Hne Hw Hlit. split.
  - now apply parse_int_word.
  - now apply evaluate_word.
Qed.

Lemma names_and_numbers_witness :
  evaluate no_files no_fuel (U "b") (Some 1%nat) None (two_ints 3 4) = (Ok (VInt 4), two_ints 3 4)
  /\ evaluate no_files no_fuel (U "2024") (Some 1%nat) None (two_ints 3 4)
     = (Ok (VInt 2024), two_ints 3 4)
  /\ raises (fst (evaluate no_files no_fuel (U "c") (Some 1%nat) None (two_ints 3 4)))
            (U "Invalid expression: c") (Some 1%nat) (Some (U "c")).
Proof.
  conj_split.
  - rewrite (proj2 (names_and_numbers no_files no_fuel (U "b") (Some 1%nat) None (two_ints 3 4)
                      ltac:(discriminate) eq_refl eq_refl)).
    reflexivity.
  - rewrite (proj2 (names_and_numbers no_files no_fuel (U "2024") (Some 1%nat) None
                      (two_ints 3 4) ltac:(discriminate) eq_refl eq_refl)).
    reflexivity.
  - rewrite (proj2 (names_and_numbers no_files no_fuel (U "c") (Some 1%nat) None (two_ints 3 4)
                      ltac:(discriminate) eq_refl eq_refl)).
    vm_compute. conj_split; reflexivity.
Defined.

(* ================================================================== *)
(** * Int literals *)
(* ================================================================== *)

Lemma digit_is_word : forall c, is_ascii_digit c = true -> word_char c = true.
Proof. intros c H. unfold word_char. rewrite H. now rewrite orb_true_r. Qed.

Lemma digits_are_words : forall d, forallb is_ascii_digit d = true -> forallb word_char d = true.
Proof.
  intros d H. apply forallb_forall. intros c Hc. apply digit_is_word.
  exact (forallb_In _ _ _ _ H Hc).
Qed.

Lemma digit_range : forall c, is_ascii_digit c = true -> (48 <= c <= 57)%N.
Proof.
  intros c H. unfold is_ascii_digit in H. rewrite andb_true_iff, !N.leb_le in H. lia.
Qed.

Lemma digit_of : forall k, (0 <= k < 10)%Z -> is_ascii_digit (Z.to_N (48 + k)) = true.
Proof.
  intros k Hk. unfold is_ascii_digit. rewrite andb_true_iff, !N.leb_le. lia.
Qed.

Lemma digits_value_snoc : forall d c,
  is_ascii_digit c = true ->
  Py.digits_value (d ++ [c]) = (Py.digits_value d * 10 + (Z.of_N c - 48))%Z.
Proof.
  intros d c Hc. unfold Py.digits_value. rewrite fold_left_app. cbn [fold_left].
  apply digit_range in Hc. destruct (N.eqb_spec c 95); [lia | reflexivity].
Qed.

(** The digits of [str(n)], most significant first. *)
Lemma digits_rev_spec : forall f n,
  (0 <= n < 2 ^ Z.of_nat (S f))%Z ->
  forallb is_ascii_digit (rev (digits_rev (S f) n)) = true
  /\ rev (digits_rev (S f) n) <> []
  /\ Py.digits_value (rev (digits_rev (S f) n)) = n.
Proof.
  induction f as [|f IH]; intros n Hn.
  - assert (Hlt : (n < 10)%Z) by (change (2 ^ Z.of_nat 1)%Z with 2%Z in Hn; lia).
    cbn [digits_rev]. apply Z.ltb_lt in Hlt. rewrite Hlt. apply Z.ltb_lt in Hlt.
    cbn [rev app forallb]. rewrite digit_of by lia. conj_split; [reflexivity|discriminate|].
    unfold Py.digits_value. cbn [fold_left].
    destruct (N.eqb_spec (Z.to_N (48 + n)) 95); lia.
  - remember (S f) as g. cbn [digits_rev]. destruct (Z.ltb_spec n 10) as [Hlt|Hge].
    + cbn [rev app forallb]. rewrite digit_of by lia.
      conj_split; [reflexivity|discriminate|].
      unfold Py.digits_value. cbn [fold_left].
      destruct (N.eqb_spec (Z.to_N (48 + n)) 95); lia.
    + assert (Hq : (0 <= n / 10 < 2 ^ Z.of_nat (S f))%Z).
      { split; [apply Z.div_pos; lia|].
        apply Z.div_lt_upper_bound; [lia|].
        rewrite Heqg in Hn. replace (Z.of_nat (S (S f))) with (Z.succ (Z.of_nat (S f))) in Hn by lia.
        rewrite Z.pow_succ_r in Hn by lia. lia. }
      subst g. destruct (IH (n / 10)%Z Hq) as (Hd & Hne & Hv).
      pose proof (Z.mod_pos_bound n 10 ltac:(lia)) as Hm.
      cbn [rev]. conj_split.
      * rewrite forallb_app, Hd. cbn [forallb]. now rewrite digit_of by lia.
      * intros E. apply app_eq_nil in E. destruct E as [_ E]. discriminate.
      * rewrite digits_value_snoc by (apply digit_of; lia). rewrite Hv.
        rewrite Z2N.id by lia. pose proof (Z.div_mod n 10 ltac:(lia)). lia.
Qed.

Lemma of_Z_spec : forall n,
  (0 <= n)%Z ->
  forallb is_ascii_digit (of_Z n) = true /\ of_Z n <> [] /\ Py.digits_value (of_Z n) = n.
Proof.
  intros n Hn. unfold of_Z. cbv zeta. destruct (Z.ltb_spec n 0) as [|_]; [lia|].
  rewrite Z.abs_eq by lia. apply digits_rev_spec. split; [lia|].
  destruct (Z.eq_dec n 0) as [->|Hz]; [cbn; lia|].
  pose proof (Z.log2_spec n ltac:(lia)) as Hl. pose proof (Z.log2_nonneg n) as Hl0.
  replace (Z.of_nat (S (Z.to_nat (Z.log2 n)))) with (Z.succ (Z.log2 n)) by lia. lia.
Qed.

Lemma span_digits_all : forall d,
  forallb is_ascii_digit d = true -> Py.span_digits d = (d, []).
Proof.
  induction d as [|c d IH]; intros H; [reflexivity|].
  cbn [forallb] in H. apply andb_true_iff in H. destruct H as [Hc Hd].
  cbn [Py.span_digits]. rewrite Hc, (IH Hd). reflexivity.
Qed.

Lemma digitpart_ok_all : forall d b,
  forallb is_ascii_digit d = true -> (d <> [] \/ b = true) -> Py.digitpart_ok d b = true.
Proof.
  induction d as [|c d IH]; intros b H Hb; cbn [Py.digitpart_ok].
  - destruct Hb as [Hb|Hb]; [contradiction | exact Hb].
  - cbn [forallb] in H. apply andb_true_iff in H. destruct H as [Hc Hd].
    apply digit_range in Hc. destruct (N.eqb_spec c 95); [lia|]. apply IH; auto.
Qed.

Lemma filter_all : forall (A : Type) (p : A -> bool) l,
  forallb p l = true -> filter p l = l.
Proof.
  induction l as [|x l IH]; intros H; [reflexivity|]. cbn [forallb] in H.
  apply andb_true_iff in H. destruct H as [Hx Hl]. cbn [filter]. now rewrite Hx, (IH Hl).
Qed.

(** An int below [10 ^ k] has at most [k] digits, and the value of
    [k] digits is below [10 ^ k]. *)
Lemma digits_rev_length : forall f n k,
  (0 <= n < 10 ^ Z.of_nat (S k))%Z -> List.length (digits_rev f n) <= S k.
Proof.
  induction f as [|f IH]; intros n k Hn; cbn [digits_rev]; [cbn; lia|].
  destruct (Z.ltb_spec n 10) as [Hlt|Hge]; [cbn; lia|].
  destruct k as [|k]; [change (10 ^ Z.of_nat 1)%Z with 10%Z in Hn; lia|].
  cbn [List.length]. apply le_n_S. apply IH. split; [apply Z.div_pos; lia|].
  apply Z.div_lt_upper_bound; [lia|].
  replace (Z.of_nat (S (S k))) with (Z.succ (Z.of_nat (S k))) in Hn by lia.
  rewrite Z.pow_succ_r in Hn by lia. lia.
Qed.

Lemma of_Z_length : forall n k,
  (0 <= n < 10 ^ Z.of_nat (S k))%Z -> List.length (of_Z n) <= S k.
Proof.
  intros n k Hn. unfold of_Z. cbv zeta. destruct (Z.ltb_spec n 0) as [|_]; [lia|].
  rewrite Z.abs_eq by lia. rewrite length_rev. now apply digits_rev_length.
Qed.

Lemma digits_value_bound : forall d,
  forallb is_ascii_digit d = true ->
  (0 <= Py.digits_value d < 10 ^ Z.of_nat (List.length d))%Z.
Proof.
  induction d as [|c d IH] using rev_ind; intros H; [cbn; lia|].
  rewrite forallb_app in H. apply andb_true_iff in H. destruct H as [Hd Hc].
  cbn [forallb] in Hc. rewrite andb_true_r in Hc.
  rewrite (digits_value_snoc d c Hc), length_app. cbn [List.length].
  replace (Z.of_nat (List.length d + 1)) with (Z.succ (Z.of_nat (List.length d))) by lia.
  rewrite Z.pow_succ_r by lia. apply digit_range in Hc. specialize (IH Hd). lia.
Qed.

Lemma strip_sign_digits : forall d,
  forallb is_ascii_digit d = true -> Py.strip_sign d = (1%Z, d).
Proof.
  intros [|c r] Hd; [reflexivity|]. cbn [forallb] in Hd.
  apply andb_true_iff in Hd. destruct Hd as [Hc _]. apply digit_range in Hc.
  unfold Py.strip_sign.
  destruct c as [|p]; [lia|]. do 6 (destruct p as [p|p|]; try reflexivity; try lia).
Qed.

(** [int] applied to digits. *)
Lemma parse_int_digits : forall d,
  forallb is_ascii_digit d = true -> d <> [] ->
  Py.parse_int d
  = if (List.length d <=? Py.max_str_digits)%nat then Py.PVal (Py.digits_value d)
    else Py.PInvalid.
Proof.
  intros d Hd Hne.
  pose proof (parse_int_word d (digits_are_words _ Hd)) as Hp.
  unfold Py.parse_int in *. destruct (Py.unknown_script d); [contradiction|].
  rewrite (strip_sign_digits d Hd), (span_digits_all _ Hd),
    (digitpart_ok_all _ false Hd (or_introl Hne)), (filter_all _ _ d Hd).
  cbn [andb]. destruct (_ <=? _)%nat; [f_equal; lia | reflexivity].
Qed.

(** [int] reads back what [str] writes, up to the limit of the
    conversions. *)
Lemma parse_int_of_Z : forall n,
  (0 <= n < 10 ^ 4300)%Z -> Py.parse_int (of_Z n) = Py.PVal n.
Proof.
  intros n Hn. destruct (of_Z_spec n (proj1 Hn)) as (Hd & Hne & Hv).
  rewrite (parse_int_digits _ Hd Hne), Hv.
  pose proof (of_Z_length n 4299 Hn) as Hl. apply Nat.leb_le in Hl.
  unfold Py.max_str_digits. now rewrite Hl.
Qed.

Lemma parse_int_beyond : forall n,
  (10 ^ 4300 <= n)%Z -> Py.parse_int (of_Z n) = Py.PInvalid.
Proof.
  intros n Hn.
  assert (H0 : (0 <= n)%Z).
  { pose proof (Z.pow_nonneg 10 4300 ltac:(discriminate)) as Hp.
    exact (Z.le_trans _ _ _ Hp Hn). }
  destruct (of_Z_spec n H0) as (Hd & Hne & Hv).
  rewrite (parse_int_digits _ Hd Hne).
  destruct (Nat.leb_spec (List.length (of_Z n)) Py.max_str_digits) as [Hl|]; [|reflexivity].
  exfalso. pose proof (digits_value_bound _ Hd) as Hb. rewrite Hv in Hb.
  assert (Hm : (10 ^ Z.of_nat (List.length (of_Z n)) <= 10 ^ Z.of_nat Py.max_str_digits)%Z).
  { apply Z.pow_le_mono_r; [reflexivity|]. apply Nat2Z.inj_le. exact Hl. }
  change (10 ^ Z.of_nat Py.max_str_digits)%Z with (10 ^ 4300)%Z in Hm.
  exact (Z.lt_irrefl _ (Z.lt_le_trans _ _ _ (proj2 Hb) (Z.le_trans _ _ _ Hm Hn))).
Qed.

Lemma str_of_int : forall n,
  (0 <= n)%Z ->
  ((n < 10 ^ 4300)%Z -> Py.str (VInt n) = Some (of_Z n))
  /\ ((10 ^ 4300 <= n)%Z -> Py.str (VInt n) = None /\ Py.str_raises (VInt n) = true).
Proof.
  intros n Hn. unfold Py.str, Py.str_raises, Py.int_too_long. rewrite (Z.abs_eq n Hn).
  split.
  - intros H. apply Z.leb_gt in H. rewrite H. now destruct (_ <=? Z.log2 n)%Z.
  - intros H.
    assert (Hl : (14284 <=? Z.log2 n)%Z = true).
    { apply Z.leb_le. apply Z.log2_le_pow2; [|refine (Z.le_trans _ _ _ _ H)].
      - refine (Z.lt_le_trans _ _ _ _ H). now apply Z.pow_pos_nonneg.
      - apply Z.leb_le. vm_compute. reflexivity. }
    apply Z.leb_le in H. rewrite Hl, H. split; reflexivity.
Qed.

Lemma digit_text_not_literal : forall d,
  forallb is_ascii_digit d = true -> str_in d literal_words = false.
Proof.
  intros [|c d] H; [reflexivity|]. cbn [forallb] in H. apply andb_true_iff in H.
  destruct H as [Hc _]. apply digit_range in Hc.
  unfold str_in. apply not_true_is_false. intros E. apply existsb_exists in E.
  destruct E as (kw & Hin & He). apply str_eqb_eq in He. subst kw.
  vm_compute in Hin. repeat destruct Hin as [Hin|Hin]; try (inversion Hin; lia).
Qed.

(** The text that [str] (and so [print]) shows for an int that is not
    negative evaluates back to that int, unless some scope of the
    chain binds that very text as a name.  This holds up to the
    host's limit of 4300 digits: an int from [10 ^ 4300] on has no
    text ([str] raises [ValueError]), and its decimal digits,
    written in a program, are no int literal but the error "Invalid
    expression". *)
Theorem int_text_evaluates_back : forall h rec n ln file st,
  (0 <= n)%Z ->
  Scope.exists_ (scopes st) (current_scope st) (of_Z n) = false ->
  ((n < 10 ^ 4300)%Z ->
   Py.str (VInt n) = Some (of_Z n)
   /\ evaluate h rec (of_Z n) ln file st = (Ok (VInt n), st))
  /\ ((10 ^ 4300 <= n)%Z ->
      Py.str (VInt n) = None /\ Py.str_raises (VInt n) = true
      /\ evaluate h rec (of_Z n) ln file st
         = error value (U "Invalid expression: " ++ of_Z n) ln file (Some (of_Z n)) st).
Proof.
  intros h rec n ln file st Hn Hex.
  destruct (of_Z_spec n Hn) as (Hd & Hne & Hv).
  pose proof (evaluate_word h rec (of_Z n) ln file st Hne (digits_are_words _ Hd)
                (digit_text_not_literal _ Hd)) as He.
  unfold Scope.exists_ in Hex. rewrite get_from_exists in Hex.
  destruct (Scope.get_from _ _ _ _); [discriminate|].
  destruct (str_of_int n Hn) as [Hs Hb]. split.
  - intros Hlt. split; [now apply Hs|].
    now rewrite He, (parse_int_of_Z n (conj Hn Hlt)).
  - intros Hge. destruct (Hb Hge) as [H1 H2]. conj_split; [exact H1 | exact H2|].
    now rewrite He, (parse_int_beyond n Hge).
Qed.

Lemma int_text_evaluates_back_witness :
  evaluate no_files no_fuel (of_Z (10 ^ 30)) (Some 1%nat) None initial_state
  = (Ok (VInt (10 ^ 30)), initial_state).
Proof.
  refine (proj2 (proj1 (int_text_evaluates_back no_files no_fuel (10 ^ 30) (Some 1%nat)
                          None initial_state _ _) _)).
  - vm_compute. discriminate.
  - vm_compute. reflexivity.
  - vm_compute. reflexivity.
Defined.

(* ================================================================== *)
(** * Comments *)
(* ================================================================== *)

Lemma lstrip_chars : forall s c, In c (lstrip s) -> In c s.
Proof.
  induction s as [|d s IH]; intros c H; [exact H|]. cbn [lstrip] in H.
  destruct (is_space d); [right; now apply IH | exact H].
Qed.

Lemma strip_chars : forall s c, In c (strip s) -> In c s.
Proof.
  intros s c H. unfold strip, rstrip in H. apply in_rev in H. apply lstrip_chars in H.
  apply in_rev in H. now apply lstrip_chars.
Qed.

Lemma lstrip_app_nil : forall s t, lstrip s = [] -> lstrip (s ++ t) = lstrip t.
Proof.
  induction s as [|d s IH]; intros t H; [reflexivity|]. cbn [lstrip app] in *.
  destruct (is_space d); [now apply IH | discriminate].
Qed.

Lemma lstrip_app_cons : forall s t x r, lstrip s = x :: r -> lstrip (s ++ t) = x :: r ++ t.
Proof.
  induction s as [|d s IH]; intros t x r H; [discriminate|]. cbn [lstrip app] in *.
  destruct (is_space d); [now apply IH|]. now inversion H.
Qed.

Lemma lstrip_head : forall s x r, lstrip s = x :: r -> is_space x = false /\ In x s.
Proof.
  induction s as [|d s IH]; intros x r H; [discriminate|]. cbn [lstrip] in H.
  destruct (is_space d) eqn:E.
  - destruct (IH x r H) as [H1 H2]. split; [exact H1 | now right].
  - inversion H; subst. split; [exact E | now left].
Qed.

Lemma lstrip_keeps_last : forall l x,
  is_space x = false -> exists l', lstrip (l ++ [x]) = l' ++ [x].
Proof.
  induction l as [|d l IH]; intros x Hx; cbn [app lstrip].
  - rewrite Hx. now exists [].
  - destruct (is_space d); [now apply IH | now exists (d :: l)].
Qed.

Lemma rstrip_head : forall x t, is_space x = false -> exists t', rstrip (x :: t) = x :: t'.
Proof.
  intros x t Hx. unfold rstrip. cbn [rev].
  destruct (lstrip_keeps_last (rev t) x Hx) as [l' ->].
  rewrite rev_app_distr. cbn [rev app]. now eexists.
Qed.

Lemma split_aux_no_head : forall o sep s cur,
  ~ In o s -> split_aux (o :: sep) s 0 cur = [rev cur ++ s].
Proof.
  intros o sep s. induction s as [|d s IH]; intros cur H; cbn [split_aux].
  - now rewrite app_nil_r.
  - assert (Hd : (o =? d)%N = false) by (apply N.eqb_neq; intros ->; apply H; now left).
    cbn [startswith]. rewrite Hd. cbn [andb]. rewrite IH by (intros Hin; apply H; now right).
    cbn [rev]. now rewrite <- app_assoc.
Qed.

Lemma split_aux_at_char : forall x e c cur,
  ~ In x e -> split_aux [x] (e ++ x :: c) 0 cur = (rev cur ++ e) :: split_aux [x] c 0 [].
Proof.
  intros x e c. induction e as [|d e IH]; intros cur H; cbn [app split_aux].
  - cbn [startswith]. rewrite N.eqb_refl. cbn [andb].
    replace (startswith c []) with true by (now destruct c).
    change (List.length [x] - 1) with 0. now rewrite app_nil_r.
  - assert (Hd : (x =? d)%N = false) by (apply N.eqb_neq; intros ->; apply H; now left).
    cbn [startswith]. rewrite Hd. cbn [andb]. rewrite IH by (intros Hin; apply H; now right).
    cbn [rev]. now rewrite <- app_assoc.
Qed.

Lemma startswith_one : forall x t, startswith (x :: t) [x] = true.
Proof. intros x t. cbn [startswith]. rewrite N.eqb_refl. now destruct t. Qed.

Lemma uncomment_cut : forall e c, ~ In 35%N e -> uncomment (e ++ 35%N :: c) = strip e.
Proof.
  intros e c H. unfold uncomment, split. change (U "#") with [35%N].
  now rewrite (split_aux_at_char 35%N e c [] H).
Qed.

Lemma uncomment_none : forall e, ~ In 35%N e -> uncomment e = strip e.
Proof.
  intros e H. unfold uncomment, split. change (U "#") with [35%N].
  now rewrite (split_aux_no_head 35%N [] e [] H).
Qed.

Lemma startswith_hash_strip : forall e, ~ In 35%N e -> startswith (strip e) (U "#") = false.
Proof.
  intros e H. destruct (startswith (strip e) (U "#")) eqn:E; [|reflexivity].
  exfalso. apply H. apply strip_chars. apply (startswith_chars _ (U "#")); [exact E | now left].
Qed.

(** What follows the first ["#"] of an expression is not looked at:
    the expression evaluates as the text before it does.  The cut is
    made on the raw text, before any string literal is recognised,
    so a ["#"] inside quotes cuts the literal as well. *)
Theorem comment_is_ignored : forall h rec e c ln file st,
  ~ In 35%N e ->
  evaluate h rec (e ++ 35%N :: c) ln file st = evaluate h rec e ln file st.
Proof.
  intros h rec e c ln file st H. unfold evaluate.
  rewrite (uncomment_cut e c H), (uncomment_none e H), (startswith_hash_strip e H).
  rewrite orb_false_r.
  replace (match e ++ 35%N :: c with [] => true | _ :: _ => false end) with false
    by (now destruct e).
  cbn [orb]. unfold strip at 1.
  destruct (lstrip e) as [|x r] eqn:El.
  - rewrite (lstrip_app_nil e _ El). cbn [lstrip].
    change (is_space 35) with false. cbv iota.
    destruct (rstrip_head 35%N c eq_refl) as [t' ->].
    change (U "#") with [35%N]. rewrite startswith_one. cbv iota.
    unfold strip. rewrite El. change (rstrip []) with (@nil N).
    now destruct e.
  - destruct (lstrip_head e x r El) as [Hx Hin].
    rewrite (lstrip_app_cons e _ x r El).
    destruct (rstrip_head x (r ++ 35%N :: c) Hx) as [t' ->].
    assert (Hne : (35 =? x)%N = false) by (apply N.eqb_neq; intros <-; contradiction).
    change (U "#") with [35%N]. cbn [startswith]. rewrite Hne. cbn [andb].
    destruct e; [discriminate | reflexivity].
Qed.

Lemma comment_is_ignored_witness :
  evaluate no_files (knot no_files 3) (U "1 + 2 # the sum") (Some 1%nat) None initial_state
  = evaluate no_files (knot no_files 3) (U "1 + 2 ") (Some 1%nat) None initial_state
  /\ evaluate no_files (knot no_files 3) (U "'a#b'") (Some 1%nat) None initial_state
     = evaluate no_files (knot no_files 3) (U "'a") (Some 1%nat) None initial_state.
Proof.
  split.
  - apply (comment_is_ignored no_files (knot no_files 3) (U "1 + 2 ") (U " the sum")).
    vm_compute. intros H. repeat destruct H as [H|H]; try discriminate H; exact H.
  - apply (comment_is_ignored no_files (knot no_files 3) (U "'a") (U "b'")).
    vm_compute. intros H. repeat destruct H as [H|H]; try discriminate H; exact H.
Defined.

(* ================================================================== *)
(** * String literals *)
(* ================================================================== *)

(** Inside quotes the scan of [split_by_op] only copies, up to the
    quote that closes. *)
Lemma split_scan_in_string : forall op q body prev depth cur parts,
  is_quote q = true -> ~ In q body ->
  split_scan op (body ++ [q]) 0 prev depth true (Some q) cur parts
  = rev (push_part (q :: rev body ++ cur) parts).
Proof.
  intros op q body. induction body as [|c b IH]; intros prev depth cur parts Hq Hin.
  - cbn [app split_scan rev]. rewrite Hq. cbn [negb opt_eqb]. rewrite N.eqb_refl.
    destruct (negb (opt_eqb prev backslash)); reflexivity.
  - assert (Hc : (q =? c)%N = false) by (apply N.eqb_neq; intros ->; apply Hin; now left).
    assert (Hb : ~ In q b) by (intros H; apply Hin; now right).
    cbn [app split_scan]. cbn [negb opt_eqb]. rewrite Hc.
    assert (E : forall p, split_scan op (b ++ [q]) 0 (Some c) depth true (Some q) (c :: cur) p
                          = rev (push_part (q :: rev (c :: b) ++ cur) p)).
    { intros p. rewrite (IH (Some c) depth (c :: cur) p Hq Hb). cbn [rev].
      now rewrite <- app_assoc. }
    destruct (is_quote c && negb (opt_eqb prev backslash)); apply E.
Qed.

Lemma split_by_op_quoted : forall q body op,
  is_quote q = true -> ~ In q body ->
  split_by_op (q :: body ++ [q]) op = [q :: body ++ [q]].
Proof.
  intros q body op Hq Hin. unfold split_by_op. cbv zeta. cbn [split_scan].
  rewrite Hq. cbn [opt_eqb negb andb].
  rewrite (split_scan_in_string op q body (Some q) 0%Z [q] [] Hq Hin).
  unfold push_part. destruct (strip _); reflexivity.
Qed.

Section NoOperator.
Variable s : pystr.
Hypothesis Hs : forall op, split_by_op s op = [s].

Lemma first_split_whole : forall seps, first_split s seps = None.
Proof. induction seps as [|sep r IH]; cbn [first_split]; [|rewrite Hs]; auto. Qed.

Lemma first_split_op_whole : forall ops, first_split_op s ops = None.
Proof. induction ops as [|op r IH]; cbn [first_split_op]; [|rewrite Hs]; auto. Qed.

Lemma first_compare_whole : forall ops, first_compare s ops = None.
Proof. induction ops as [|op r IH]; cbn [first_compare]; [|rewrite Hs]; auto. Qed.

End NoOperator.

Lemma quote_cases : forall q, is_quote q = true -> q = quote2 \/ q = quote1.
Proof.
  intros q H. unfold is_quote in H. apply orb_true_iff in H.
  destruct H as [H|H]; apply N.eqb_eq in H; auto.
Qed.

Lemma quote_not_space : forall q, is_quote q = true -> is_space q = false.
Proof. intros q H. destruct (quote_cases q H) as [-> | ->]; reflexivity. Qed.

Lemma strip_quoted : forall q body,
  is_quote q = true -> strip (q :: body ++ [q]) = q :: body ++ [q].
Proof.
  intros q body Hq. pose proof (quote_not_space q Hq) as Hsp.
  unfold strip, rstrip. cbn [lstrip]. rewrite Hsp.
  change (q :: body ++ [q]) with ((q :: body) ++ [q]).
  rewrite rev_app_distr. cbn [rev app lstrip]. rewrite Hsp.
  change (q :: rev body ++ [q]) with ([q] ++ rev (q :: body)).
  rewrite rev_app_distr, rev_involutive. reflexivity.
Qed.

Lemma endswith_last : forall s q, endswith (s ++ [q]) [q] = true.
Proof.
  intros s q. unfold endswith. rewrite rev_app_distr. cbn [rev app]. apply startswith_one.
Qed.

Lemma slice_inner : forall (q : N) body, slice (q :: body ++ [q]) 1 (-1) = body.
Proof.
  intros q body. unfold slice, norm_index. cbv zeta.
  cbn [List.length]. rewrite length_app. cbn [List.length].
  destruct (Z.ltb_spec 1 0) as [|_]; [lia|]. destruct (Z.ltb_spec (-1) 0) as [_|]; [|lia].
  replace (Z.to_nat (Z.min 1 (Z.of_nat (S (List.length body + 1))))) with 1 by lia.
  replace (Z.to_nat (Z.max 0 (-1 + Z.of_nat (S (List.length body + 1)))
                     - Z.min 1 (Z.of_nat (S (List.length body + 1)))))
    with (List.length body) by lia.
  cbn [skipn]. rewrite firstn_app, Nat.sub_diag, firstn_all. cbn [firstn].
  apply app_nil_r.
Qed.

Lemma replace_absent : forall s o old new, ~ In o s -> replace s (o :: old) new = s.
Proof.
  intros s o old new H. unfold replace, split.
  now rewrite (split_aux_no_head o old s [] H).
Qed.

Lemma parse_string_plain : forall s, ~ In backslash s -> parse_string s = s.
Proof.
  intros s H. unfold parse_string. cbv zeta.
  repeat rewrite (replace_absent s backslash _ _ H). reflexivity.
Qed.

Lemma eval_arith_quoted : forall h rec q body ln file st,
  is_quote q = true -> ~ In q body ->
  eval_arith h rec (q :: body ++ [q]) ln file st
  = (Ok (VStr (parse_string body)), st).
Proof.
  intros h rec q body ln file st Hq Hin.
  pose proof (fun op => split_by_op_quoted q body op Hq Hin) as Hs.
  pose proof (strip_quoted q body Hq) as Hst.
  unfold eval_arith. cbv zeta.
  assert (Hu : unwrap (q :: body ++ [q]) = q :: body ++ [q]).
  { unfold unwrap. rewrite Hst. cbn [strip_parens startswith].
    destruct (quote_cases q Hq) as [-> | ->]; reflexivity. }
  rewrite Hu. rewrite (first_split_whole _ Hs), (first_split_whole _ Hs).
  assert (Hnot : startswith_any (q :: body ++ [q]) [U "not "; U "ليس "; U "!"] = false)
    by (destruct (quote_cases q Hq) as [-> | ->]; reflexivity).
  rewrite Hnot, (first_compare_whole _ Hs), (first_split_op_whole _ Hs),
    (first_split_op_whole _ Hs), Hs.
  cbn [List.length Nat.ltb Nat.leb].
  replace (if contains (U "^") (q :: body ++ [q]) then [] else [])
    with (@nil pystr) by (now destruct (contains _ _)).
  unfold eval_base. rewrite Hst.
  assert (Hkw : forall l, forallb (fun kw => match kw with
                                             | k :: _ => negb (is_quote k)
                                             | [] => true
                                             end) l = true ->
                          str_in (q :: body ++ [q]) l = false).
  { induction l as [|kw l IH]; intros H; [reflexivity|]. cbn [forallb] in H.
    apply andb_true_iff in H. destruct H as [H1 H2]. unfold str_in. cbn [existsb].
    fold (str_in (q :: body ++ [q]) l). rewrite (IH H2), orb_false_r.
    destruct kw as [|k kw]; [reflexivity|]. cbn [str_eqb].
    destruct (N.eqb_spec q k) as [<-|]; [|reflexivity]. rewrite Hq in H1. discriminate. }
  rewrite !Hkw by reflexivity.
  assert (Hlit : startswith (q :: body ++ [q]) [quote2] && endswith (q :: body ++ [q]) [quote2]
                 || startswith (q :: body ++ [q]) [quote1]
                    && endswith (q :: body ++ [q]) [quote1] = true).
  { destruct (quote_cases q Hq) as [-> | ->].
    - rewrite startswith_one. change (quote2 :: body ++ [quote2])
        with ((quote2 :: body) ++ [quote2]). now rewrite endswith_last.
    - rewrite startswith_one. change (quote1 :: body ++ [quote1])
        with ((quote1 :: body) ++ [quote1]). rewrite endswith_last. apply orb_true_r. }
  rewrite Hlit, slice_inner. reflexivity.
Qed.

(** A quoted text evaluates to the text between its quotes, with the
    escapes replaced (none, when it holds no backslash).  No operator
    inside the quotes splits it: ['a + b'] and ['1 == 2'] are
    strings.  The text must hold neither its own quote nor ["#"],
    which [evaluate] cuts at before anything else. *)
Theorem string_literal_value : forall h rec q body ln file st,
  is_quote q = true -> ~ In q body -> ~ In 35%N body ->
  evaluate h rec (q :: body ++ [q]) ln file st = (Ok (VStr (parse_string body)), st)
  /\ (~ In backslash body -> parse_string body = body).
Proof.
  intros h rec q body ln file st Hq Hin Hh. split; [|apply parse_string_plain].
  assert (Hq35 : q <> 35%N) by (destruct (quote_cases q Hq) as [-> | ->]; discriminate).
  assert (Hno : ~ In 35%N (q :: body ++ [q])).
  { intros [H|H]; [now apply Hq35|]. apply in_app_or in H.
    destruct H as [H|[H|[]]]; [now apply Hh | now apply Hq35]. }
  unfold evaluate. rewrite (startswith_hash_strip _ Hno), (uncomment_none _ Hno).
  rewrite (strip_quoted q body Hq). cbn [orb].
  now rewrite (eval_arith_quoted h rec q body ln file st Hq Hin).
Qed.

Lemma string_literal_value_witness :
  evaluate no_files no_fuel (U "'1 + 2 == 3 and x'") (Some 1%nat) None initial_state
  = (Ok (VStr (U "1 + 2 == 3 and x")), initial_state).
Proof.
  assert (Hq : ~ In quote1 (U "1 + 2 == 3 and x"))
    by (vm_compute; intros H; repeat destruct H as [H|H]; try discriminate H; exact H).
  assert (Hh : ~ In 35%N (U "1 + 2 == 3 and x"))
    by (vm_compute; intros H; repeat destruct H as [H|H]; try discriminate H; exact H).
  assert (Hb : ~ In backslash (U "1 + 2 == 3 and x"))
    by (vm_compute; intros H; repeat destruct H as [H|H]; try discriminate H; exact H).
  destruct (string_literal_value no_files no_fuel quote1 (U "1 + 2 == 3 and x") (Some 1%nat)
              None initial_state eq_refl Hq Hh) as [He Hp].
  rewrite (Hp Hb) in He. exact He.
Defined.

(* ================================================================== *)
(** * Operators of one level *)
(* ================================================================== *)

Lemma plain_bump : forall c d, plain_char c = true -> bump d c = d.
Proof.
  intros c d H. unfold plain_char in H. rewrite !andb_true_iff, !negb_true_iff in H.
  destruct H as [[_ Ho] Hc]. unfold bump. now rewrite Ho, Hc.
Qed.

Lemma plain_not_quote : forall c, plain_char c = true -> is_quote c = false.
Proof.
  intros c H. unfold plain_char in H. rewrite !andb_true_iff, !negb_true_iff in H. tauto.
Qed.

Lemma word_plain : forall c, word_char c = true -> plain_char c = true.
Proof.
  intros c H. pose proof (word_char_range c H) as Hr.
  unfold plain_char, is_quote, is_open, is_close, quote1, quote2.
  rewrite !andb_true_iff, !negb_true_iff, !orb_false_iff, !N.eqb_neq. lia.
Qed.

Lemma words_plain : forall s, forallb word_char s = true -> forallb plain_char s = true.
Proof.
  intros s H. apply forallb_forall. intros c Hc. apply word_plain.
  exact (forallb_In _ _ _ _ H Hc).
Qed.

(** One step of the scan at an ordinary character. *)
Lemma split_scan_plain : forall op c r prev sc cur parts,
  plain_char c = true ->
  split_scan op (c :: r) 0 prev 0%Z false sc cur parts
  = if startswith (c :: r) op
    then split_scan op r (List.length op - 1) (Some c) 0%Z false sc [] (push_part cur parts)
    else split_scan op r 0 (Some c) 0%Z false sc (c :: cur) parts.
Proof.
  intros op c r prev sc cur parts H. cbn [split_scan].
  rewrite (plain_not_quote c H). cbn [andb negb]. rewrite (plain_bump c 0%Z H).
  cbv zeta. reflexivity.
Qed.

(** Where the operator does not begin, the scan only copies. *)
Lemma split_scan_copies : forall op s prev sc cur parts,
  forallb plain_char s = true -> find_aux op s 0 = None ->
  split_scan op s 0 prev 0%Z false sc cur parts = rev (push_part (rev s ++ cur) parts).
Proof.
  intros op s. induction s as [|c s IH]; intros prev sc cur parts Hp Hf; [reflexivity|].
  cbn [forallb] in Hp. apply andb_true_iff in Hp. destruct Hp as [Hc Hs].
  rewrite (split_scan_plain op c s prev sc cur parts Hc).
  cbn [find_aux] in Hf. destruct (startswith (c :: s) op); [discriminate|].
  assert (Hf' : find_aux op s 0 = None).
  { destruct (find_aux op s 0) as [j|] eqn:E; [|reflexivity]. exfalso.
    assert (G : forall t i k, find_aux op t i = Some k -> find_aux op t (S i) = Some (S k)).
    { induction t as [|d t IHt]; intros i k Hk; cbn [find_aux] in *.
      - destruct (startswith [] op); [now inversion Hk | discriminate].
      - destruct (startswith (d :: t) op); [now inversion Hk | now apply IHt]. }
    rewrite (G s 0 j E) in Hf. discriminate. }
  rewrite (IH (Some c) sc (c :: cur) parts Hs Hf'). cbn [rev]. now rewrite <- app_assoc.
Qed.

Lemma find_aux_none_shift : forall p s i j, find_aux p s i = None -> find_aux p s j = None.
Proof.
  intros p s. induction s as [|c s IH]; intros i j H; cbn [find_aux] in *.
  - destruct (startswith [] p); [discriminate | reflexivity].
  - destruct (startswith (c :: s) p); [discriminate | now apply (IH (S i))].
Qed.

Lemma split_by_op_copies : forall op s,
  forallb plain_char s = true -> find_aux op s 0 = None -> split_by_op s op = [s].
Proof.
  intros op s Hp Hf. unfold split_by_op. cbv zeta.
  rewrite (split_scan_copies op s None None [] [] Hp Hf).
  unfold push_part. destruct (strip (rev (rev s ++ []))); reflexivity.
Qed.

(** An operator holding a character that the expression lacks. *)
Lemma find_aux_absent : forall op o s i, In o op -> ~ In o s -> find_aux op s i = None.
Proof.
  intros op o s i Ho Hs. destruct (find_aux op s i) as [j|] eqn:E; [|reflexivity].
  exfalso. apply Hs. exact (find_aux_chars op s i j o E Ho).
Qed.

Lemma split_by_op_absent : forall op o s,
  forallb plain_char s = true -> In o op -> ~ In o s -> split_by_op s op = [s].
Proof.
  intros op o s Hp Ho Hs. apply split_by_op_copies; [exact Hp|].
  exact (find_aux_absent op o s 0 Ho Hs).
Qed.

(** No operator begins inside a word. *)
Lemma find_aux_after_word : forall p w rest,
  forallb word_char w = true -> foreign_head p = true ->
  find_aux p rest 0 = None -> find_aux p (w ++ rest) 0 = None.
Proof.
  intros p w rest Hw Hp Hr. induction w as [|c w IH]; [exact Hr|].
  cbn [forallb] in Hw. apply andb_true_iff in Hw. destruct Hw as [Hc Hw].
  cbn [app find_aux].
  assert (Hst : startswith (c :: w ++ rest) p = false).
  { destruct p as [|o p]; [discriminate|]. cbn [foreign_head] in Hp. cbn [startswith].
    destruct (N.eqb_spec o c) as [->|]; [|reflexivity]. rewrite Hc in Hp. discriminate. }
  rewrite Hst. exact (find_aux_none_shift p _ 0 1 (IH Hw)).
Qed.

Lemma find_aux_after_char : forall p c r,
  startswith (c :: r) p = false -> find_aux p r 0 = None -> find_aux p (c :: r) 0 = None.
Proof.
  intros p c r H Hr. cbn [find_aux]. rewrite H. exact (find_aux_none_shift p r 0 1 Hr).
Qed.

Lemma find_aux_word : forall p w,
  forallb word_char w = true -> foreign_head p = true -> find_aux p w 0 = None.
Proof.
  intros p w Hw Hp. rewrite <- (app_nil_r w). apply find_aux_after_word; try assumption.
  destruct p; [discriminate | reflexivity].
Qed.

(** A word followed by a blank begins with [k] and a blank only when
    it is [k]. *)
Lemma startswith_word_blank : forall y k r,
  forallb word_char y = true -> forallb word_char k = true ->
  startswith (y ++ 32%N :: r) (k ++ [32%N]) = true -> y = k.
Proof.
  induction y as [|d y IH]; intros [|c k] r Hy Hk H; cbn [app startswith] in H.
  - reflexivity.
  - cbn [forallb] in Hk. apply andb_true_iff in Hk. destruct Hk as [Hc _].
    apply andb_true_iff in H. destruct H as [H _]. apply N.eqb_eq in H. subst c. discriminate.
  - cbn [forallb] in Hy. apply andb_true_iff in Hy. destruct Hy as [Hd _].
    apply andb_true_iff in H. destruct H as [H _]. apply N.eqb_eq in H. subst d. discriminate.
  - cbn [forallb] in Hy, Hk. apply andb_true_iff in Hy, Hk.
    apply andb_true_iff in H. destruct H as [H1 H2]. apply N.eqb_eq in H1. subst d.
    f_equal. exact (IH k r (proj2 Hy) (proj2 Hk) H2).
Qed.

Lemma startswith_symbol : forall o r k,
  forallb word_char k = true -> word_char o = false -> o <> 32%N ->
  startswith (o :: r) (k ++ [32%N]) = false.
Proof.
  intros o r [|c k] Hk Ho Hn; cbn [app startswith].
  - destruct (N.eqb_spec 32 o) as [E|]; [now symmetry in E | reflexivity].
  - cbn [forallb] in Hk. apply andb_true_iff in Hk.
    destruct (N.eqb_spec c o) as [->|]; [|reflexivity].
    rewrite (proj1 Hk) in Ho. discriminate.
Qed.

Lemma startswith_cons : forall c s d p,
  startswith (c :: s) (d :: p) = (d =? c)%N && startswith s p.
Proof. reflexivity. Qed.

Section Keyword.
Variables (k : pystr) (o : N) (z : pystr).
Hypothesis Hk : forallb word_char k = true.
Hypothesis Ho : word_char o = false.
Hypothesis Hn : o <> 32%N.
Hypothesis Hz : forallb word_char z = true.

Lemma find_keyword_tail : find_aux (32%N :: k ++ [32%N]) (32%N :: o :: 32%N :: z) 0 = None.
Proof.
  apply find_aux_after_char.
  { now rewrite startswith_cons, (startswith_symbol o _ k Hk Ho Hn), andb_false_r. }
  apply find_aux_after_char.
  { rewrite startswith_cons.
    destruct (N.eqb_spec 32 o) as [E|]; [now symmetry in E | reflexivity]. }
  apply find_aux_after_char.
  { rewrite startswith_cons, (word_startswith z Hz (k ++ [32%N]) 32%N);
      [apply andb_false_r | apply in_or_app; right; now left | reflexivity]. }
  now apply find_aux_word.
Qed.

Lemma find_keyword_pair : forall w,
  forallb word_char w = true ->
  find_aux (32%N :: k ++ [32%N]) (w ++ 32%N :: o :: 32%N :: z) 0 = None.
Proof.
  intros w Hw. apply find_aux_after_word; [exact Hw | reflexivity | apply find_keyword_tail].
Qed.

End Keyword.

Lemma find_keyword_triple : forall k x o1 y o2 z,
  forallb word_char k = true -> forallb word_char x = true ->
  forallb word_char y = true -> forallb word_char z = true ->
  word_char o1 = false -> o1 <> 32%N -> word_char o2 = false -> o2 <> 32%N ->
  y <> k ->
  find_aux (32%N :: k ++ [32%N]) (x ++ 32%N :: o1 :: 32%N :: y ++ 32%N :: o2 :: 32%N :: z) 0
  = None.
Proof.
  intros k x o1 y o2 z Hk Hx Hy Hz Ho1 Hn1 Ho2 Hn2 Hyk.
  apply find_aux_after_word; [exact Hx | reflexivity|].
  apply find_aux_after_char.
  { now rewrite startswith_cons, (startswith_symbol o1 _ k Hk Ho1 Hn1), andb_false_r. }
  apply find_aux_after_char.
  { rewrite startswith_cons.
    destruct (N.eqb_spec 32 o1) as [E|]; [now symmetry in E | reflexivity]. }
  apply find_aux_after_char.
  { rewrite startswith_cons, N.eqb_refl. cbn [andb].
    destruct (startswith _ _) eqn:E; [|reflexivity].
    exfalso. apply Hyk. exact (startswith_word_blank y k _ Hy Hk E). }
  now apply find_keyword_pair.
Qed.

Lemma split_scan_over_word : forall op w rest prev sc cur parts,
  forallb word_char w = true -> foreign_head op = true ->
  exists prev',
    split_scan op (w ++ rest) 0 prev 0%Z false sc cur parts
    = split_scan op rest 0 prev' 0%Z false sc (rev w ++ cur) parts.
Proof.
  intros op w rest. induction w as [|c w IH]; intros prev sc cur parts Hw Hop;
    [now exists prev|].
  cbn [forallb] in Hw. apply andb_true_iff in Hw. destruct Hw as [Hc Hw].
  cbn [app]. rewrite (split_scan_plain op c (w ++ rest) prev sc cur parts (word_plain c Hc)).
  assert (Hst : startswith (c :: w ++ rest) op = false).
  { destruct op as [|o op]; [discriminate|]. cbn [foreign_head] in Hop. rewrite startswith_cons.
    destruct (N.eqb_spec o c) as [->|]; [|reflexivity]. rewrite Hc in Hop. discriminate. }
  rewrite Hst. destruct (IH (Some c) sc (c :: cur) parts Hw Hop) as [prev' ->].
  exists prev'. cbn [rev]. now rewrite <- app_assoc.
Qed.

Lemma rstrip_blank : forall s, rstrip (s ++ [32%N]) = rstrip s.
Proof. intros s. unfold rstrip. rewrite rev_app_distr. reflexivity. Qed.

Lemma rstrip_word : forall w, forallb word_char w = true -> rstrip w = w.
Proof.
  intros w Hw. unfold rstrip. rewrite lstrip_word; [apply rev_involutive|].
  apply forallb_forall. intros x Hx. apply in_rev in Hx. exact (forallb_In _ _ _ _ Hw Hx).
Qed.

Lemma strip_word_blank : forall w, forallb word_char w = true -> strip (w ++ [32%N]) = w.
Proof.
  intros w Hw. unfold strip. destruct w as [|c w]; [reflexivity|].
  pose proof Hw as Hw'. cbn [forallb] in Hw'. apply andb_true_iff in Hw'.
  cbn [app lstrip]. rewrite (word_not_space c (proj1 Hw')).
  change (c :: w ++ [32%N]) with ((c :: w) ++ [32%N]).
  rewrite rstrip_blank. now apply rstrip_word.
Qed.

(** An expression [w o rest] splits at the symbol [o] into [w] and
    [rest] when [rest] does not hold [o]. *)
Lemma split_by_op_symbol : forall o w rest,
  forallb word_char w = true -> w <> [] ->
  word_char o = false -> plain_char o = true -> o <> 32%N ->
  forallb plain_char rest = true -> ~ In o rest -> strip rest = rest -> rest <> [] ->
  split_by_op (w ++ 32%N :: o :: 32%N :: rest) [o] = [w; rest].
Proof.
  intros o w rest Hw Hne Ho Hp Hn Hr Hin Hs Hre. unfold split_by_op. cbv zeta.
  assert (Hf : foreign_head [o] = true) by (cbn [foreign_head]; now rewrite Ho).
  destruct (split_scan_over_word [o] w (32%N :: o :: 32%N :: rest) None None [] [] Hw Hf)
    as [prev ->].
  rewrite (split_scan_plain [o] 32%N _ prev None _ _ eq_refl), startswith_cons.
  destruct (N.eqb_spec o 32) as [E|_]; [contradiction|]. cbn [andb].
  rewrite (split_scan_plain [o] o _ _ None _ _ Hp), startswith_one.
  change (List.length [o] - 1) with 0.
  rewrite split_scan_copies.
  - rewrite !app_nil_r.
    assert (P1 : push_part (32%N :: rev w) [] = [w]).
    { unfold push_part. cbn [rev]. rewrite rev_involutive, (strip_word_blank w Hw).
      destruct w; [contradiction | reflexivity]. }
    assert (P2 : push_part (rev (32%N :: rest)) [w] = [rest; w]).
    { unfold push_part. rewrite rev_involutive.
      assert (E : strip (32%N :: rest) = rest) by exact Hs.
      rewrite E. destruct rest; [contradiction | reflexivity]. }
    rewrite P1, P2. reflexivity.
  - cbn [forallb]. now rewrite Hr.
  - apply (find_aux_absent [o] o); [now left|]. intros [E|E]; [now symmetry in E | contradiction].
Qed.

(** Expressions written with words, blanks, ["*"] and ["%"]: the
    levels of [eval_arith] above the multiplicative one find nothing
    to split at. *)
Section Levels.
Variables (h : host_env) (rec : callbacks) (ln : option nat) (file : option pystr).
Variables (s w r : pystr).
Hypothesis Hchars :
  forall c, In c s -> word_char c = true \/ c = 32%N \/ c = 42%N \/ c = 37%N.
Hypothesis Hkw :
  forall k, In k [U "or"; U "او"; U "and"; U "و"] ->
            find_aux (32%N :: k ++ [32%N]) s 0 = None.
Hypothesis Hs : s = w ++ 32%N :: r.
Hypothesis Hw : forallb word_char w = true.
Hypothesis Hne : w <> [].
Hypothesis Hop : str_in w operator_words = false.
Hypothesis Hstrip : strip s = s.

Lemma level_plain : forallb plain_char s = true.
Proof.
  apply forallb_forall. intros c Hc.
  destruct (Hchars c Hc) as [H|[->|[->| ->]]]; [now apply word_plain | | | ]; reflexivity.
Qed.

Lemma level_absent : forall op o,
  In o op -> word_char o = false -> o <> 32%N -> o <> 42%N -> o <> 37%N ->
  split_by_op s op = [s].
Proof.
  intros op o Hin Ho H1 H2 H3. apply (split_by_op_absent op o); [apply level_plain | exact Hin|].
  intros Hc. destruct (Hchars o Hc) as [H|[H|[H|H]]]; [rewrite H in Ho; discriminate | | | ];
    contradiction.
Qed.

Lemma level_keyword : forall k,
  In k [U "or"; U "او"; U "and"; U "و"] -> split_by_op s (32%N :: k ++ [32%N]) = [s].
Proof. intros k Hk. apply split_by_op_copies; [apply level_plain | now apply Hkw]. Qed.

Lemma level_head : forall p, foreign_head p = true -> startswith s p = false.
Proof.
  intros [|d p] Hp; [discriminate|]. cbn [foreign_head] in Hp.
  destruct w as [|x w'] eqn:Ew; [contradiction|].
  cbn [forallb] in Hw. apply andb_true_iff in Hw.
  rewrite Hs. cbn [app]. rewrite startswith_cons.
  destruct (N.eqb_spec d x) as [->|]; [|reflexivity].
  rewrite (proj1 Hw) in Hp. discriminate.
Qed.

Lemma level_word : forall k,
  forallb word_char k = true -> str_in k operator_words = true ->
  startswith s (k ++ [32%N]) = false.
Proof.
  intros k Hk Hin. destruct (startswith s (k ++ [32%N])) eqn:E; [|reflexivity]. exfalso.
  rewrite Hs in E. rewrite <- (startswith_word_blank w k r Hw Hk E) in Hin.
  rewrite Hin in Hop. discriminate.
Qed.

Lemma level_unwrap : unwrap s = s.
Proof.
  unfold unwrap. rewrite Hstrip. cbn [strip_parens].
  now rewrite (level_head [40%N] eq_refl).
Qed.

Lemma eval_arith_product_level : forall op p0 rest,
  first_split_op s multiplicative_ops = Some (op, p0 :: rest) ->
  eval_arith h rec s ln file
  = (result <- r_eval_arith rec p0 ln file ;;
     multiplicative_loop (fun p => r_eval_arith rec p ln file) op ln file s result rest).
Proof.
  intros op p0 rest Hm. unfold eval_arith. cbv zeta. rewrite level_unwrap.
  assert (K1 : split_by_op s (U " or ") = [s]) by (apply (level_keyword (U "or")); cbn; auto).
  assert (K2 : split_by_op s (U " او ") = [s]) by (apply (level_keyword (U "او")); cbn; auto).
  assert (K3 : split_by_op s (U " and ") = [s]) by (apply (level_keyword (U "and")); cbn; auto).
  assert (K4 : split_by_op s (U " و ") = [s]) by (apply (level_keyword (U "و")); cbn; auto).
  assert (A : forall op o, In o op -> word_char o = false ->
                           o <> 32%N -> o <> 42%N -> o <> 37%N -> split_by_op s op = [s])
    by exact level_absent.
  assert (K5 : split_by_op s (U " || ") = [s])
    by (apply (A _ 124%N); [cbn; auto | reflexivity | | | ]; discriminate).
  assert (K6 : split_by_op s (U " && ") = [s])
    by (apply (A _ 38%N); [cbn; auto | reflexivity | | | ]; discriminate).
  unfold or_seps, and_seps. cbn [first_split]. rewrite K1, K2, K5, K3, K4, K6.
  cbn [List.length Nat.ltb Nat.leb].
  assert (Hnot : startswith_any s [U "not "; U "ليس "; U "!"] = false).
  { unfold startswith_any. cbn [existsb].
    rewrite (level_word (U "not") eq_refl eq_refl : startswith s (U "not ") = false).
    rewrite (level_word (U "ليس") eq_refl eq_refl : startswith s (U "ليس ") = false).
    now rewrite (level_head (U "!") eq_refl). }
  rewrite Hnot.
  assert (C1 : split_by_op s (U "==") = [s])
    by (apply (A _ 61%N); [cbn; auto | reflexivity | | | ]; discriminate).
  assert (C2 : split_by_op s (U "!=") = [s])
    by (apply (A _ 61%N); [cbn; auto | reflexivity | | | ]; discriminate).
  assert (C3 : split_by_op s (U ">=") = [s])
    by (apply (A _ 61%N); [cbn; auto | reflexivity | | | ]; discriminate).
  assert (C4 : split_by_op s (U "<=") = [s])
    by (apply (A _ 61%N); [cbn; auto | reflexivity | | | ]; discriminate).
  assert (C5 : split_by_op s (U ">") = [s])
    by (apply (A _ 62%N); [cbn; auto | reflexivity | | | ]; discriminate).
  assert (C6 : split_by_op s (U "<") = [s])
    by (apply (A _ 60%N); [cbn; auto | reflexivity | | | ]; discriminate).
  unfold compare_ops. cbn [first_compare]. rewrite C1, C2, C3, C4, C5, C6.
  assert (P1 : split_by_op s (U "+") = [s])
    by (apply (A _ 43%N); [cbn; auto | reflexivity | | | ]; discriminate).
  assert (P2 : split_by_op s (U "-") = [s])
    by (apply (A _ 45%N); [cbn; auto | reflexivity | | | ]; discriminate).
  unfold additive_ops. cbn [first_split_op]. rewrite P1, P2.
  cbn [List.length Nat.ltb Nat.leb]. rewrite Hm. reflexivity.
Qed.

End Levels.

Lemma operand_spec : forall w,
  operand w = true ->
  w <> [] /\ forallb word_char w = true /\ str_in w literal_words = false
  /\ str_in w operator_words = false.
Proof.
  intros w H. unfold operand in H. rewrite !andb_true_iff, !negb_true_iff in H.
  destruct H as [[[H1 H2] H3] H4]. repeat split; try assumption.
  intros ->. discriminate.
Qed.

Lemma operand_not_keyword : forall w k,
  str_in w operator_words = false -> str_in k operator_words = true -> w <> k.
Proof. intros w k Hw Hk ->. rewrite Hk in Hw. discriminate. Qed.

Lemma eval_arith_operand : forall h rec w ln file st v,
  operand w = true -> operand_value st w = Some v ->
  eval_arith h rec w ln file st = (Ok v, st).
Proof.
  intros h rec w ln file st v Ho Hv. destruct (operand_spec w Ho) as (Hne & Hw & Hlit & _).
  rewrite (eval_arith_word h rec w ln file Hw), (eval_base_word h rec w ln file st Hne Hw Hlit).
  unfold operand_value in Hv. unfold Scope.exists_, Scope.get. rewrite get_from_exists.
  destruct (Scope.get_from (S (current_scope st)) (scopes st) (current_scope st) w).
  - now inversion Hv.
  - destruct (Py.parse_int w); try discriminate. now inversion Hv.
Qed.

Lemma lstrip_app : forall a b, lstrip a = a -> a <> [] -> lstrip (a ++ b) = a ++ b.
Proof.
  intros [|x a] b H Hne; [contradiction|]. exact (lstrip_app_cons (x :: a) b x a H).
Qed.

Lemma rstrip_app : forall a b, rstrip b = b -> b <> [] -> rstrip (a ++ b) = a ++ b.
Proof.
  intros a b H Hne. unfold rstrip in *. rewrite rev_app_distr.
  assert (Hl : lstrip (rev b) = rev b).
  { rewrite <- (rev_involutive (lstrip (rev b))), H. reflexivity. }
  rewrite lstrip_app; [now rewrite rev_app_distr, !rev_involutive | exact Hl|].
  intros E. apply Hne. rewrite <- (rev_involutive b), E. reflexivity.
Qed.

Lemma strip_words_around : forall y mid z,
  forallb word_char y = true -> y <> [] -> forallb word_char z = true -> z <> [] ->
  strip (y ++ mid ++ z) = y ++ mid ++ z.
Proof.
  intros y mid z Hy Hyn Hz Hzn. unfold strip.
  rewrite (lstrip_app y (mid ++ z) (lstrip_word y Hy) Hyn).
  rewrite !app_assoc. apply rstrip_app; [now apply rstrip_word | exact Hzn].
Qed.

Lemma word_chars_of : forall w c o1 rest,
  forallb word_char w = true ->
  (forall d, In d rest -> word_char d = true \/ d = 32%N \/ d = 42%N \/ d = 37%N) ->
  o1 = 42%N \/ o1 = 37%N ->
  In c (w ++ 32%N :: o1 :: 32%N :: rest) ->
  word_char c = true \/ c = 32%N \/ c = 42%N \/ c = 37%N.
Proof.
  intros w c o1 rest Hw Hr Ho Hc. apply in_app_or in Hc.
  destruct Hc as [Hc|[Hc|[Hc|[Hc|Hc]]]].
  - left. exact (forallb_In _ _ _ _ Hw Hc).
  - subst. auto.
  - subst. destruct Ho as [-> | ->]; auto.
  - subst. auto.
  - now apply Hr.
Qed.

Lemma remainder_of_operands : forall h rec ln file st y z b c,
  operand y = true -> operand z = true ->
  (forall w v, operand w = true -> operand_value st w = Some v ->
               r_eval_arith rec w ln file st = (Ok v, st)) ->
  operand_value st y = Some (VInt b) -> operand_value st z = Some (VInt c) -> c <> 0%Z ->
  eval_arith h rec (y ++ 32%N :: 37%N :: 32%N :: z) ln file st = (Ok (VInt (b mod c)), st).
Proof.
  intros h rec ln file st y z b c Hy Hz Hrec Hb Hc Hc0.
  destruct (operand_spec y Hy) as (Hyn & Hyw & _ & Hyo).
  destruct (operand_spec z Hz) as (Hzn & Hzw & _ & _).
  assert (Hch : forall d, In d (y ++ 32%N :: 37%N :: 32%N :: z) ->
                          word_char d = true \/ d = 32%N \/ d = 42%N \/ d = 37%N).
  { intros d Hd. apply (word_chars_of y d 37%N z Hyw); auto.
    intros e He. left. exact (forallb_In _ _ _ _ Hzw He). }
  assert (Hnot : forall o, word_char o = false -> ~ In o z).
  { intros o Ho Hin. rewrite (forallb_In _ _ _ _ Hzw Hin) in Ho. discriminate. }
  assert (Hm : first_split_op (y ++ 32%N :: 37%N :: 32%N :: z) multiplicative_ops
               = Some (U "%", [y; z])).
  { unfold multiplicative_ops. cbn [first_split_op].
    rewrite (split_by_op_absent (U "*") 42%N); cycle 1.
    { apply forallb_forall. intros d Hd.
      destruct (Hch d Hd) as [H|[->|[->| ->]]]; [now apply word_plain | | | ]; reflexivity. }
    { now left. }
    { intros Hin. apply in_app_or in Hin.
      destruct Hin as [Hin|[Hin|[Hin|[Hin|Hin]]]]; try discriminate.
      - pose proof (forallb_In _ _ _ _ Hyw Hin) as H. discriminate H.
      - now apply (Hnot 42%N). }
    rewrite (split_by_op_absent (U "/") 47%N); cycle 1.
    { apply forallb_forall. intros d Hd.
      destruct (Hch d Hd) as [H|[->|[->| ->]]]; [now apply word_plain | | | ]; reflexivity. }
    { now left. }
    { intros Hin. destruct (Hch _ Hin) as [H|[H|[H|H]]]; discriminate. }
    change (U "%") with [37%N].
    rewrite (split_by_op_symbol 37%N y z Hyw Hyn eq_refl eq_refl); try discriminate.
    - reflexivity.
    - now apply words_plain.
    - now apply Hnot.
    - now apply strip_word.
    - exact Hzn. }
  assert (Hkw : forall k, In k [U "or"; U "او"; U "and"; U "و"] ->
                          find_aux (32%N :: k ++ [32%N]) (y ++ 32%N :: 37%N :: 32%N :: z) 0
                          = None).
  { intros k Hk. apply find_keyword_pair; try assumption; try discriminate; try reflexivity.
    destruct Hk as [<-|[<-|[<-|[<-|[]]]]]; reflexivity. }
  rewrite (eval_arith_product_level h rec ln file _ y (37%N :: 32%N :: z) Hch Hkw eq_refl
             Hyw Hyn Hyo (strip_words_around y [32%N; 37%N; 32%N] z Hyw Hyn Hzw Hzn)
             (U "%") y [z] Hm).
  unfold bind at 1. rewrite (Hrec y (VInt b) Hy Hb).
  cbn [multiplicative_loop]. unfold bind at 1. rewrite (Hrec z (VInt c) Hz Hc).
  change (str_eqb (U "%") (U "*")) with false. change (str_eqb (U "%") (U "/")) with false.
  cbv iota. unfold bind at 1, Py.mod_. cbn [Py.as_num].
  destruct (Z.eqb_spec c 0) as [E|_]; [contradiction | reflexivity].
Qed.

(** The operators of one level are not read from left to right: the
    first operator of the list ["*"], ["/"], ["%"] that occurs splits
    the whole expression.  So in [x * y % z] the product is split
    first and the remainder is taken before it: the value is
    [a * (b mod c)], where the host language gives [(a * b) mod c];
    ["2 * 3 % 4"] is 6.  The operands are names bound to ints or int
    literals. *)
Theorem remainder_before_product : forall h n ln file st x y z a b c,
  operand x = true -> operand y = true -> operand z = true ->
  operand_value st x = Some (VInt a) ->
  operand_value st y = Some (VInt b) ->
  operand_value st z = Some (VInt c) ->
  c <> 0%Z ->
  exo_evaluate h (3 + n) (x ++ U " * " ++ y ++ U " % " ++ z) ln file st
  = (Ok (VInt (a * (b mod c))), st).
Proof.
  intros h n ln file st x y z a b c Hx Hy Hz Ha Hb Hc Hc0.
  destruct (operand_spec x Hx) as (Hxn & Hxw & _ & Hxo).
  destruct (operand_spec y Hy) as (Hyn & Hyw & _ & Hyo).
  destruct (operand_spec z Hz) as (Hzn & Hzw & _ & _).
  change (x ++ U " * " ++ y ++ U " % " ++ z)
    with (x ++ 32%N :: 42%N :: 32%N :: y ++ 32%N :: 37%N :: 32%N :: z).
  set (e2 := y ++ 32%N :: 37%N :: 32%N :: z).
  change (exo_evaluate h (3 + n)) with (evaluate h (knot h (2 + n))).
  assert (Hch2 : forall d, In d e2 ->
                           word_char d = true \/ d = 32%N \/ d = 42%N \/ d = 37%N).
  { intros d Hd. apply (word_chars_of y d 37%N z Hyw); auto.
    intros e He. left. exact (forallb_In _ _ _ _ Hzw He). }
  assert (Hch : forall d, In d (x ++ 32%N :: 42%N :: 32%N :: e2) ->
                          word_char d = true \/ d = 32%N \/ d = 42%N \/ d = 37%N).
  { intros d Hd. apply (word_chars_of x d 42%N e2 Hxw); auto. }
  assert (Hkw : forall k, In k [U "or"; U "او"; U "and"; U "و"] ->
                          find_aux (32%N :: k ++ [32%N]) (x ++ 32%N :: 42%N :: 32%N :: e2) 0
                          = None).
  { intros k Hk. apply find_keyword_triple; try assumption; try discriminate;
      try reflexivity.
    - destruct Hk as [<-|[<-|[<-|[<-|[]]]]]; reflexivity.
    - apply (operand_not_keyword y k Hyo).
      destruct Hk as [<-|[<-|[<-|[<-|[]]]]]; reflexivity. }
  assert (Hst2 : strip e2 = e2)
    by exact (strip_words_around y [32%N; 37%N; 32%N] z Hyw Hyn Hzw Hzn).
  assert (Hst : strip (x ++ 32%N :: 42%N :: 32%N :: e2) = x ++ 32%N :: 42%N :: 32%N :: e2).
  { pose proof (strip_words_around x ([32%N; 42%N; 32%N] ++ y ++ [32%N; 37%N; 32%N]) z
                  Hxw Hxn Hzw Hzn) as H.
    rewrite <- !app_assoc in H. exact H. }
  assert (Hm : first_split_op (x ++ 32%N :: 42%N :: 32%N :: e2) multiplicative_ops
               = Some (U "*", [x; e2])).
  { unfold multiplicative_ops. cbn [first_split_op]. change (U "*") with [42%N].
    rewrite (split_by_op_symbol 42%N x e2 Hxw Hxn eq_refl eq_refl); try discriminate.
    - reflexivity.
    - apply forallb_forall. intros d Hd.
      destruct (Hch2 d Hd) as [H|[->|[->| ->]]]; [now apply word_plain | | | ]; reflexivity.
    - intros Hin. apply in_app_or in Hin.
      destruct Hin as [Hin|[Hin|[Hin|[Hin|Hin]]]]; try discriminate.
      + pose proof (forallb_In _ _ _ _ Hyw Hin) as H. discriminate H.
      + pose proof (forallb_In _ _ _ _ Hzw Hin) as H. discriminate H.
    - exact Hst2.
    - unfold e2. destruct y; [contradiction | discriminate]. }
  assert (Hno : ~ In 35%N (x ++ 32%N :: 42%N :: 32%N :: e2)).
  { intros Hin. destruct (Hch _ Hin) as [H|[H|[H|H]]]; discriminate. }
  unfold evaluate. rewrite (startswith_hash_strip _ Hno), (uncomment_none _ Hno), Hst.
  destruct (x ++ 32%N :: 42%N :: 32%N :: e2) as [|c0 t0] eqn:Ee;
    [destruct x; discriminate|]. rewrite <- Ee in *. cbn [orb].
  rewrite (eval_arith_product_level h (knot h (2 + n)) ln file _ x (42%N :: 32%N :: e2)
             Hch Hkw eq_refl Hxw Hxn Hxo Hst (U "*") x [e2] Hm).
  assert (Hrec : forall m w v, operand w = true -> operand_value st w = Some v ->
                               r_eval_arith (knot h (S m)) w ln file st = (Ok v, st)).
  { intros m w v Hw Hv. exact (eval_arith_operand h (knot h m) w ln file st v Hw Hv). }
  unfold bind at 1. change (2 + n) with (S (S n)). rewrite (Hrec (S n) x (VInt a) Hx Ha).
  cbn [multiplicative_loop]. unfold bind at 1.
  change (r_eval_arith (knot h (S (S n))) e2 ln file st)
    with (eval_arith h (knot h (S n)) e2 ln file st).
  unfold e2.
  rewrite (remainder_of_operands h (knot h (S n)) ln file st y z b c Hy Hz (Hrec n) Hb Hc Hc0).
  reflexivity.
Qed.

Lemma remainder_before_product_witness :
  exo_evaluate no_files 3 (U "2 * 3 % 4") (Some 1%nat) None initial_state
  = (Ok (VInt 6), initial_state).
Proof.
  exact (remainder_before_product no_files 0 (Some 1%nat) None initial_state
           (U "2") (U "3") (U "4") 2 3 4 eq_refl eq_refl eq_refl eq_refl eq_refl eq_refl
           ltac:(discriminate)).
Defined.
